(** * retsnoop: the event post-processing pipeline of [retsnoop.c]

    A shallow embedding of the user-space half of retsnoop: the logical
    call-stack reconstructor [filter_fstack], the kernel-stack filter
    [filter_kstack], the two-cursor merge of [handle_event], the
    return-type classifier [func_flags], the error-code decoder
    [err_to_str] and the source-location normaliser
    [detect_linux_src_loc].

    Conventions of the embedding, in the style of CompCert's C semantics:
    - [long] and [int] values are mathematical integers ([Z]) and every
      operation that can leave the type's range is followed by its
      two's-complement wrap-around ([wrap64], [cast_int], [cast_ulong]);
    - arrays are lists, read with [!!] and written with [<[i:=x]>]; a read
      or a write outside the array is undefined behaviour and makes the
      embedded function return [None];
    - a C string is the [string] of its characters before the
      terminating NUL; a [NULL] pointer is [None];
    - function-static buffers are threaded through as explicit state. *)

From Stdlib Require Import ZArith String Ascii List Lia DecimalString.
From stdpp Require Import base option list strings.

Local Open Scope Z_scope.

(** ** Machine integers *)

(** Wrap-around of a value of type [long] (64 bits, signed). *)
Definition wrap64 (z : Z) : Z := (z + 2 ^ 63) mod 2 ^ 64 - 2 ^ 63.

(** The conversion [(int) z]: the low 32 bits, read as a signed value. *)
Definition cast_int (z : Z) : Z := (z + 2 ^ 31) mod 2 ^ 32 - 2 ^ 31.

(** The conversion to [unsigned long] ([size_t]) that the usual arithmetic
    conversions apply when a [long] meets a [size_t]. *)
Definition cast_ulong (z : Z) : Z := z mod 2 ^ 64.

(** The wrap-around of a 32-bit [unsigned]. *)
Definition wrap_u32 (z : Z) : Z := z mod 2 ^ 32.

Definition in_long (z : Z) : Prop := - 2 ^ 63 <= z < 2 ^ 63.

Definition LONG_MIN : Z := - 2 ^ 63.

(** ** C strings and [printf] conversions *)

Definition NUL : ascii := Ascii.zero.

(** [s[k]]: the characters, then the terminating NUL, then nothing that
    may be read. *)
Definition char_at (s : string) (k : nat) : option ascii :=
  match String.get k s with
  | Some c => Some c
  | None => if (k =? String.length s)%nat then Some NUL else None
  end.

(** [strncmp(a, b, n) == 0]. *)
Fixpoint strncmp_eq (a b : string) (n : nat) : bool :=
  match n with
  | O => true
  | S n' =>
      match a, b with
      | EmptyString, EmptyString => true
      | String c a', String d b' => Ascii.eqb c d && strncmp_eq a' b' n'
      | _, _ => false
      end
  end.

(** [strcmp(a, b) == 0]. *)
Definition strcmp_eq (a b : string) : bool := String.eqb a b.

(** [isdigit] and [isxdigit] in the C locale. *)
Definition isdigit (c : ascii) : bool :=
  let n := nat_of_ascii c in ((48 <=? n) && (n <=? 57))%nat.

Definition isxdigit (c : ascii) : bool :=
  let n := nat_of_ascii c in
  (((48 <=? n) && (n <=? 57)) || ((65 <=? n) && (n <=? 70))
   || ((97 <=? n) && (n <=? 102)))%nat.

Fixpoint spaces (n : nat) : string :=
  match n with
  | O => EmptyString
  | S n' => String " " (spaces n')
  end.

(** ["%ld"]. *)
Definition fmt_ld (v : Z) : string := NilZero.string_of_int (Z.to_int v).

(** ["%*s"] with width [w]: right-justified, or left-justified in [|w|]
    columns when the width argument is negative. *)
Definition fmt_s (w : Z) (s : string) : string :=
  if w <? 0
  then s +:+ spaces (Z.to_nat (- w) - String.length s)
  else spaces (Z.to_nat w - String.length s) +:+ s.

(** ["%-*s"]. *)
Definition fmt_s_left (w : Z) (s : string) : string :=
  s +:+ spaces (Z.to_nat (Z.abs w) - String.length s).

(** ["%*ld"]. *)
Definition fmt_ld_w (w : Z) (v : Z) : string := fmt_s w (fmt_ld v).

(** ** The error-code decoder: [err_to_str] *)

Definition err_names : list (option string) :=
  [None; Some "EPERM"; Some "ENOENT"; Some "ESRCH";
   Some "EINTR"; Some "EIO"; Some "ENXIO"; Some "E2BIG";
   Some "ENOEXEC"; Some "EBADF"; Some "ECHILD"; Some "EAGAIN";
   Some "ENOMEM"; Some "EACCES"; Some "EFAULT"; Some "ENOTBLK";
   Some "EBUSY"; Some "EEXIST"; Some "EXDEV"; Some "ENODEV";
   Some "ENOTDIR"; Some "EISDIR"; Some "EINVAL"; Some "ENFILE";
   Some "EMFILE"; Some "ENOTTY"; Some "ETXTBSY"; Some "EFBIG";
   Some "ENOSPC"; Some "ESPIPE"; Some "EROFS"; Some "EMLINK";
   Some "EPIPE"; Some "EDOM"; Some "ERANGE"; Some "EDEADLK";
   Some "ENAMETOOLONG"; Some "ENOLCK"; Some "ENOSYS"; Some "ENOTEMPTY";
   Some "ELOOP"; None; Some "ENOMSG"; Some "EIDRM"; Some "ECHRNG";
   Some "EL2NSYNC"; Some "EL3HLT"; Some "EL3RST"; Some "ELNRNG";
   Some "EUNATCH"; Some "ENOCSI"; Some "EL2HLT"; Some "EBADE";
   Some "EBADR"; Some "EXFULL"; Some "ENOANO"; Some "EBADRQC";
   Some "EBADSLT"; None; Some "EBFONT"; Some "ENOSTR"; Some "ENODATA";
   Some "ETIME"; Some "ENOSR"; Some "ENONET"; Some "ENOPKG";
   Some "EREMOTE"; Some "ENOLINK"; Some "EADV"; Some "ESRMNT";
   Some "ECOMM"; Some "EPROTO"; Some "EMULTIHOP"; Some "EDOTDOT";
   Some "EBADMSG"; Some "EOVERFLOW"; Some "ENOTUNIQ"; Some "EBADFD";
   Some "EREMCHG"; Some "ELIBACC"; Some "ELIBBAD"; Some "ELIBSCN";
   Some "ELIBMAX"; Some "ELIBEXEC"; Some "EILSEQ"; Some "ERESTART";
   Some "ESTRPIPE"; Some "EUSERS"; Some "ENOTSOCK"; Some "EDESTADDRREQ";
   Some "EMSGSIZE"; Some "EPROTOTYPE"; Some "ENOPROTOOPT"; Some "EPROTONOSUPPORT";
   Some "ESOCKTNOSUPPORT"; Some "EOPNOTSUPP"; Some "EPFNOSUPPORT"; Some "EAFNOSUPPORT";
   Some "EADDRINUSE"; Some "EADDRNOTAVAIL"; Some "ENETDOWN"; Some "ENETUNREACH";
   Some "ENETRESET"; Some "ECONNABORTED"; Some "ECONNRESET"; Some "ENOBUFS";
   Some "EISCONN"; Some "ENOTCONN"; Some "ESHUTDOWN"; Some "ETOOMANYREFS";
   Some "ETIMEDOUT"; Some "ECONNREFUSED"; Some "EHOSTDOWN"; Some "EHOSTUNREACH";
   Some "EALREADY"; Some "EINPROGRESS"; Some "ESTALE"; Some "EUCLEAN";
   Some "ENOTNAM"; Some "ENAVAIL"; Some "EISNAM"; Some "EREMOTEIO";
   Some "EDQUOT"; Some "ENOMEDIUM"; Some "EMEDIUMTYPE"; Some "ECANCELED";
   Some "ENOKEY"; Some "EKEYEXPIRED"; Some "EKEYREVOKED"; Some "EKEYREJECTED";
   Some "EOWNERDEAD"; Some "ENOTRECOVERABLE"; Some "ERFKILL"; Some "EHWPOISON"]
  ++ replicate 378 None ++
  [Some "ERESTARTSYS"; Some "ERESTARTNOINTR"; Some "ERESTARTNOHAND"; Some "ENOIOCTLCMD";
   Some "ERESTART_RESTARTBLOCK"; Some "EPROBE_DEFER"; Some "EOPENSTALE"; Some "ENOPARAM";
   None; Some "EBADHANDLE"; Some "ENOTSYNC"; Some "EBADCOOKIE"; Some "ENOTSUPP";
   Some "ETOOSMALL"; Some "ESERVERFAULT"; Some "EBADTYPE"; Some "EJUKEBOX";
   Some "EIOCBQUEUED"; Some "ERECALLCONFLICT"].

(** [ARRAY_SIZE(err_names)]. *)
Definition err_names_size : Z := Z.of_nat (length err_names).

(** The result is [Some None] for a [NULL] return and [Some (Some name)]
    for a name; [None] would be a read outside the table. *)
Definition err_to_str (err : Z) : option (option string) :=
  let err := if err <? 0 then wrap64 (- err) else err in
  if cast_ulong err <? err_names_size
  then err_names !! Z.to_nat err
  else Some None.

(** ** Data model *)

(** The declarations of [retsnoop.h] that the pipeline uses. The header is
    not among the sources, so its constants are parameters of the
    development: the classification flags stored in [func_flags] and the
    lengths of the two function-static buffers of [handle_event]. *)
Class retsnoop_h := {
  FUNC_CANT_FAIL : Z;
  FUNC_NEEDS_SIGN_EXT : Z;
  FUNC_RET_PTR : Z;
  MAX_FSTACK_DEPTH : nat;
  MAX_KSTACK_DEPTH : nat
}.

(** [struct ksym]: a kernel symbol. [filter_kstack] compares symbols by
    pointer, so a kernel-stack item holds a reference into the symbol
    table ([ksym_ptr]) and the table is read through [ksym_at]. *)
Record ksym := { ks_addr : Z; ks_name : string }.

Definition ksym_ptr := nat.

(** [struct mass_attacher_func_info], of which only the name is read. *)
Record mass_attacher_func_info := { finfo_name : string }.

(** [struct ctx] as the pipeline sees it: the attacher's function table
    ([mass_attacher__func(att, id)]), the BPF skeleton's array
    [skel->bss->func_flags] and the symbol table ([ksyms__map_addr], with
    [None] for [NULL]), each through the lookup the code performs on it.
    Function ids are dense indices into the first two. *)
Record ctx := {
  mass_attacher__func : Z -> mass_attacher_func_info;
  bss_func_flags : Z -> Z;
  ksyms__map_addr : Z -> option ksym_ptr;
  ksym_at : ksym_ptr -> ksym
}.

(** The fields of the global [env] that the pipeline reads. *)
Record env := { verbose : bool; debug : bool }.

(** [struct call_stack]: one captured record. The structure is declared
    in [retsnoop.h]; from its uses, the four depth counters are 32-bit
    unsigned ([handle_event] prints [max_depth] with [%u]), the result,
    latency and kernel-stack arrays hold [long]s, and [kstack_sz] is a
    [long] number of bytes. The arrays are lists here, so that a record
    also says how many elements each of its arrays has. *)
Record call_stack := {
  func_ids : list Z;
  func_res : list Z;
  func_lat : list Z;
  depth : Z;
  max_depth : Z;
  is_err : bool;
  saved_ids : list Z;
  saved_res : list Z;
  saved_lat : list Z;
  saved_depth : Z;
  saved_max_depth : Z;
  kstack : list Z;
  kstack_sz : Z
}.

(** [struct fstack_item]: fexit logical stack trace item. *)
Record fstack_item := {
  name : string;
  res : Z;
  lat : Z;
  finished : bool;
  stitched : bool
}.

(** [struct kstack_item]: actual kernel stack trace item. Its member
    [ksym] is [ksym_of] here, [ksym] being the type of a symbol. *)
Record kstack_item := {
  ksym_of : option ksym_ptr;
  addr : Z;
  filtered : bool
}.

Definition set_name (v : string) (f : fstack_item) : fstack_item :=
  {| name := v; res := res f; lat := lat f;
     finished := finished f; stitched := stitched f |}.
Definition set_res (v : Z) (f : fstack_item) : fstack_item :=
  {| name := name f; res := v; lat := lat f;
     finished := finished f; stitched := stitched f |}.
Definition set_lat (v : Z) (f : fstack_item) : fstack_item :=
  {| name := name f; res := res f; lat := v;
     finished := finished f; stitched := stitched f |}.
Definition set_finished (v : bool) (f : fstack_item) : fstack_item :=
  {| name := name f; res := res f; lat := lat f;
     finished := v; stitched := stitched f |}.
Definition set_stitched (v : bool) (f : fstack_item) : fstack_item :=
  {| name := name f; res := res f; lat := lat f;
     finished := finished f; stitched := v |}.

Definition set_filtered (v : bool) (k : kstack_item) : kstack_item :=
  {| ksym_of := ksym_of k; addr := addr k; filtered := v |}.

(** [a[i]] for a C index [i]: negative and too large indices are outside
    the array. *)
Definition arr_get {A : Type} (a : list A) (i : Z) : option A :=
  if i <? 0 then None else a !! Z.to_nat i.

(** [a[i] = x]. *)
Definition arr_set {A : Type} (a : list A) (i : nat) (x : A) : option (list A) :=
  if (i <? length a)%nat then Some (<[i := x]> a) else None.

(** ** The logical call-stack reconstructor: [filter_fstack] *)

Section Fstack.
Context `{HDR : retsnoop_h}.

(** The result stored in an item: [(long)(int)v] when the function's
    flags have [FUNC_NEEDS_SIGN_EXT], the captured [long] otherwise. *)
Definition fstack_res (flags v : Z) : Z :=
  if Z.land flags FUNC_NEEDS_SIGN_EXT =? 0 then v else cast_int v.

(** The first loop, [k] iterations from index [i] and count [cnt]. *)
Fixpoint fstack_primary (c : ctx) (s : call_stack) (k : nat) (i : Z)
    (cnt : nat) (r : list fstack_item) : option (list fstack_item * nat) :=
  match k with
  | O => Some (r, cnt)
  | S k' =>
      id ← arr_get (func_ids s) i;
      let flags := bss_func_flags c id in
      let fname := finfo_name (mass_attacher__func c id) in
      fitem ← r !! cnt;
      let fitem := set_name fname fitem in
      let fitem := set_stitched false fitem in
      fitem ← (if depth s <=? i
               then l ← arr_get (func_lat s) i;
                    Some (set_lat l (set_finished true fitem))
               else Some (set_lat 0 fitem));
      v ← arr_get (func_res s) i;
      let fitem := set_res (fstack_res flags v) fitem in
      l ← arr_get (func_lat s) i;
      let fitem := set_lat l fitem in
      r ← arr_set r cnt fitem;
      fstack_primary c s k' (i + 1) (S cnt) r
  end.

(** The second loop, over the saved segment. *)
Fixpoint fstack_saved (c : ctx) (s : call_stack) (k : nat) (i : Z)
    (cnt : nat) (r : list fstack_item) : option (list fstack_item * nat) :=
  match k with
  | O => Some (r, cnt)
  | S k' =>
      id ← arr_get (saved_ids s) i;
      let flags := bss_func_flags c id in
      let fname := finfo_name (mass_attacher__func c id) in
      fitem ← r !! cnt;
      let fitem := set_name fname fitem in
      let fitem := set_stitched true fitem in
      let fitem := set_finished true fitem in
      l ← arr_get (saved_lat s) i;
      let fitem := set_lat l fitem in
      v ← arr_get (saved_res s) i;
      let fitem := set_res (fstack_res flags v) fitem in
      r ← arr_set r cnt fitem;
      fstack_saved c s k' (i + 1) (S cnt) r
  end.

(** [filter_fstack(ctx, r, s)]: the buffer [r] is updated in place and
    the number of items is returned. The loop guards compare the [int]
    index with an [unsigned] counter, so the first loop runs
    [max_depth] times and the second one from [saved_depth - 1] up to
    [saved_max_depth]. *)
Definition filter_fstack (c : ctx) (r : list fstack_item) (s : call_stack)
    : option (list fstack_item * Z) :=
  '(r, cnt) ← fstack_primary c s (Z.to_nat (max_depth s)) 0 0 r;
  if negb (wrap_u32 (max_depth s + 1) =? saved_depth s)
  then Some (r, Z.of_nat cnt)
  else
    let i0 := cast_int (saved_depth s - 1) in
    '(r, cnt) ← fstack_saved c s
                  (Z.to_nat (saved_max_depth s - wrap_u32 i0)) i0 cnt r;
    Some (r, Z.of_nat cnt).

End Fstack.

(** ** The kernel-stack filter: [filter_kstack] *)

Definition bpf_tramp_pfx : string := "bpf_trampoline_".
Definition bpf_prog_pfx : string := "bpf_prog_".

(** [sizeof(pfx)] of a [char] array initialised with a literal: its
    characters and the terminating NUL. *)
Definition sizeof_str (pfx : string) : nat := S (String.length pfx).

Definition FTRACE_OFFSET : Z := 5.

Definition is_bpf_tramp (c : ctx) (item : kstack_item) : option bool :=
  match ksym_of item with
  | None => Some false
  | Some p =>
      let nm := ks_name (ksym_at c p) in
      if strncmp_eq nm bpf_tramp_pfx (sizeof_str bpf_tramp_pfx - 1)
      then ch ← char_at nm (sizeof_str bpf_tramp_pfx); Some (isdigit ch)
      else Some false
  end.

Definition is_bpf_prog (c : ctx) (item : kstack_item) : option bool :=
  match ksym_of item with
  | None => Some false
  | Some p =>
      let nm := ks_name (ksym_at c p) in
      if strncmp_eq nm bpf_prog_pfx (sizeof_str bpf_prog_pfx - 1)
      then ch ← char_at nm (sizeof_str bpf_prog_pfx); Some (isxdigit ch)
      else Some false
  end.

(** The item that the first loop stores for the return address [a]. *)
Definition kframe (c : ctx) (a : Z) : kstack_item :=
  {| ksym_of := ksyms__map_addr c a; addr := a; filtered := false |}.

(** The first loop: look the symbols up and reverse the trace;
    [k] iterations remain, the next one reads [s->kstack[i]]. *)
Fixpoint kstack_reverse (c : ctx) (s : call_stack) (n k i : nat)
    (r : list kstack_item) : option (list kstack_item) :=
  match k with
  | O => Some r
  | S k' =>
      a ← kstack s !! i;
      r ← arr_set r (n - i - 1) (kframe c a);
      kstack_reverse c s n k' (S i) r
  end.

(** The guard of the fexit fix-up:
    [i + 2 < n && is_bpf_tramp(&r[i + 1]) && r[i].ksym == r[i + 2].ksym
     && r[i].addr - r[i].ksym->addr == FTRACE_OFFSET]. *)
Definition kstack_bridge (c : ctx) (n i : nat) (r : list kstack_item)
    : option bool :=
  if (i + 2 <? n)%nat then
    t ← r !! (i + 1)%nat;
    tr ← is_bpf_tramp c t;
    if (tr : bool) then
      a ← r !! i;
      b ← r !! (i + 2)%nat;
      if bool_decide (ksym_of a = ksym_of b) then
        sa ← ksym_of a;
        Some (wrap64 (addr a - ks_addr (ksym_at c sa)) =? FTRACE_OFFSET)
      else Some false
    else Some false
  else Some false.

(** The guard of the suppression:
    [is_bpf_tramp(&r[i]) || is_bpf_prog(&r[i])
     || strcmp(r[i].ksym->name, "bpf_get_stack_raw_tp") == 0]. *)
Definition kstack_suppress (c : ctx) (i : nat) (r : list kstack_item)
    : option bool :=
  a ← r !! i;
  tr ← is_bpf_tramp c a;
  if (tr : bool) then Some true else
  pr ← is_bpf_prog c a;
  if (pr : bool) then Some true else
  sa ← ksym_of a;
  Some (strcmp_eq (ks_name (ksym_at c sa)) "bpf_get_stack_raw_tp").

(** The second loop, the repair pass, with read cursor [i], write cursor
    [p] and [k] iterations to go ([i + k = n]); [v] is [env.verbose]. *)
Fixpoint kstack_repair (c : ctx) (v : bool) (n k i p : nat)
    (r : list kstack_item) : option (list kstack_item * nat) :=
  match k with
  | O => Some (r, p)
  | S k' =>
      ri ← r !! i;
      r ← arr_set r p ri;
      item ← r !! p;
      match ksym_of item with
      | None => kstack_repair c v n k' (S i) (S p) r
      | Some _ =>
          bridge ← kstack_bridge c n i r;
          if (bridge : bool) then
            if v then
              r ← arr_set r p (set_filtered true item);
              kstack_repair c v n k' (S i) (S p) r
            else
              r2 ← r !! (i + 2)%nat;
              r ← arr_set r p r2;
              kstack_repair c v n k' (S i) p r
          else
            sup ← kstack_suppress c i r;
            if (sup : bool) then
              if v then
                r ← arr_set r p (set_filtered true item);
                kstack_repair c v n k' (S i) (S p) r
              else if (i + 1 <? n)%nat then
                r1 ← r !! (i + 1)%nat;
                r ← arr_set r p r1;
                kstack_repair c v n k' (S i) p r
              else kstack_repair c v n k' (S i) p r
            else kstack_repair c v n k' (S i) (S p) r
      end
  end.

(** [n = s->kstack_sz / 8], a [long] division stored in an [int]. *)
Definition kstack_cnt (s : call_stack) : Z := cast_int (kstack_sz s ÷ 8).

Definition filter_kstack (c : ctx) (e : env) (r : list kstack_item)
    (s : call_stack) : option (list kstack_item * Z) :=
  let n := Z.to_nat (kstack_cnt s) in
  r ← kstack_reverse c s n n 0 r;
  '(r, p) ← kstack_repair c (verbose e) n n 0 0 r;
  Some (r, Z.of_nat p).

(** ** The presenter: [print_item] and the merge of [handle_event] *)

Definition nl : string := String (ascii_of_nat 10) EmptyString.

(** What the pipeline writes: text on [stdout] or [stderr], and the calls
    [print_item(dctx, fitem, kitem)] of the merge. *)
Inductive out_event :=
| Stdout (text : string)
| Stderr (text : string)
| PrintItem (fitem : option fstack_item) (kitem : option kstack_item).

(** The columns that [print_item] prints before the address and the
    function name: the missing-kernel-frame mark, the stitched mark, the
    latency and the result ([lat_width = 12], [err_width = 12]). The rest
    of the line comes from the symbol table and from addr2line. *)
Definition print_item_result (r : Z) : option string :=
  if r =? 0 then Some (fmt_s_left 12 "[NULL]" +:+ " ")
  else
    errstr ← err_to_str r;
    let out := match errstr with
               | Some nm => "[-" +:+ nm +:+ "]"
               | None => "[" +:+ fmt_ld r +:+ "]"
               end in
    let print_cnt := Z.of_nat (String.length out) in
    Some (out +:+ fmt_s (12 - print_cnt) "" +:+ " ").

Definition print_item_head (fitem : option fstack_item)
    (kitem : option kstack_item) : option string :=
  let mark := match kitem with None => "!" | Some _ => " " end in
  let star := match fitem with
              | Some f => if stitched f then "* " else "  "
              | None => "  "
              end in
  cols ← match fitem with
         | Some f =>
             if negb (finished f)
             then Some (fmt_s 12 "..." +:+ " " +:+ fmt_s_left 12 "[...]" +:+ " ")
             else
               col ← print_item_result (res f);
               Some (fmt_ld_w (12 - 2) (lat f ÷ 1000) +:+ "us " +:+ col)
         | None => Some (fmt_s (12 + 1 + 12) "" +:+ " ")
         end;
  Some (mark +:+ star +:+ cols).

(** The two function-static buffers of [handle_event]; they keep their
    contents from one event to the next. *)
Record hbufs := {
  fstack_buf : list fstack_item;
  kstack_buf : list kstack_item
}.

(** One turn of the [while (i < fstack_n)] loop: the [print_item] call it
    makes and the cursors it leaves. *)
Definition merge_step (c : ctx) (fs : list fstack_item)
    (ks : list kstack_item) (kn i j : nat) : option (out_event * nat * nat) :=
  fitem ← fs !! i;
  if (j <? kn)%nat then
    kitem ← ks !! j;
    let skip :=
      match ksym_of kitem with
      | None => true
      | Some p =>
          filtered kitem
          || negb (strcmp_eq (ks_name (ksym_at c p)) (name fitem))
      end in
    if skip
    then Some (PrintItem None (Some kitem), i, S j)
    else Some (PrintItem (Some fitem) (Some kitem), S i, S j)
  else Some (PrintItem (Some fitem) None, S i, j).

(** The loop itself; it returns the events and the final kernel cursor.
    Every turn advances a cursor, so [fuel] bounds the number of turns. *)
Fixpoint merge_loop (c : ctx) (fs : list fstack_item) (ks : list kstack_item)
    (fn kn fuel i j : nat) : option (list out_event * nat) :=
  if (i <? fn)%nat then
    match fuel with
    | O => None
    | S fuel' =>
        '(ev, i', j') ← merge_step c fs ks kn i j;
        '(evs, jf) ← merge_loop c fs ks fn kn fuel' i' j';
        Some (ev :: evs, jf)
    end
  else Some ([], j).

(** [for (; j < kstack_n; j++) print_item(dctx, NULL, &kstack[j]);] *)
Fixpoint merge_flush (ks : list kstack_item) (k j : nat)
    : option (list out_event) :=
  match k with
  | O => Some []
  | S k' =>
      kitem ← ks !! j;
      evs ← merge_flush ks k' (S j);
      Some (PrintItem None (Some kitem) :: evs)
  end.

Section HandleEvent.
Context `{HDR : retsnoop_h}.

Definition debug_header (s : call_stack) : list out_event :=
  [Stdout ("GOT " +:+ (if is_err s then "ERROR" else "SUCCESS")
           +:+ " STACK (depth " +:+ fmt_ld (max_depth s) +:+ "):" +:+ nl);
   Stdout ("DEPTH " +:+ fmt_ld (cast_int (depth s))
           +:+ " MAX DEPTH " +:+ fmt_ld (cast_int (max_depth s))
           +:+ " SAVED DEPTH " +:+ fmt_ld (cast_int (saved_depth s))
           +:+ " MAX SAVED DEPTH " +:+ fmt_ld (cast_int (saved_max_depth s))
           +:+ nl)].

Definition debug_counts (fstack_n kstack_n : Z) (s : call_stack)
    : list out_event :=
  [Stdout ("FSTACK (" +:+ fmt_ld fstack_n +:+ " items):" +:+ nl);
   Stdout ("KSTACK (" +:+ fmt_ld kstack_n +:+ " items out of original "
           +:+ fmt_ld (kstack_sz s ÷ 8) +:+ "):" +:+ nl)].

(** [handle_event(ctx, data, data_sz)]: the buffers after the event, what
    was written, and the returned status. *)
Definition handle_event (c : ctx) (e : env) (b : hbufs) (s : call_stack)
    : option (hbufs * list out_event * Z) :=
  if negb (is_err s) then Some (b, [], 0) else
  let dbg1 := if debug e then debug_header s else [] in
  '(fs, fstack_n) ← filter_fstack c (fstack_buf b) s;
  if fstack_n <? 0 then
    Some ({| fstack_buf := fs; kstack_buf := kstack_buf b |},
          dbg1 ++ [Stderr ("FAILURE DURING FILTERING FUNCTION STACK!!! "
                           +:+ fmt_ld fstack_n +:+ nl)], -1)
  else
  '(ks, kstack_n) ← filter_kstack c e (kstack_buf b) s;
  let b' := {| fstack_buf := fs; kstack_buf := ks |} in
  if kstack_n <? 0 then
    Some (b', dbg1 ++ [Stderr ("FAILURE DURING FILTERING KERNEL STACK!!! "
                               +:+ fmt_ld kstack_n +:+ nl)], -1)
  else
  let dbg2 := if debug e then debug_counts fstack_n kstack_n s else [] in
  let fn := Z.to_nat fstack_n in
  let kn := Z.to_nat kstack_n in
  '(evs, j) ← merge_loop c fs ks fn kn (fn + kn) 0 0;
  tl ← merge_flush ks (kn - j) j;
  Some (b', dbg1 ++ dbg2 ++ evs ++ tl ++ [Stdout (nl +:+ nl)], 0).

(** The buffers when the program starts: zero-filled static storage. *)
Definition fstack_zero : fstack_item :=
  {| name := ""; res := 0; lat := 0; finished := false; stitched := false |}.
Definition kstack_zero : kstack_item :=
  {| ksym_of := None; addr := 0; filtered := false |}.
Definition hbufs_init : hbufs :=
  {| fstack_buf := replicate MAX_FSTACK_DEPTH fstack_zero;
     kstack_buf := replicate MAX_KSTACK_DEPTH kstack_zero |}.

End HandleEvent.

(** ** The return-type classifier: [func_flags] *)

(** The part of libbpf's BTF that the classifier reads. In
    [struct btf_type] the members [size] and [type] share one union, and
    for an integer the encoding sits in the 32-bit word after the type. *)
Inductive btf_kind :=
| BTF_KIND_UNKN | BTF_KIND_INT | BTF_KIND_PTR | BTF_KIND_ARRAY
| BTF_KIND_STRUCT | BTF_KIND_UNION | BTF_KIND_ENUM | BTF_KIND_FWD
| BTF_KIND_TYPEDEF | BTF_KIND_VOLATILE | BTF_KIND_CONST | BTF_KIND_RESTRICT
| BTF_KIND_FUNC | BTF_KIND_FUNC_PROTO | BTF_KIND_VAR | BTF_KIND_DATASEC
| BTF_KIND_FLOAT.

Record btf_type := {
  btf_kind_of : btf_kind;
  btf_size_type : Z;
  btf_int_data : Z
}.

(** [btf__type_by_id]; [None] is the [NULL] it returns for a bad id. *)
Definition btf := Z -> option btf_type.

Definition btf_is_mod (t : btf_type) : bool :=
  match btf_kind_of t with
  | BTF_KIND_VOLATILE | BTF_KIND_CONST | BTF_KIND_RESTRICT => true
  | _ => false
  end.
Definition btf_is_typedef (t : btf_type) : bool :=
  match btf_kind_of t with BTF_KIND_TYPEDEF => true | _ => false end.
Definition btf_is_ptr (t : btf_type) : bool :=
  match btf_kind_of t with BTF_KIND_PTR => true | _ => false end.
Definition btf_is_int (t : btf_type) : bool :=
  match btf_kind_of t with BTF_KIND_INT => true | _ => false end.

Definition BTF_INT_SIGNED : Z := 1.
Definition btf_int_encoding (t : btf_type) : Z :=
  Z.shiftr (Z.land (btf_int_data t) 0x0f000000) 24.

(** [while (btf_is_mod(t) || btf_is_typedef(t)) t = btf__type_by_id(btf, t->type);]
    with a bound on the number of turns. *)
Fixpoint skip_mods (b : btf) (fuel : nat) (t : btf_type) : option btf_type :=
  if btf_is_mod t || btf_is_typedef t then
    match fuel with
    | O => None
    | S fuel' => t' ← b (btf_size_type t); skip_mods b fuel' t'
    end
  else Some t.

Section FuncFlags.
Context `{HDR : retsnoop_h}.

Definition classify (t : btf_type) : Z :=
  if btf_is_ptr t then FUNC_RET_PTR
  else if btf_is_int t && (Z.land (btf_int_encoding t) BTF_INT_SIGNED =? 0)
  then FUNC_CANT_FAIL
  else if btf_size_type t <? 4 then FUNC_CANT_FAIL
  else if btf_size_type t =? 4 then FUNC_NEEDS_SIGN_EXT
  else 0.

Definition func_flags (fuel : nat) (b : btf) (t : btf_type) : option Z :=
  t ← b (btf_size_type t);
  if btf_size_type t =? 0 then Some FUNC_CANT_FAIL else
  t ← b (btf_size_type t);
  t ← skip_mods b fuel t;
  Some (classify t).

End FuncFlags.

(** ** The source-location normaliser: [detect_linux_src_loc] *)

(** [strstr(hay, needle)]: the offset of the first occurrence, [None] for
    [NULL]. *)
Fixpoint strstr (hay needle : string) : option nat :=
  if String.prefix needle hay then Some O
  else match hay with
       | EmptyString => None
       | String _ hay' => S <$> strstr hay' needle
       end.

Definition linux_dirs : list string :=
  ["arch/"; "kernel/"; "include/"; "block/"; "fs/"; "net/";
   "drivers/"; "mm/"; "ipc/"; "security/"; "lib/"; "crypto/";
   "certs/"; "init/"; "lib/"; "scripts/"; "sound/"; "tools/";
   "usr/"; "virt/"].

(** The loop over the table; [p - path] is returned as an [int]. *)
Fixpoint detect_loop (path : string) (dirs : list string) : Z :=
  match dirs with
  | [] => 0
  | d :: dirs' =>
      match strstr path d with
      | Some off => cast_int (Z.of_nat off)
      | None => detect_loop path dirs'
      end
  end.

Definition detect_linux_src_loc (path : string) : Z :=
  detect_loop path linux_dirs.

(** [path + off], the text that [print_item] prints. *)
Fixpoint str_drop (n : nat) (s : string) : string :=
  match n, s with
  | O, _ => s
  | S n', String _ s' => str_drop n' s'
  | S _, EmptyString => EmptyString
  end.

(** ** Descriptions used by the statements *)

(** The record triggers stitching. *)
Definition stitches (s : call_stack) : bool :=
  wrap_u32 (max_depth s + 1) =? saved_depth s.

(** The accesses of [filter_fstack] stay inside the record's arrays and
    inside the buffer [r]. *)
Definition fstack_fits (r : list fstack_item) (s : call_stack) : Prop :=
  0 <= max_depth s < 2 ^ 31
  /\ 0 <= saved_max_depth s < 2 ^ 31
  /\ max_depth s <= Z.of_nat (length (func_ids s))
  /\ max_depth s <= Z.of_nat (length (func_res s))
  /\ max_depth s <= Z.of_nat (length (func_lat s))
  /\ max_depth s <= Z.of_nat (length r)
  /\ (stitches s = true ->
      saved_max_depth s <= Z.of_nat (length (saved_ids s))
      /\ saved_max_depth s <= Z.of_nat (length (saved_res s))
      /\ saved_max_depth s <= Z.of_nat (length (saved_lat s))
      /\ saved_max_depth s <= Z.of_nat (length r)).

(** Two records with the same primary segment. *)
Definition same_primary (s s' : call_stack) : Prop :=
  func_ids s' = func_ids s /\ func_res s' = func_res s
  /\ func_lat s' = func_lat s /\ depth s' = depth s
  /\ max_depth s' = max_depth s.

(** The list-level reading of the repair pass: the decision taken for the
    frame [a] that is followed by the frames [rest]; [Some None] drops the
    frame, [Some (Some x)] emits [x]. *)
Definition kfilter_bridge (c : ctx) (a : kstack_item)
    (rest : list kstack_item) : option bool :=
  match rest with
  | t :: b :: _ =>
      tr ← is_bpf_tramp c t;
      if (tr : bool) then
        if bool_decide (ksym_of a = ksym_of b) then
          sa ← ksym_of a;
          Some (wrap64 (addr a - ks_addr (ksym_at c sa)) =? FTRACE_OFFSET)
        else Some false
      else Some false
  | _ => Some false
  end.

Definition kfilter_suppress (c : ctx) (a : kstack_item) : option bool :=
  tr ← is_bpf_tramp c a;
  if (tr : bool) then Some true else
  pr ← is_bpf_prog c a;
  if (pr : bool) then Some true else
  sa ← ksym_of a;
  Some (strcmp_eq (ks_name (ksym_at c sa)) "bpf_get_stack_raw_tp").

Definition kfilter_mark (v : bool) (a : kstack_item) : option kstack_item :=
  if v then Some (set_filtered true a) else None.

(** A resolved frame is hit by one of the two rules. *)
Definition kfilter_hit (c : ctx) (a : kstack_item)
    (rest : list kstack_item) : option bool :=
  bridge ← kfilter_bridge c a rest;
  if (bridge : bool) then Some true else kfilter_suppress c a.

Definition kfilter_frame (c : ctx) (v : bool) (a : kstack_item)
    (rest : list kstack_item) : option (option kstack_item) :=
  match ksym_of a with
  | None => Some (Some a)
  | Some _ =>
      hit ← kfilter_hit c a rest;
      Some (if (hit : bool) then kfilter_mark v a else Some a)
  end.

Fixpoint kfilter (c : ctx) (v : bool) (l : list kstack_item)
    : option (list kstack_item) :=
  match l with
  | [] => Some []
  | a :: rest =>
      d ← kfilter_frame c v a rest;
      out ← kfilter c v rest;
      Some (match d with Some x => x :: out | None => out end)
  end.

(** The item that one turn of the first loop leaves at its position: all
    fields are stored except [finished], which is only ever set. *)
Definition primary_item `{HDR : retsnoop_h} (c : ctx) (s : call_stack)
    (pos id v l : Z) (old : fstack_item) : fstack_item :=
  {| name := finfo_name (mass_attacher__func c id);
     res := fstack_res (bss_func_flags c id) v;
     lat := l;
     finished := (depth s <=? pos) || finished old;
     stitched := false |}.

Definition saved_item `{HDR : retsnoop_h} (c : ctx) (id v l : Z)
    : fstack_item :=
  {| name := finfo_name (mass_attacher__func c id);
     res := fstack_res (bss_func_flags c id) v;
     lat := l;
     finished := true;
     stitched := true |}.

(** The rules look at a frame's symbol and address only. *)
Definition frame_sim (a x : kstack_item) : Prop :=
  ksym_of a = ksym_of x /\ addr a = addr x.

(** A frame that neither rule can remove. *)
Definition clean (c : ctx) (x : kstack_item) : Prop :=
  ksym_of x = None \/ kfilter_suppress c x = Some false.

(** Every symbol name can be classified: none is the bare prefix, whose
    classification would read past the terminating NUL. *)
Definition names_readable (c : ctx) : Prop :=
  forall x, is_Some (is_bpf_tramp c x) /\ is_Some (is_bpf_prog c x).

(** The conditions of the fexit fix-up at the frames [a], [t], [b]. *)
Definition bridge_cond (c : ctx) (a t b : kstack_item) : Prop :=
  exists sa, ksym_of a = Some sa
    /\ ksym_of b = Some sa
    /\ is_bpf_tramp c t = Some true
    /\ wrap64 (addr a - ks_addr (ksym_at c sa)) = FTRACE_OFFSET.

(** [d] occurs in [path] at offset [off]. *)
Definition occurs_at (d path : string) (off : nat) : Prop :=
  (off <= String.length path)%nat
  /\ String.prefix d (str_drop off path) = true.

(** The normaliser as the specification words it: the least offset at which
    any of the directory names occurs, and 0 when none does. *)
Fixpoint first_of_any (path : string) (dirs : list string) : option nat :=
  if existsb (fun d => String.prefix d path) dirs then Some O
  else match path with
       | EmptyString => None
       | String _ path' => S <$> first_of_any path' dirs
       end.

Definition src_loc_as_specified (path : string) : Z :=
  match first_of_any path linux_dirs with
  | Some off => Z.of_nat off
  | None => 0
  end.

(** The chain of modifiers and typedefs from [t] ends, after [k] links, in
    the type [u]. *)
Inductive unwraps (b : btf) : nat -> btf_type -> btf_type -> Prop :=
| unwraps_here t :
    btf_is_mod t || btf_is_typedef t = false -> unwraps b O t t
| unwraps_next k t t' u :
    btf_is_mod t || btf_is_typedef t = true ->
    b (btf_size_type t) = Some t' ->
    unwraps b k t' u -> unwraps b (S k) t u.

(** ** The merge as a sequence of lines *)

(** A kernel item matches the current logical item: it is resolved, not
    filtered, and its symbol has the logical item's name. *)
Definition frames_match (c : ctx) (f : fstack_item) (k : kstack_item) : Prop :=
  exists p, ksym_of k = Some p /\ filtered k = false
            /\ ks_name (ksym_at c p) = name f.

(** A kernel item is skipped past the current logical item: it is
    unresolved, or filtered, or its symbol has another name. *)
Definition frame_skipped (c : ctx) (f : fstack_item) (k : kstack_item)
    : Prop :=
  ksym_of k = None \/ filtered k = true
  \/ exists p, ksym_of k = Some p /\ ks_name (ksym_at c p) <> name f.

(** [merged c fs ks fn kn i j evs]: [evs] are the lines of the merge from
    the logical cursor [i] and the kernel cursor [j] to the end of both
    stacks. A combined line consumes a logical and a matching kernel item
    and advances both cursors; a skipped kernel item is printed alone and
    advances the kernel cursor only; a logical item is printed alone once
    the kernel stack is used up; the kernel items left when the logical
    stack is used up are printed alone. *)
Inductive merged (c : ctx) (fs : list fstack_item) (ks : list kstack_item)
    (fn kn : nat) : nat -> nat -> list out_event -> Prop :=
| merged_end i j :
    (fn <= i)%nat -> (kn <= j)%nat -> merged c fs ks fn kn i j []
| merged_together i j f k evs :
    (i < fn)%nat -> (j < kn)%nat ->
    fs !! i = Some f -> ks !! j = Some k -> frames_match c f k ->
    merged c fs ks fn kn (S i) (S j) evs ->
    merged c fs ks fn kn i j (PrintItem (Some f) (Some k) :: evs)
| merged_skipped i j f k evs :
    (i < fn)%nat -> (j < kn)%nat ->
    fs !! i = Some f -> ks !! j = Some k -> frame_skipped c f k ->
    merged c fs ks fn kn i (S j) evs ->
    merged c fs ks fn kn i j (PrintItem None (Some k) :: evs)
| merged_logical i j f evs :
    (i < fn)%nat -> (kn <= j)%nat ->
    fs !! i = Some f ->
    merged c fs ks fn kn (S i) j evs ->
    merged c fs ks fn kn i j (PrintItem (Some f) None :: evs)
| merged_left i j k evs :
    (fn <= i)%nat -> (j < kn)%nat ->
    ks !! j = Some k ->
    merged c fs ks fn kn i (S j) evs ->
    merged c fs ks fn kn i j (PrintItem None (Some k) :: evs).

(** ** Sample data for the closed examples *)

(** One assignment of the header's constants: distinct flag bits, and
    buffers of 64 and 128 items. *)
Definition sample_h : retsnoop_h :=
  {| FUNC_CANT_FAIL := 0x2; FUNC_NEEDS_SIGN_EXT := 0x4; FUNC_RET_PTR := 0x8;
     MAX_FSTACK_DEPTH := 64; MAX_KSTACK_DEPTH := 128 |}.

(** A symbol table with the two symbols of the comment in
    [filter_kstack] and two traced functions [A] and [B]. *)
Definition sample_syms (p : ksym_ptr) : ksym :=
  match p with
  | O => {| ks_addr := 0x8116a3d0; ks_name := "bpf_map_alloc_percpu" |}
  | 1%nat => {| ks_addr := 0xa16db000; ks_name := "bpf_trampoline_6442494949_0" |}
  | 2%nat => {| ks_addr := 0x81200000; ks_name := "A" |}
  | _ => {| ks_addr := 0x81300000; ks_name := "B" |}
  end.

Definition sample_map_addr (a : Z) : option ksym_ptr :=
  if (0x8116a3d0 <=? a) && (a <? 0x8116a500) then Some O
  else if (0xa16db000 <=? a) && (a <? 0xa16db100) then Some 1%nat
  else if (0x81200000 <=? a) && (a <? 0x81200100) then Some 2%nat
  else if (0x81300000 <=? a) && (a <? 0x81300100) then Some 3%nat
  else None.

Definition sample_ctx : ctx :=
  {| mass_attacher__func :=
       fun id => {| finfo_name := if id =? 0 then "A" else "B" |};
     bss_func_flags := fun id => if id =? 0 then 0x4 else 0;
     ksyms__map_addr := sample_map_addr;
     ksym_at := sample_syms |}.

Definition quiet : env := {| verbose := false; debug := false |}.
Definition chatty : env := {| verbose := true; debug := false |}.

(** A record with the given primary segment and kernel trace. *)
Definition sample_record (ids results lats : list Z) (d md sd smd : Z)
    (trace : list Z) : call_stack :=
  {| func_ids := ids; func_res := results; func_lat := lats;
     depth := d; max_depth := md; is_err := true;
     saved_ids := ids; saved_res := results; saved_lat := lats;
     saved_depth := sd; saved_max_depth := smd;
     kstack := trace; kstack_sz := 8 * Z.of_nat (length trace) |}.

(** The three return addresses of the fexit pattern. *)
Definition pc_entry : Z := 0x8116a3d5.   (* bpf_map_alloc_percpu+0x5 *)
Definition pc_tramp : Z := 0xa16db06d.   (* bpf_trampoline_6442494949_0+0x6d *)
Definition pc_body : Z := 0x8116a40f.    (* bpf_map_alloc_percpu+0x3f *)

(** A small BTF for the classifier. Type 1 is a function whose prototype
    (type 2) returns type 3, a typedef of a [const] (type 4) 32-bit signed
    [int] (type 5). *)
Definition sample_func : btf_type :=
  {| btf_kind_of := BTF_KIND_FUNC; btf_size_type := 2; btf_int_data := 0 |}.
Definition sample_proto : btf_type :=
  {| btf_kind_of := BTF_KIND_FUNC_PROTO; btf_size_type := 3; btf_int_data := 0 |}.
Definition sample_typedef : btf_type :=
  {| btf_kind_of := BTF_KIND_TYPEDEF; btf_size_type := 4; btf_int_data := 0 |}.
Definition sample_const : btf_type :=
  {| btf_kind_of := BTF_KIND_CONST; btf_size_type := 5; btf_int_data := 0 |}.
Definition sample_int : btf_type :=
  {| btf_kind_of := BTF_KIND_INT; btf_size_type := 4;
     btf_int_data := 0x01000020 |}.

Definition sample_btf : btf := fun id =>
  if id =? 1 then Some sample_func
  else if id =? 2 then Some sample_proto
  else if id =? 3 then Some sample_typedef
  else if id =? 4 then Some sample_const
  else if id =? 5 then Some sample_int
  else None.

(** ** Readings of the handler's output *)

(** The logical item and the kernel item that a [print_item] call was
    given. *)
Definition event_fitem (ev : out_event) : option fstack_item :=
  match ev with PrintItem f _ => f | _ => None end.

Definition event_kitem (ev : out_event) : option kstack_item :=
  match ev with PrintItem _ k => k | _ => None end.

(** A combined line: both items at once. *)
Definition event_pair (ev : out_event) : bool :=
  match ev with PrintItem (Some _) (Some _) => true | _ => false end.

(** The trace in call order as the first loop of [filter_kstack] leaves
    it: the [kstack_sz / 8] captured addresses, looked up and reversed. *)
Definition kstack_frames (c : ctx) (s : call_stack) : list kstack_item :=
  reverse (kframe c <$> take (Z.to_nat (kstack_cnt s)) (kstack s)).

(** An unresolved frame. *)
Definition unresolved (x : kstack_item) : Prop := ksym_of x = None.

#[global] Instance unresolved_dec (x : kstack_item) : Decision (unresolved x) :=
  decide (ksym_of x = None).

(** The buffer after [filter_kstack] on the sample fexit trace, without and
    with [verbose], and on a trace with an unresolved address. *)
Definition sample_trace : call_stack :=
  sample_record [] [] [] 0 0 0 0 [pc_body; pc_tramp; pc_entry; 0x10].

Definition sample_kbuf : list kstack_item := replicate 5 kstack_zero.

Definition sample_quiet_out : list kstack_item :=
  [kframe sample_ctx 0x10; kframe sample_ctx pc_body;
   kframe sample_ctx pc_tramp; kframe sample_ctx pc_body; kstack_zero].


(** A kernel-stack item whose symbol is called [nm], over a symbol table
    that holds just that name. *)
Definition named_ctx (nm : string) : ctx :=
  {| mass_attacher__func := fun _ => {| finfo_name := "" |};
     bss_func_flags := fun _ => 0;
     ksyms__map_addr := fun _ => Some O;
     ksym_at := fun _ => {| ks_addr := 0; ks_name := nm |} |}.

(** The accesses of [handle_event] on the record [s] stay inside the
    record's arrays and inside the two buffers of [b]. *)
Definition record_fits (b : hbufs) (s : call_stack) : Prop :=
  fstack_fits (fstack_buf b) s
  /\ (Z.to_nat (kstack_cnt s) <= length (kstack_buf b))%nat
  /\ (Z.to_nat (kstack_cnt s) <= length (kstack s))%nat.

(** [handle_event] on consecutive records, each one starting from the
    buffers that the one before has left; the result lists what each call
    wrote and returned. *)
Fixpoint handle_events `{HDR : retsnoop_h} (c : ctx) (e : env) (b : hbufs)
    (ss : list call_stack) : option (hbufs * list (list out_event * Z)) :=
  match ss with
  | [] => Some (b, [])
  | s :: ss' =>
      '(b1, out, ret) ← handle_event c e b s;
      '(b2, rest) ← handle_events c e b1 ss';
      Some (b2, (out, ret) :: rest)
  end.

(** Two records for the sample table: a stitched one and an error record
    with an fexit pattern in its kernel trace. *)
Definition sample_stitched : call_stack :=
  sample_record [0; 1; 1; 0] [-22; 0; 0xfffffff4; 0]
    [5000; 7000; 9000; 11000] 0 2 3 4 [0x81300020; 0x10; 0x81200010].

Definition sample_fexit : call_stack :=
  sample_record [0; 1] [0xffffffea; 0] [5000; 7000] 0 2 0 0
    [pc_body; pc_tramp; pc_entry; 0x81200010].

(** The names of the table, without its holes. *)
Definition err_name_list : list string := omap id err_names.

(** The bracketed text that [print_item] prints for a non-zero result. *)
Definition result_text (errstr : option string) (r : Z) : string :=
  match errstr with
  | Some nm => "[-" +:+ nm +:+ "]"
  | None => "[" +:+ fmt_ld r +:+ "]"
  end.

(** * The command line *)

(** [struct preset]; the three [NULL]-terminated arrays of globs are
    lists. *)
Record preset := {
  p_name : string;
  p_entry_globs : list string;
  p_allow_globs : list string;
  p_deny_globs : list string
}.

Definition bpf_entry_globs : list string := ["*_sys_bpf"]%string.

Definition bpf_allow_globs : list string :=
  ["*bpf_*"; "do_check*"; "reg_*"; "check_*"; "btf_*"; "_btf_*"; "__btf_*";
   "find_*"; "resolve_*"; "convert_*"; "release_*"; "adjust_*";
   "verifier_*"; "verbose_*"; "type_*"; "arg_*"; "sanitize_*"; "print_*";
   "map_*"; "ringbuf_*"; "array_*"; "__vmalloc_*"; "__alloc*"; "pcpu_*";
   "memdup_*"; "copy_*"; "_copy_*"; "raw_copy_*"]%string.

Definition bpf_deny_globs : list string :=
  ["bpf_get_smp_processor_id"; "mm_init"; "migrate_enable";
   "migrate_disable"; "rcu_read_lock_strict"; "rcu_read_unlock_strict";
   "__bpf_prog_enter"; "__bpf_prog_exit"; "__bpf_prog_enter_sleepable";
   "__bpf_prog_exit_sleepable"; "__cant_migrate";
   "bpf_get_current_pid_tgid"; "__bpf_prog_run_args"; "__x64_sys_select";
   "__x64_sys_epoll_wait"; "__x64_sys_ppoll"; "bpf_lsm_*";
   "check_cfs_rq_runtime"; "find_busiest_group"; "find_vma*"]%string.

Definition perf_entry_globs : list string := ["*_sys_perf_event_open"]%string.
Definition perf_allow_globs : list string := ["perf_*"]%string.
Definition perf_deny_globs : list string := ["bla"]%string.

Definition presets : list preset :=
  [ {| p_name := "bpf"; p_entry_globs := bpf_entry_globs;
       p_allow_globs := bpf_allow_globs; p_deny_globs := bpf_deny_globs |};
    {| p_name := "perf"; p_entry_globs := perf_entry_globs;
       p_allow_globs := perf_allow_globs; p_deny_globs := perf_deny_globs |} ].

(** The global [env] with every field that the command line sets.
    [verbose] and [debug] are those of [env_flags]; each growable array
    with its counter ([presets] and [preset_cnt], and so on) is a list,
    the counter being its length; [vmlinux_path] is [None] for [NULL]. *)
Record cmd_env := {
  env_flags : env;
  debug_extra : bool;
  symb_lines : bool;
  symb_inlines : bool;
  vmlinux_path : option string;
  env_presets : list preset;
  allow_globs : list string;
  deny_globs : list string;
  entry_globs : list string
}.

(** The zero-initialised [env] of program start. *)
Definition env_init : cmd_env :=
  {| env_flags := {| verbose := false; debug := false |};
     debug_extra := false; symb_lines := false; symb_inlines := false;
     vmlinux_path := None; env_presets := []; allow_globs := [];
     deny_globs := []; entry_globs := [] |}.

Definition set_verbose (e : cmd_env) : cmd_env :=
  {| env_flags := {| verbose := true; debug := debug (env_flags e) |};
     debug_extra := debug_extra e; symb_lines := symb_lines e;
     symb_inlines := symb_inlines e; vmlinux_path := vmlinux_path e;
     env_presets := env_presets e; allow_globs := allow_globs e;
     deny_globs := deny_globs e; entry_globs := entry_globs e |}.
Definition set_debug (e : cmd_env) : cmd_env :=
  {| env_flags := {| verbose := verbose (env_flags e); debug := true |};
     debug_extra := debug_extra e; symb_lines := symb_lines e;
     symb_inlines := symb_inlines e; vmlinux_path := vmlinux_path e;
     env_presets := env_presets e; allow_globs := allow_globs e;
     deny_globs := deny_globs e; entry_globs := entry_globs e |}.
Definition set_debug_extra (e : cmd_env) : cmd_env :=
  {| env_flags := env_flags e;
     debug_extra := true; symb_lines := symb_lines e;
     symb_inlines := symb_inlines e; vmlinux_path := vmlinux_path e;
     env_presets := env_presets e; allow_globs := allow_globs e;
     deny_globs := deny_globs e; entry_globs := entry_globs e |}.
Definition set_symb_lines (e : cmd_env) : cmd_env :=
  {| env_flags := env_flags e;
     debug_extra := debug_extra e; symb_lines := true;
     symb_inlines := symb_inlines e; vmlinux_path := vmlinux_path e;
     env_presets := env_presets e; allow_globs := allow_globs e;
     deny_globs := deny_globs e; entry_globs := entry_globs e |}.
Definition set_symb_inlines (e : cmd_env) : cmd_env :=
  {| env_flags := env_flags e;
     debug_extra := debug_extra e; symb_lines := symb_lines e;
     symb_inlines := true; vmlinux_path := vmlinux_path e;
     env_presets := env_presets e; allow_globs := allow_globs e;
     deny_globs := deny_globs e; entry_globs := entry_globs e |}.
Definition set_vmlinux_path (v : option string) (e : cmd_env) : cmd_env :=
  {| env_flags := env_flags e;
     debug_extra := debug_extra e; symb_lines := symb_lines e;
     symb_inlines := symb_inlines e; vmlinux_path := v;
     env_presets := env_presets e; allow_globs := allow_globs e;
     deny_globs := deny_globs e; entry_globs := entry_globs e |}.
Definition push_preset (p : preset) (e : cmd_env) : cmd_env :=
  {| env_flags := env_flags e;
     debug_extra := debug_extra e; symb_lines := symb_lines e;
     symb_inlines := symb_inlines e; vmlinux_path := vmlinux_path e;
     env_presets := env_presets e ++ [p]; allow_globs := allow_globs e;
     deny_globs := deny_globs e; entry_globs := entry_globs e |}.
Definition push_allow_glob (g : string) (e : cmd_env) : cmd_env :=
  {| env_flags := env_flags e;
     debug_extra := debug_extra e; symb_lines := symb_lines e;
     symb_inlines := symb_inlines e; vmlinux_path := vmlinux_path e;
     env_presets := env_presets e; allow_globs := allow_globs e ++ [g];
     deny_globs := deny_globs e; entry_globs := entry_globs e |}.
Definition push_deny_glob (g : string) (e : cmd_env) : cmd_env :=
  {| env_flags := env_flags e;
     debug_extra := debug_extra e; symb_lines := symb_lines e;
     symb_inlines := symb_inlines e; vmlinux_path := vmlinux_path e;
     env_presets := env_presets e; allow_globs := allow_globs e;
     deny_globs := deny_globs e ++ [g]; entry_globs := entry_globs e |}.
Definition push_entry_glob (g : string) (e : cmd_env) : cmd_env :=
  {| env_flags := env_flags e;
     debug_extra := debug_extra e; symb_lines := symb_lines e;
     symb_inlines := symb_inlines e; vmlinux_path := vmlinux_path e;
     env_presets := env_presets e; allow_globs := allow_globs e;
     deny_globs := deny_globs e; entry_globs := entry_globs e ++ [g] |}.

(** [errno.h] and [argp.h]. *)
Definition ESRCH : Z := 3.
Definition E2BIG : Z := 7.
Definition ENOMEM : Z := 12.
Definition EINVAL : Z := 22.
Definition ARGP_ERR_UNKNOWN : Z := E2BIG.
Definition ARGP_KEY_ARG : Z := 0.

(** An option key: the character of the option as an [int]. *)
Definition key (ch : ascii) : Z := Z.of_nat (nat_of_ascii ch).

(** The allocations of one parser call: whether [realloc] and [strdup]
    succeed, and whether a successful [realloc] moves the block, which
    frees the old one. *)
Record allocs := {
  realloc_ok : bool;
  realloc_moves : bool;
  strdup_ok : bool
}.

(** How a parser call ends: it returns an [error_t], or [argp_usage]
    prints the usage text and leaves the program. *)
Inductive parse_end :=
| Returns (err : Z)
| Usage.

(** The loop of case ['p']: the first preset of the table with that
    name. *)
Fixpoint find_preset (arg : string) (ps : list preset) : option preset :=
  match ps with
  | [] => None
  | p :: ps' => if strcmp_eq (p_name p) arg then Some p else find_preset arg ps'
  end.

(** The three arrays of globs of [env]. *)
Inductive glob_array :=
| AllowGlobs
| DenyGlobs
| EntryGlobs.

#[global] Instance glob_array_eq_dec : EqDecision glob_array.
Proof. solve_decision. Defined.

Definition globs_of (a : glob_array) (e : cmd_env) : list string :=
  match a with
  | AllowGlobs => allow_globs e
  | DenyGlobs => deny_globs e
  | EntryGlobs => entry_globs e
  end.

Definition push_to (a : glob_array) (s : string) (e : cmd_env) : cmd_env :=
  match a with
  | AllowGlobs => push_allow_glob s e
  | DenyGlobs => push_deny_glob s e
  | EntryGlobs => push_entry_glob s e
  end.

(** The global [env] while the command line is parsed: its contents, for
    each array of globs whether the pointer that [env] holds has been
    freed, and the number of allocated blocks that no pointer reaches any
    more. Cases ['a'], ['d'] and ['e'] store the pointer that [realloc]
    returns only after [strdup] has succeeded too, so when [strdup]
    fails, the block that [realloc] returned is lost unless it is the
    old block extended in place, and when [realloc] moved the block,
    [env] is left with the old pointer to a block that [realloc]
    freed. *)
Record parse_state := {
  st_env : cmd_env;
  allow_freed : bool;
  deny_freed : bool;
  entry_freed : bool;
  leaked : nat
}.

Definition with_env (e : cmd_env) (st : parse_state) : parse_state :=
  {| st_env := e; allow_freed := allow_freed st;
     deny_freed := deny_freed st; entry_freed := entry_freed st;
     leaked := leaked st |}.

Definition leak (st : parse_state) : parse_state :=
  {| st_env := st_env st; allow_freed := allow_freed st;
     deny_freed := deny_freed st; entry_freed := entry_freed st;
     leaked := S (leaked st) |}.

Definition freed_of (a : glob_array) (st : parse_state) : bool :=
  match a with
  | AllowGlobs => allow_freed st
  | DenyGlobs => deny_freed st
  | EntryGlobs => entry_freed st
  end.

Definition mark_freed (a : glob_array) (st : parse_state) : parse_state :=
  match a with
  | AllowGlobs =>
      {| st_env := st_env st; allow_freed := true;
         deny_freed := deny_freed st; entry_freed := entry_freed st;
         leaked := leaked st |}
  | DenyGlobs =>
      {| st_env := st_env st; allow_freed := allow_freed st;
         deny_freed := true; entry_freed := entry_freed st;
         leaked := leaked st |}
  | EntryGlobs =>
      {| st_env := st_env st; allow_freed := allow_freed st;
         deny_freed := deny_freed st; entry_freed := true;
         leaked := leaked st |}
  end.

(** The program starts with zeroed [env]: every array pointer is [NULL]. *)
Definition state_init : parse_state :=
  {| st_env := env_init; allow_freed := false; deny_freed := false;
     entry_freed := false; leaked := 0 |}.

(** An array pointer is [NULL] until the first glob is stored and never
    afterwards; [realloc(NULL, n)] frees nothing. *)
Definition has_block (globs : list string) : bool :=
  match globs with
  | [] => false
  | _ :: _ => true
  end.

(** [env] after [realloc] succeeded and [strdup] failed: [tmp] is dropped.
    If the array was [NULL], [tmp] is a new block and is lost; if the
    block was extended in place, [tmp] is the pointer that [env] holds;
    if it was moved, the new block is lost and [env] holds a freed
    pointer. *)
Definition strdup_failed (m : allocs) (a : glob_array) (st : parse_state)
    : parse_state :=
  if has_block (globs_of a (st_env st)) then
    if realloc_moves m then leak (mark_freed a st) else st
  else leak st.

(** The three cases that append a copy of the argument to an array of
    globs: [tmp = realloc(env.globs, ...)], then [s = strdup(arg)], and
    only then [env.globs = tmp]. To give [realloc] a freed pointer is
    undefined. *)
Definition push_glob (m : allocs) (arg : option string) (a : glob_array)
    (st : parse_state) : option (parse_state * list out_event * parse_end) :=
  if freed_of a st then None else
  if negb (realloc_ok m) then Some (st, [], Returns (- ENOMEM)) else
  s ← arg;
  if negb (strdup_ok m) then
    Some (strdup_failed m a st, [], Returns (- ENOMEM))
  else Some (with_env (push_to a s (st_env st)) st, [], Returns 0).

(** [parse_arg(key, arg, state)] on the global [env]; [arg] is [None] for
    [NULL], which [strcmp] and [strdup] must not be given. *)
Definition parse_arg (m : allocs) (k : Z) (arg : option string)
    (st : parse_state) : option (parse_state * list out_event * parse_end) :=
  let e := st_env st in
  if k =? key "v" then
    let e := set_verbose e in
    match arg with
    | Some a =>
        if strcmp_eq a "v" then Some (with_env (set_debug e) st, [], Returns 0)
        else if strcmp_eq a "vv"
        then Some (with_env (set_debug_extra (set_debug e)) st, [], Returns 0)
        else Some (with_env e st,
                   [Stderr ("Unrecognized verbosity setting '" +:+ a
                     +:+ "', only -v, -vv, and -vvv are supported" +:+ nl)],
                   Returns (- EINVAL))
    | None => Some (with_env e st, [], Returns 0)
    end
  else if k =? key "p" then
    a ← arg;
    match find_preset a presets with
    | Some p =>
        if negb (realloc_ok m) then Some (st, [], Returns (- ENOMEM))
        else Some (with_env (push_preset p e) st, [], Returns 0)
    | None =>
        Some (st, [Stderr ("Unknown preset '" +:+ a +:+ "' specified." +:+ nl)],
              Returns 0)
    end
  else if k =? key "a" then push_glob m arg AllowGlobs st
  else if k =? key "d" then push_glob m arg DenyGlobs st
  else if k =? key "e" then push_glob m arg EntryGlobs st
  else if k =? key "s" then
    let e := set_symb_lines e in
    match arg with
    | Some a =>
        if strcmp_eq a "s" then Some (with_env (set_symb_inlines e) st, [], Returns 0)
        else Some (with_env e st,
                   [Stderr ("Unrecognized symbolization setting '" +:+ a
                     +:+ "', only -s, and -ss are supported" +:+ nl)],
                   Returns (- EINVAL))
    | None => Some (with_env e st, [], Returns 0)
    end
  else if k =? key "k" then Some (with_env (set_vmlinux_path arg e) st, [], Returns 0)
  else if k =? ARGP_KEY_ARG then Some (st, [], Usage)
  else Some (st, [], Returns ARGP_ERR_UNKNOWN).

(** ** Descriptions of the command line *)

(** One parser call as [argp] makes it. *)
Record parse_call := { pc_allocs : allocs; pc_key : Z; pc_arg : option string }.

(** The parser calls of one run, in order, on the global [env]. [argp]
    makes no call after one that returned an error, so the list of a run
    ends there; a call that leaves the program ends the run. *)
Fixpoint parse_calls (cs : list parse_call) (st : parse_state)
    : option parse_state :=
  match cs with
  | [] => Some st
  | c :: cs' =>
      '(st', _, r) ← parse_arg (pc_allocs c) (pc_key c) (pc_arg c) st;
      match r with
      | Usage => Some st'
      | Returns _ => parse_calls cs' st'
      end
  end.

(** The verbosity and symbolization levels are nested. *)
Definition levels_nested (e : cmd_env) : Prop :=
  (debug_extra e = true -> debug (env_flags e) = true)
  /\ (debug (env_flags e) = true -> verbose (env_flags e) = true)
  /\ (symb_inlines e = true -> symb_lines e = true).

(** No level that [e] has is switched off in [e'] and no preset is
    missing. *)
Definition env_grows (e e' : cmd_env) : Prop :=
  (verbose (env_flags e) = true -> verbose (env_flags e') = true)
  /\ (debug (env_flags e) = true -> debug (env_flags e') = true)
  /\ (debug_extra e = true -> debug_extra e' = true)
  /\ (symb_lines e = true -> symb_lines e' = true)
  /\ (symb_inlines e = true -> symb_inlines e' = true)
  /\ env_presets e `prefix_of` env_presets e'.

(** An array of globs that [st'] holds intact held no freed pointer in
    [st] either and has only grown at its end. *)
Definition globs_grow (st st' : parse_state) : Prop :=
  forall a, freed_of a st' = false ->
    freed_of a st = false
    /\ globs_of a (st_env st) `prefix_of` globs_of a (st_env st').

(** The option of an array. *)
Definition array_key (a : glob_array) : Z :=
  match a with
  | AllowGlobs => key "a"
  | DenyGlobs => key "d"
  | EntryGlobs => key "e"
  end.



Definition all_ok : allocs :=
  {| realloc_ok := true; realloc_moves := true; strdup_ok := true |}.

(** A command line with a misspelt preset, and whose last [-e] finds no
    memory for the copy of its argument after [realloc] has extended the
    array in place. *)
Definition sample_calls : list parse_call :=
  [ {| pc_allocs := all_ok;
       pc_key := key "e"; pc_arg := Some "*_sys_bpf"%string |};
    {| pc_allocs := all_ok;
       pc_key := key "p"; pc_arg := Some "bfp"%string |};
    {| pc_allocs := all_ok;
       pc_key := key "v"; pc_arg := Some "vv"%string |};
    {| pc_allocs := all_ok;
       pc_key := key "p"; pc_arg := Some "perf"%string |};
    {| pc_allocs := all_ok;
       pc_key := key "a"; pc_arg := Some "bpf_*"%string |};
    {| pc_allocs := {| realloc_ok := true; realloc_moves := false;
                       strdup_ok := false |};
       pc_key := key "e"; pc_arg := Some "lost"%string |} ].

(** The state after [-e '*_sys_bpf'], and a call of [-e] in which
    [realloc] moves the array and [strdup] fails. *)
Definition sample_state : parse_state :=
  with_env (push_entry_glob "*_sys_bpf" env_init) state_init.

Definition moved_no_copy : allocs :=
  {| realloc_ok := true; realloc_moves := true; strdup_ok := false |}.

(** * Setting up the attacher: [main] *)

(** The calls [mass_attacher__allow_glob(att, g)] and
    [mass_attacher__deny_glob(att, g)]. *)
Inductive att_call :=
| AllowGlob (g : string)
| DenyGlob (g : string).

Section Main.
Context `{HDR : retsnoop_h}.

(** [FUNC_IS_ENTRY] of [retsnoop.h] and [glob_matches] of
    [mass_attacher.h]. *)
Variable FUNC_IS_ENTRY : Z.
Variable glob_matches : string -> string -> bool.

(** The [err] that the attacher returns for a call, given the calls made
    before. *)
Variable att_glob : list att_call -> att_call -> Z.

(** [for (j = 0; globs[j]; j++) { err = call(att, globs[j]); if (err) goto cleanup; }]
    after the calls [made]: the calls made at the end of the loop, and
    [err]. *)
Fixpoint glob_loop (mk : string -> att_call) (globs : list string)
    (made : list att_call) : list att_call * Z :=
  match globs with
  | [] => (made, 0)
  | g :: globs' =>
      let err := att_glob made (mk g) in
      if err =? 0 then glob_loop mk globs' (made ++ [mk g])
      else (made ++ [mk g], err)
  end.

(** What follows a loop that did not [goto cleanup]. *)
Definition and_then (r : list att_call * Z)
    (k : list att_call -> list att_call * Z) : list att_call * Z :=
  if r.2 =? 0 then k r.1 else r.

(** The loop over [env.presets]. *)
Fixpoint preset_loop (ps : list preset) (made : list att_call)
    : list att_call * Z :=
  match ps with
  | [] => (made, 0)
  | p :: ps' =>
      and_then (glob_loop AllowGlob (p_entry_globs p) made) (fun made =>
      and_then (glob_loop AllowGlob (p_allow_globs p) made) (fun made =>
      and_then (glob_loop DenyGlob (p_deny_globs p) made) (fun made =>
      preset_loop ps' made)))
  end.

(** The registration of all globs, from [mass_attacher__new] to
    [mass_attacher__prepare]. *)
Definition register_globs (e : cmd_env) : list att_call * Z :=
  and_then (preset_loop (env_presets e) []) (fun made =>
  and_then (glob_loop AllowGlob (entry_globs e) made) (fun made =>
  and_then (glob_loop AllowGlob (allow_globs e) made) (fun made =>
  glob_loop DenyGlob (deny_globs e) made))).

(** The message of an entry point. *)
Definition entry_msg (name : string) : out_event :=
  Stdout ("Function '" +:+ name +:+ "' is marked as an entry point." +:+ nl).

(** One loop over entry globs; [Some] is [goto done] with the new flags
    and the output. *)
Fixpoint entry_loop (e : cmd_env) (name : string) (flags : Z)
    (globs : list string) : option (Z * list out_event) :=
  match globs with
  | [] => None
  | glob :: globs' =>
      if negb (glob_matches glob name) then entry_loop e name flags globs'
      else Some (Z.lor flags (wrap_u32 FUNC_IS_ENTRY),
                 if verbose (env_flags e) then [entry_msg name] else [])
  end.

Fixpoint entry_presets (e : cmd_env) (name : string) (flags : Z)
    (ps : list preset) : option (Z * list out_event) :=
  match ps with
  | [] => None
  | p :: ps' =>
      match entry_loop e name flags (p_entry_globs p) with
      | Some r => Some r
      | None => entry_presets e name flags ps'
      end
  end.

(** The body of the loop over the attached functions up to the label
    [done]: the [__u32 flags] that is stored in [skel->bss->func_flags[i]]
    and the output. [btf_id] is [finfo->btf_id]. *)
Definition main_func_flags (fuel : nat) (b : btf) (e : cmd_env)
    (name : string) (btf_id : Z) : option (Z * list out_event) :=
  t ← b btf_id;
  f ← func_flags fuel b t;
  let flags := wrap_u32 f in
  match entry_loop e name flags (entry_globs e) with
  | Some r => Some r
  | None =>
      match entry_presets e name flags (env_presets e) with
      | Some r => Some r
      | None => Some (flags, [])
      end
  end.

(** ** Descriptions of the set-up *)

(** The calls in the order in which [main] means to make them. *)
Definition preset_plan (p : preset) : list att_call :=
  (AllowGlob <$> p_entry_globs p) ++ (AllowGlob <$> p_allow_globs p)
  ++ (DenyGlob <$> p_deny_globs p).

Definition glob_plan (e : cmd_env) : list att_call :=
  concat (preset_plan <$> env_presets e)
  ++ (AllowGlob <$> entry_globs e) ++ (AllowGlob <$> allow_globs e)
  ++ (DenyGlob <$> deny_globs e).

(** A list of calls made one after the other until one fails. *)
Fixpoint run_plan (todo made : list att_call) : list att_call * Z :=
  match todo with
  | [] => (made, 0)
  | c :: todo' =>
      let err := att_glob made c in
      if err =? 0 then run_plan todo' (made ++ [c]) else (made ++ [c], err)
  end.

(** Every glob that can make a function an entry point. *)
Definition all_entry_globs (e : cmd_env) : list string :=
  entry_globs e ++ concat (p_entry_globs <$> env_presets e).

Definition is_entry (e : cmd_env) (name : string) : bool :=
  existsb (fun glob => glob_matches glob name) (all_entry_globs e).

End Main.

(** * Locating the kernel image: [find_vmlinux] *)

Definition PATH_MAX : nat := 4096.

Definition locations : list string :=
  ["/boot/vmlinux-%1$s";
   "/lib/modules/%1$s/vmlinux-%1$s";
   "/lib/modules/%1$s/build/vmlinux";
   "/usr/lib/modules/%1$s/kernel/vmlinux";
   "/usr/lib/debug/boot/vmlinux-%1$s";
   "/usr/lib/debug/boot/vmlinux-%1$s.debug";
   "/usr/lib/debug/lib/modules/%1$s/vmlinux"]%string.

(** A format whose only conversion is [%1$s]. *)
Fixpoint fmt_1s (format arg : string) : string :=
  match format with
  | EmptyString => EmptyString
  | String "%" (String "1" (String "$" (String "s" rest))) =>
      arg +:+ fmt_1s rest arg
  | String ch rest => String ch (fmt_1s rest arg)
  end.

Fixpoint str_take (n : nat) (s : string) : string :=
  match n, s with
  | S n', String ch s' => String ch (str_take n' s')
  | _, _ => EmptyString
  end.

(** [snprintf(buf, size, ...)] into a buffer of [buf_len] bytes that
    holds [old]: at most [size - 1] characters and the terminator are
    written, nothing when [size] is 0; writing past the buffer is
    undefined. *)
Definition snprintf (buf_len size : nat) (old text : string)
    : option string :=
  let written := str_take (size - 1) text in
  if (size =? 0)%nat then Some old
  else if (String.length written + 1 <=? buf_len)%nat then Some written
  else None.

(** The loop of [find_vmlinux] over the rest of the table: the content
    of [path], the output and the value returned. [release] is
    [buf.release] as [uname] gives it and [access_ok p] says that
    [access(p, R_OK)] returns 0. *)
Fixpoint find_vmlinux_loop (e : env) (max_len : nat) (release : string)
    (access_ok : string -> bool) (locs : list string) (path : string)
    : option (string * list out_event * Z) :=
  match locs with
  | [] =>
      Some (path,
            [Stderr ("Failed to locate vmlinux image location. Please use -k <vmlinux-path> to specify explicitly." +:+ nl)],
            - ESRCH)
  | loc :: locs' =>
      path ← snprintf max_len PATH_MAX path (fmt_1s loc release);
      if negb (access_ok path) then
        '(p, out, ret) ← find_vmlinux_loop e max_len release access_ok locs' path;
        Some (p,
              (if debug e
               then [Stdout ("No vmlinux image at " +:+ path +:+ " found..." +:+ nl)]
               else []) ++ out,
              ret)
      else
        Some (path,
              if verbose e
              then [Stdout ("Using vmlinux image at " +:+ path +:+ "." +:+ nl)]
              else [],
              0)
  end.

(** [find_vmlinux(path, max_len)] on a buffer that holds [path]. *)
Definition find_vmlinux (e : env) (max_len : nat) (release : string)
    (access_ok : string -> bool) (path : string)
    : option (string * list out_event * Z) :=
  find_vmlinux_loop e max_len release access_ok locations path.

(** The lines that [find_vmlinux] prints. *)
Definition using_line (p : string) : out_event :=
  Stdout ("Using vmlinux image at " +:+ p +:+ "." +:+ nl).
Definition missing_line (p : string) : out_event :=
  Stdout ("No vmlinux image at " +:+ p +:+ " found..." +:+ nl).
Definition failed_line : out_event :=
  Stderr ("Failed to locate vmlinux image location. Please use -k <vmlinux-path> to specify explicitly." +:+ nl).

(** The candidates in the order of the table. *)
Definition candidates (release : string) : list string :=
  (fun loc => fmt_1s loc release) <$> locations.


(** The candidates that are tried and found unreadable. *)
Fixpoint unreadable_prefix (access_ok : string -> bool) (ps : list string)
    : list string :=
  match ps with
  | [] => []
  | p :: ps' => if access_ok p then [] else p :: unreadable_prefix access_ok ps'
  end.

(** ** Sample set-up *)

(** A stand-in for [glob_matches]: a leading [*] matches any prefix. *)
Definition sample_glob_matches (glob name : string) : bool :=
  match glob with
  | String "*" rest =>
      String.eqb rest
        (str_drop (String.length name - String.length rest) name)
  | _ => String.eqb glob name
  end.

(** An attacher that refuses its fourth call. *)
Definition sample_att_glob (made : list att_call) (c : att_call) : Z :=
  if (length made =? 3)%nat then - ENOMEM else 0.

Definition sample_cmd_env : cmd_env :=
  {| env_flags := {| verbose := true; debug := false |};
     debug_extra := false; symb_lines := true; symb_inlines := false;
     vmlinux_path := None;
     env_presets := [ {| p_name := "perf"; p_entry_globs := perf_entry_globs;
                         p_allow_globs := perf_allow_globs;
                         p_deny_globs := perf_deny_globs |} ];
     allow_globs := ["bpf_*"]%string; deny_globs := [];
     entry_globs := ["*_sys_bpf"; "__x64_*"]%string |}.

(** A machine that has the image only under [/usr/lib/debug/boot]. *)
Definition sample_access_ok (p : string) : bool :=
  String.eqb p "/usr/lib/debug/boot/vmlinux-5.10.0".

(** * Properties *)

(** ** Machine integers *)

Lemma wrap64_id (z : Z) : in_long z -> wrap64 z = z.
Proof.
  unfold in_long, wrap64. intros Hz.
  rewrite Z.mod_small by lia. lia.
Qed.

Lemma wrap64_in_long (z : Z) : in_long (wrap64 z).
Proof.
  unfold in_long, wrap64.
  pose proof (Z.mod_pos_bound (z + 2 ^ 63) (2 ^ 64) ltac:(lia)). lia.
Qed.

Lemma cast_int_id (z : Z) : - 2 ^ 31 <= z < 2 ^ 31 -> cast_int z = z.
Proof.
  unfold cast_int. intros Hz.
  rewrite Z.mod_small by lia. lia.
Qed.

Lemma cast_int_range (z : Z) : - 2 ^ 31 <= cast_int z < 2 ^ 31.
Proof.
  unfold cast_int.
  pose proof (Z.mod_pos_bound (z + 2 ^ 31) (2 ^ 32) ltac:(lia)). lia.
Qed.

(** A negative [(int) z] is the low 32 bits of [z] less [2^32]. *)
Lemma cast_int_neg (z : Z) : cast_int z < 0 -> cast_int z = z mod 2 ^ 32 - 2 ^ 32.
Proof.
  unfold cast_int. intros Hneg.
  pose proof (Z.mod_pos_bound z (2 ^ 32) ltac:(lia)) as Hm.
  pose proof (Z.div_mod z (2 ^ 32) ltac:(lia)) as Hd.
  assert (Hcase : z mod 2 ^ 32 < 2 ^ 31 \/ 2 ^ 31 <= z mod 2 ^ 32) by lia.
  destruct Hcase as [Hlo | Hhi].
  - exfalso.
    assert ((z + 2 ^ 31) mod 2 ^ 32 = z mod 2 ^ 32 + 2 ^ 31); [|lia].
    symmetry. apply (Z.mod_unique_pos _ _ (z / 2 ^ 32)); lia.
  - assert ((z + 2 ^ 31) mod 2 ^ 32 = z mod 2 ^ 32 - 2 ^ 31); [|lia].
    symmetry. apply (Z.mod_unique_pos _ _ (z / 2 ^ 32 + 1)); lia.
Qed.

(** ** The error-code decoder *)

Lemma err_names_length : length err_names = 531%nat.
Proof. reflexivity. Qed.

Lemma err_to_str_small (err : Z) :
  Z.abs err < err_names_size ->
  err_to_str err = err_names !! Z.to_nat (Z.abs err).
Proof.
  unfold err_names_size. rewrite err_names_length. intros Habs.
  unfold err_to_str. destruct (Z.ltb_spec err 0) as [Hneg | Hpos].
  - rewrite wrap64_id by (unfold in_long; lia).
    unfold cast_ulong, err_names_size. rewrite err_names_length.
    rewrite Z.mod_small by lia.
    destruct (Z.ltb_spec (- err) (Z.of_nat 531)); [|lia].
    f_equal. lia.
  - unfold cast_ulong, err_names_size. rewrite err_names_length.
    rewrite Z.mod_small by lia.
    destruct (Z.ltb_spec err (Z.of_nat 531)); [|lia].
    f_equal. lia.
Qed.

Lemma err_to_str_large (err : Z) :
  in_long err -> err_names_size <= Z.abs err -> err_to_str err = Some None.
Proof.
  unfold err_names_size. rewrite err_names_length. unfold in_long.
  intros Hr Habs.
  unfold err_to_str, err_names_size. rewrite err_names_length.
  destruct (Z.ltb_spec err 0) as [Hneg | Hpos].
  - assert (Hcase : err = - 2 ^ 63 \/ - 2 ^ 63 < err) by lia.
    destruct Hcase as [-> | Hgt].
    + reflexivity.
    + rewrite wrap64_id by (unfold in_long; lia).
      unfold cast_ulong. rewrite Z.mod_small by lia.
      destruct (Z.ltb_spec (- err) (Z.of_nat 531)); [lia | reflexivity].
  - unfold cast_ulong. rewrite Z.mod_small by lia.
    destruct (Z.ltb_spec err (Z.of_nat 531)); [lia | reflexivity].
Qed.

(** C10. [err_to_str] is total on the 64-bit signed range and never reads
    outside [err_names]: it returns the table entry at [|err|] (a name, or
    [NULL] for a hole) when [|err|] is below the table size 531, and [NULL]
    otherwise, [LONG_MIN] included; on [NULL] the presenter prints the
    signed number itself between brackets. *)
Theorem err_to_str_total (err : Z) :
  in_long err ->
  exists res : option string,
    err_to_str err = Some res
    /\ (Z.abs err < err_names_size ->
        err_names !! Z.to_nat (Z.abs err) = Some res)
    /\ (err_names_size <= Z.abs err -> res = None)
    /\ (res = None -> err <> 0 ->
        let out := "[" +:+ fmt_ld err +:+ "]" in
        print_item_result err
        = Some (out +:+ fmt_s (12 - Z.of_nat (String.length out)) "" +:+ " ")).
Proof.
  intros Hr.
  destruct (Z_lt_le_dec (Z.abs err) err_names_size) as [Hlt | Hge].
  - pose proof (err_to_str_small err Hlt) as Hs.
    destruct (lookup_lt_is_Some_2 err_names (Z.to_nat (Z.abs err))) as [res Hres].
    { rewrite err_names_length. unfold err_names_size in Hlt.
      rewrite err_names_length in Hlt. lia. }
    exists res. rewrite Hs. repeat split; auto.
    + intros. lia.
    + intros -> Hnz out. unfold print_item_result.
      destruct (Z.eqb_spec err 0); [contradiction|].
      rewrite Hs, Hres. reflexivity.
  - exists None. rewrite (err_to_str_large err Hr Hge). repeat split; auto.
    + intros. lia.
    + intros _ Hnz out. unfold print_item_result.
      destruct (Z.eqb_spec err 0); [contradiction|].
      rewrite (err_to_str_large err Hr Hge). reflexivity.
Qed.

Lemma err_to_str_total_witness :
  in_long LONG_MIN
  /\ exists res : option string,
       err_to_str LONG_MIN = Some res
       /\ (Z.abs LONG_MIN < err_names_size ->
           err_names !! Z.to_nat (Z.abs LONG_MIN) = Some res)
       /\ (err_names_size <= Z.abs LONG_MIN -> res = None)
       /\ (res = None -> LONG_MIN <> 0 ->
           let out := "[" +:+ fmt_ld LONG_MIN +:+ "]" in
           print_item_result LONG_MIN
           = Some (out +:+ fmt_s (12 - Z.of_nat (String.length out)) ""
                   +:+ " ")).
Proof.
  assert (H : in_long LONG_MIN) by (unfold in_long, LONG_MIN; lia).
  split; [exact H | exact (err_to_str_total LONG_MIN H)].
Defined.

(** The inputs that the claim singles out. *)
Example err_to_str_corner_cases :
  err_to_str LONG_MIN = Some None
  /\ err_to_str 531 = Some None /\ err_to_str (-531) = Some None
  /\ err_to_str 41 = Some None /\ err_to_str (-58) = Some None
  /\ err_to_str 134 = Some None /\ err_to_str (-511) = Some None
  /\ err_to_str 520 = Some None
  /\ err_to_str (-22) = Some (Some "EINVAL")
  /\ err_to_str 530 = Some (Some "ERECALLCONFLICT")
  /\ print_item_result (-41) = Some "[-41]        "
  /\ print_item_result (-22) = Some "[-EINVAL]    ".
Proof. repeat split; reflexivity. Qed.

(** ** Reinterpretation of the captured result *)

Section SignExtension.
Context `{HDR : retsnoop_h}.

Lemma fstack_res_ext (flags v : Z) :
  Z.land flags FUNC_NEEDS_SIGN_EXT <> 0 -> fstack_res flags v = cast_int v.
Proof.
  intros Hf. unfold fstack_res.
  destruct (Z.eqb_spec (Z.land flags FUNC_NEEDS_SIGN_EXT) 0); [contradiction | reflexivity].
Qed.

Lemma fstack_res_raw (flags v : Z) :
  Z.land flags FUNC_NEEDS_SIGN_EXT = 0 -> fstack_res flags v = v.
Proof. intros Hf. unfold fstack_res. rewrite Hf. reflexivity. Qed.

(** C7, amended. For a captured 64-bit value whose low 32 bits encode a
    negative [int]: with [FUNC_NEEDS_SIGN_EXT] the stored result is
    negative and is the sign-extension of the low 32 bits; without it the
    stored result is the captured value itself, and the decoder has no
    name for it unless that 64-bit value lies in [-530..-1]; in
    particular a zero-extended capture is never given a name. *)
Theorem sign_extension_reinterpretation (flags_ext flags_raw v : Z) :
  in_long v ->
  cast_int v < 0 ->
  Z.land flags_ext FUNC_NEEDS_SIGN_EXT <> 0 ->
  Z.land flags_raw FUNC_NEEDS_SIGN_EXT = 0 ->
  fstack_res flags_ext v < 0
  /\ fstack_res flags_ext v = v mod 2 ^ 32 - 2 ^ 32
  /\ fstack_res flags_raw v = v
  /\ (~ (-530 <= v <= -1) -> err_to_str (fstack_res flags_raw v) = Some None)
  /\ (0 <= v -> err_to_str (fstack_res flags_raw v) = Some None).
Proof.
  intros Hr Hneg Hext Hraw.
  rewrite (fstack_res_ext _ _ Hext), (fstack_res_raw _ _ Hraw).
  pose proof (cast_int_neg v Hneg) as Hlow.
  assert (Hfar : ~ (-530 <= v <= -1) -> err_to_str v = Some None).
  { intros Hout. apply err_to_str_large; [exact Hr|].
    unfold err_names_size. rewrite err_names_length.
    destruct (Z_lt_le_dec v 0) as [Hn | Hp]; [lia|].
    assert (2 ^ 31 <= v); [|lia].
    pose proof (Z.mod_pos_bound v (2 ^ 32) ltac:(lia)).
    pose proof (Z.mod_le v (2 ^ 32) Hp ltac:(lia)).
    pose proof (cast_int_range v). lia. }
  repeat split; auto; try lia.
  intros Hp. apply Hfar. lia.
Qed.

End SignExtension.

Lemma sign_extension_reinterpretation_witness :
  in_long 0xffffffea /\ cast_int 0xffffffea < 0
  /\ Z.land 0x4 (@FUNC_NEEDS_SIGN_EXT sample_h) <> 0
  /\ Z.land 0x2 (@FUNC_NEEDS_SIGN_EXT sample_h) = 0
  /\ @fstack_res sample_h 0x4 0xffffffea = -22
  /\ err_to_str (@fstack_res sample_h 0x2 0xffffffea) = Some None.
Proof.
  assert (H1 : in_long 0xffffffea) by (unfold in_long; lia).
  assert (H2 : cast_int 0xffffffea < 0) by (vm_compute; reflexivity).
  assert (H3 : Z.land 0x4 (@FUNC_NEEDS_SIGN_EXT sample_h) <> 0)
    by (vm_compute; discriminate).
  assert (H4 : Z.land 0x2 (@FUNC_NEEDS_SIGN_EXT sample_h) = 0) by reflexivity.
  destruct (@sign_extension_reinterpretation sample_h 0x4 0x2 0xffffffea
              H1 H2 H3 H4) as (_ & Hext & _ & _ & Hzero).
  split; [exact H1|]. split; [exact H2|]. split; [exact H3|].
  split; [exact H4|]. split.
  - rewrite Hext. reflexivity.
  - apply Hzero. lia.
Defined.

(** C7 as stated fails: the captured value [-22] (all upper bits set) has a
    negative low half, is stored unchanged for a function classified
    "cannot fail", and the decoder names it. *)
Lemma sign_extension_unnamed_counterexample :
  in_long (-22) /\ cast_int (-22) < 0
  /\ @fstack_res sample_h (@FUNC_CANT_FAIL sample_h) (-22) = -22
  /\ err_to_str (@fstack_res sample_h (@FUNC_CANT_FAIL sample_h) (-22))
     = Some (Some "EINVAL")
  /\ ~ (forall v, in_long v -> cast_int v < 0 ->
        err_to_str (@fstack_res sample_h (@FUNC_CANT_FAIL sample_h) v)
        = Some None).
Proof.
  split; [unfold in_long; lia|].
  split; [vm_compute; reflexivity|].
  split; [reflexivity|].
  split; [reflexivity|].
  intros Hall.
  specialize (Hall (-22) ltac:(unfold in_long; lia) ltac:(vm_compute; reflexivity)).
  discriminate Hall.
Qed.

(** ** The source-location normaliser *)

Lemma str_drop_0 (s : string) : str_drop 0 s = s.
Proof. destruct s; reflexivity. Qed.

Lemma occurs_at_0 (d path : string) :
  occurs_at d path 0 <-> String.prefix d path = true.
Proof.
  unfold occurs_at. rewrite str_drop_0. split; [tauto|].
  intros Hp. split; [lia | exact Hp].
Qed.

Lemma occurs_at_S (d path : string) (ch : ascii) (o : nat) :
  occurs_at d (String ch path) (S o) <-> occurs_at d path o.
Proof. unfold occurs_at. simpl. split; intros [Hl Hp]; (split; [lia | exact Hp]). Qed.

Lemma occurs_at_empty (d : string) (o : nat) :
  occurs_at d EmptyString o -> String.prefix d EmptyString = true.
Proof.
  unfold occurs_at. simpl. intros [Hl Hp].
  assert (o = 0%nat) as -> by lia. exact Hp.
Qed.

(** [strstr] finds the first occurrence, and fails only when there is
    none. *)
Lemma strstr_spec (needle hay : string) :
  match strstr hay needle with
  | Some off =>
      occurs_at needle hay off
      /\ forall o, (o < off)%nat -> ~ occurs_at needle hay o
  | None => forall o, ~ occurs_at needle hay o
  end.
Proof.
  induction hay as [|ch hay IH]; cbn [strstr].
  - destruct (String.prefix needle EmptyString) eqn:Hp.
    + split; [apply occurs_at_0; exact Hp | intros; lia].
    + intros o Ho. apply occurs_at_empty in Ho. congruence.
  - destruct (String.prefix needle (String ch hay)) eqn:Hp.
    + split; [apply occurs_at_0; exact Hp | intros; lia].
    + destruct (strstr hay needle) as [off|]; simpl.
      * destruct IH as [Hocc Hmin]. split.
        -- apply occurs_at_S. exact Hocc.
        -- intros [|o] Ho Hat.
           ++ apply occurs_at_0 in Hat. congruence.
           ++ apply occurs_at_S in Hat. apply (Hmin o); [lia | exact Hat].
      * intros [|o] Hat.
        -- apply occurs_at_0 in Hat. congruence.
        -- apply occurs_at_S in Hat. exact (IH o Hat).
Qed.

(** C9, amended. [detect_linux_src_loc] returns the offset of the first
    occurrence of the first name of [linux_dirs], in the order of the
    table, that occurs in the path, and 0 when no name occurs. *)
Theorem detect_linux_src_loc_table_order (path : string) :
  Z.of_nat (String.length path) < 2 ^ 31 ->
  (Forall (fun d => forall o, ~ occurs_at d path o) linux_dirs
   /\ detect_linux_src_loc path = 0)
  \/ (exists pre d post off,
        linux_dirs = pre ++ d :: post
        /\ Forall (fun d' => forall o, ~ occurs_at d' path o) pre
        /\ occurs_at d path off
        /\ (forall o, (o < off)%nat -> ~ occurs_at d path o)
        /\ detect_linux_src_loc path = Z.of_nat off).
Proof.
  intros Hlen. unfold detect_linux_src_loc.
  induction linux_dirs as [|d dirs IH]; simpl.
  - left. split; [constructor | reflexivity].
  - pose proof (strstr_spec d path) as Hs.
    destruct (strstr path d) as [off|].
    + right. exists [], d, dirs, off. destruct Hs as [Hocc Hmin].
      split; [reflexivity|]. split; [constructor|].
      split; [exact Hocc|]. split; [exact Hmin|].
      apply cast_int_id. destruct Hocc as [Hle _]. lia.
    + destruct IH as [[Hall Hz] | (pre & d' & post & off & -> & Hpre & Hocc & Hmin & Hd)].
      * left. split; [constructor; assumption | exact Hz].
      * right. exists (d :: pre), d', post, off.
        split; [reflexivity|]. split; [constructor; assumption|].
        split; [exact Hocc|]. split; [exact Hmin | exact Hd].
Qed.

Lemma detect_linux_src_loc_table_order_witness :
  let path := "/usr/src/linux/kernel/fork.c" in
  Z.of_nat (String.length path) < 2 ^ 31
  /\ ((Forall (fun d => forall o, ~ occurs_at d path o) linux_dirs
       /\ detect_linux_src_loc path = 0)
      \/ (exists pre d post off,
            linux_dirs = pre ++ d :: post
            /\ Forall (fun d' => forall o, ~ occurs_at d' path o) pre
            /\ occurs_at d path off
            /\ (forall o, (o < off)%nat -> ~ occurs_at d path o)
            /\ detect_linux_src_loc path = Z.of_nat off)).
Proof.
  intros path.
  assert (H : Z.of_nat (String.length path) < 2 ^ 31)
    by (vm_compute; reflexivity).
  split; [exact H | exact (detect_linux_src_loc_table_order path H)].
Defined.

(** On that path the table order makes the difference: ["usr/"] occurs
    first in the path, ["kernel/"] first in the table. *)
Example detect_linux_src_loc_usr_src :
  detect_linux_src_loc "/usr/src/linux/kernel/fork.c" = 15
  /\ str_drop 15 "/usr/src/linux/kernel/fork.c" = "kernel/fork.c"
  /\ detect_linux_src_loc "/home/me/build/none.c" = 0.
Proof. repeat split; reflexivity. Qed.

(** C9 as stated fails: in ["/linux/drivers/net/e.c"] the first occurrence
    of any directory name is ["drivers/"] at offset 7, but the table lists
    ["net/"] before ["drivers/"] and the code returns 15. *)
Lemma detect_linux_src_loc_counterexample :
  detect_linux_src_loc "/linux/drivers/net/e.c" = 15
  /\ src_loc_as_specified "/linux/drivers/net/e.c" = 7
  /\ str_drop 15 "/linux/drivers/net/e.c" = "net/e.c"
  /\ detect_linux_src_loc "/linux/drivers/net/e.c"
     <> src_loc_as_specified "/linux/drivers/net/e.c".
Proof. repeat split; try reflexivity. vm_compute. discriminate. Qed.

(** ** The return-type classifier *)

Lemma skip_mods_unwraps (b : btf) (k : nat) (t u : btf_type) :
  unwraps b k t u ->
  forall fuel, (k <= fuel)%nat -> skip_mods b fuel t = Some u.
Proof.
  induction 1 as [t Hstop | k t t' u Hmod Hnext Hrest IH]; intros fuel Hfuel.
  - destruct fuel; simpl; rewrite Hstop; reflexivity.
  - destruct fuel as [|fuel]; [lia|].
    simpl. rewrite Hmod, Hnext. simpl. apply IH. lia.
Qed.

Section Classifier.
Context `{HDR : retsnoop_h}.

(** C6. [func_flags] on a function [f] whose prototype is [proto]: no
    return type gives [FUNC_CANT_FAIL]; otherwise, with [u] the type
    under the modifiers and typedefs of the return type, a pointer gives
    [FUNC_RET_PTR], an unsigned integer [FUNC_CANT_FAIL], a type of size
    below 4 [FUNC_CANT_FAIL], a signed integer of size 4
    [FUNC_NEEDS_SIGN_EXT], and any other signed integer no flag. *)
Theorem func_flags_classification (b : btf) (fuel : nat)
    (f proto : btf_type) :
  b (btf_size_type f) = Some proto ->
  (btf_size_type proto = 0 -> func_flags fuel b f = Some FUNC_CANT_FAIL)
  /\ (forall rt k u,
        btf_size_type proto <> 0 ->
        b (btf_size_type proto) = Some rt ->
        unwraps b k rt u -> (k <= fuel)%nat ->
        (btf_is_ptr u = true -> func_flags fuel b f = Some FUNC_RET_PTR)
        /\ (btf_is_int u = true ->
            Z.land (btf_int_encoding u) BTF_INT_SIGNED = 0 ->
            func_flags fuel b f = Some FUNC_CANT_FAIL)
        /\ (btf_is_ptr u = false -> btf_size_type u < 4 ->
            func_flags fuel b f = Some FUNC_CANT_FAIL)
        /\ (btf_is_int u = true ->
            Z.land (btf_int_encoding u) BTF_INT_SIGNED <> 0 ->
            btf_size_type u = 4 ->
            func_flags fuel b f = Some FUNC_NEEDS_SIGN_EXT)
        /\ (btf_is_int u = true ->
            Z.land (btf_int_encoding u) BTF_INT_SIGNED <> 0 ->
            4 < btf_size_type u ->
            func_flags fuel b f = Some 0)).
Proof.
  intros Hproto. split.
  - intros Hvoid. unfold func_flags. rewrite Hproto. simpl.
    rewrite Hvoid. reflexivity.
  - intros rt k u Hret Hrt Hun Hfuel.
    assert (Hff : func_flags fuel b f = Some (classify u)).
    { unfold func_flags. rewrite Hproto. simpl.
      destruct (Z.eqb_spec (btf_size_type proto) 0); [contradiction|].
      rewrite Hrt. simpl.
      rewrite (skip_mods_unwraps b k rt u Hun fuel Hfuel). reflexivity. }
    rewrite Hff. unfold classify.
    assert (Hint : btf_is_int u = true -> btf_is_ptr u = false).
    { unfold btf_is_int, btf_is_ptr. destruct (btf_kind_of u); congruence. }
    repeat split.
    + intros ->. reflexivity.
    + intros Hi Hu. rewrite (Hint Hi), Hi, Hu. reflexivity.
    + intros Hp Hsz. rewrite Hp.
      destruct (btf_is_int u && _); [reflexivity|].
      destruct (Z.ltb_spec (btf_size_type u) 4); [reflexivity | lia].
    + intros Hi Hs Hsz. rewrite (Hint Hi), Hi, Hsz.
      destruct (Z.eqb_spec (Z.land (btf_int_encoding u) BTF_INT_SIGNED) 0);
        [contradiction | reflexivity].
    + intros Hi Hs Hsz. rewrite (Hint Hi), Hi.
      destruct (Z.eqb_spec (Z.land (btf_int_encoding u) BTF_INT_SIGNED) 0);
        [contradiction|]. simpl.
      destruct (Z.ltb_spec (btf_size_type u) 4); [lia|].
      destruct (Z.eqb_spec (btf_size_type u) 4); [lia | reflexivity].
Qed.

End Classifier.

Lemma func_flags_classification_witness :
  sample_btf (btf_size_type sample_func) = Some sample_proto
  /\ @func_flags sample_h 2 sample_btf sample_func
     = Some (@FUNC_NEEDS_SIGN_EXT sample_h).
Proof.
  assert (H : sample_btf (btf_size_type sample_func) = Some sample_proto)
    by reflexivity.
  split; [exact H|].
  destruct (@func_flags_classification sample_h sample_btf 2
              sample_func sample_proto H) as [_ Hret].
  assert (Hun : unwraps sample_btf 2 sample_typedef sample_int).
  { apply (unwraps_next _ 1 sample_typedef sample_const); [reflexivity..|].
    apply (unwraps_next _ 0 sample_const sample_int); [reflexivity..|].
    apply unwraps_here. reflexivity. }
  destruct (Hret sample_typedef 2%nat sample_int
              ltac:(discriminate) eq_refl Hun (le_n 2))
    as (_ & _ & _ & Hint & _).
  apply Hint; [reflexivity | discriminate | reflexivity].
Defined.

(** ** The logical call-stack reconstructor *)

Lemma arr_get_lookup {A : Type} (a : list A) (i : Z) :
  0 <= i -> arr_get a i = a !! Z.to_nat i.
Proof.
  intros Hi. unfold arr_get.
  destruct (Z.ltb_spec i 0); [lia | reflexivity].
Qed.

Lemma arr_get_is_Some {A : Type} (a : list A) (i : Z) :
  0 <= i < Z.of_nat (length a) -> is_Some (arr_get a i).
Proof.
  intros Hi. rewrite arr_get_lookup by lia.
  apply lookup_lt_is_Some_2. lia.
Qed.

Lemma arr_set_ok {A : Type} (a : list A) (i : nat) (x : A) :
  (i < length a)%nat -> arr_set a i x = Some (<[i := x]> a).
Proof.
  intros Hi. unfold arr_set.
  destruct (Nat.ltb_spec i (length a)); [reflexivity | lia].
Qed.

Lemma arr_set_inv {A : Type} (a a' : list A) (i : nat) (x : A) :
  arr_set a i x = Some a' -> (i < length a)%nat /\ a' = <[i := x]> a.
Proof.
  unfold arr_set. destruct (Nat.ltb_spec i (length a)); [|discriminate].
  intros [= <-]. split; [assumption | reflexivity].
Qed.

Section Reconstructor.
Context `{HDR : retsnoop_h}.

Lemma fstack_primary_spec (c : ctx) (s : call_stack) (k : nat) :
  forall (i : Z) (cnt : nat) (r : list fstack_item),
    0 <= i ->
    i + Z.of_nat k <= Z.of_nat (length (func_ids s)) ->
    i + Z.of_nat k <= Z.of_nat (length (func_res s)) ->
    i + Z.of_nat k <= Z.of_nat (length (func_lat s)) ->
    (cnt + k <= length r)%nat ->
    exists r',
      fstack_primary c s k i cnt r = Some (r', (cnt + k)%nat)
      /\ length r' = length r
      /\ (forall j, (j < cnt \/ cnt + k <= j)%nat -> r' !! j = r !! j)
      /\ (forall m, (m < k)%nat ->
          exists id v l old,
            func_ids s !! Z.to_nat (i + Z.of_nat m) = Some id
            /\ func_res s !! Z.to_nat (i + Z.of_nat m) = Some v
            /\ func_lat s !! Z.to_nat (i + Z.of_nat m) = Some l
            /\ r !! (cnt + m)%nat = Some old
            /\ r' !! (cnt + m)%nat
               = Some (primary_item c s (i + Z.of_nat m) id v l old)).
Proof.
  induction k as [|k IH]; intros i cnt r Hi Hids Hres Hlat Hr.
  - exists r. simpl. rewrite Nat.add_0_r.
    repeat split; auto. intros m Hm. lia.
  - destruct (arr_get_is_Some (func_ids s) i ltac:(lia)) as [id Hid].
    destruct (arr_get_is_Some (func_res s) i ltac:(lia)) as [v Hv].
    destruct (arr_get_is_Some (func_lat s) i ltac:(lia)) as [l Hl].
    destruct (lookup_lt_is_Some_2 r cnt ltac:(lia)) as [old Hold].
    set (item := primary_item c s i id v l old).
    assert (Hstep : fstack_primary c s (S k) i cnt r
                    = fstack_primary c s k (i + 1) (S cnt) (<[cnt := item]> r)).
    { simpl. rewrite Hid. simpl. rewrite Hold. simpl.
      rewrite Hl, Hv.
      destruct (Z.leb_spec (depth s) i) as [Hd | Hd]; simpl.
      - rewrite arr_set_ok by lia. simpl. subst item. unfold primary_item.
        destruct (Z.leb_spec (depth s) i); [|lia]. reflexivity.
      - rewrite arr_set_ok by lia. simpl. subst item. unfold primary_item.
        destruct (Z.leb_spec (depth s) i); [lia|]. reflexivity. }
    destruct (IH (i + 1) (S cnt) (<[cnt := item]> r))
      as (r' & Hrun & Hlen & Hout & Hin);
      try lia; try (rewrite length_insert; lia).
    exists r'. rewrite Hstep, Hrun.
    rewrite length_insert in Hlen.
    split; [f_equal; f_equal; lia|].
    split; [exact Hlen|].
    split.
    + intros j Hj. rewrite Hout by lia.
      apply list_lookup_insert_ne. lia.
    + intros [|m] Hm.
      * exists id, v, l, old.
        rewrite Z.add_0_r, Nat.add_0_r.
        rewrite <- !arr_get_lookup by lia.
        repeat split; auto.
        rewrite Hout by lia. apply list_lookup_insert_eq. lia.
      * destruct (Hin m ltac:(lia)) as (id' & v' & l' & old' & H1 & H2 & H3 & H4 & H5).
        exists id', v', l', old'.
        replace (i + Z.of_nat (S m)) with (i + 1 + Z.of_nat m) by lia.
        replace (cnt + S m)%nat with (S cnt + m)%nat by lia.
        repeat split; auto.
        rewrite list_lookup_insert_ne in H4 by lia. exact H4.
Qed.

Lemma fstack_saved_spec (c : ctx) (s : call_stack) (k : nat) :
  forall (i : Z) (cnt : nat) (r : list fstack_item),
    0 <= i ->
    i + Z.of_nat k <= Z.of_nat (length (saved_ids s)) ->
    i + Z.of_nat k <= Z.of_nat (length (saved_res s)) ->
    i + Z.of_nat k <= Z.of_nat (length (saved_lat s)) ->
    (cnt + k <= length r)%nat ->
    exists r',
      fstack_saved c s k i cnt r = Some (r', (cnt + k)%nat)
      /\ length r' = length r
      /\ (forall j, (j < cnt \/ cnt + k <= j)%nat -> r' !! j = r !! j)
      /\ (forall m, (m < k)%nat ->
          exists id v l,
            saved_ids s !! Z.to_nat (i + Z.of_nat m) = Some id
            /\ saved_res s !! Z.to_nat (i + Z.of_nat m) = Some v
            /\ saved_lat s !! Z.to_nat (i + Z.of_nat m) = Some l
            /\ r' !! (cnt + m)%nat = Some (saved_item c id v l)).
Proof.
  induction k as [|k IH]; intros i cnt r Hi Hids Hres Hlat Hr.
  - exists r. simpl. rewrite Nat.add_0_r.
    repeat split; auto. intros m Hm. lia.
  - destruct (arr_get_is_Some (saved_ids s) i ltac:(lia)) as [id Hid].
    destruct (arr_get_is_Some (saved_res s) i ltac:(lia)) as [v Hv].
    destruct (arr_get_is_Some (saved_lat s) i ltac:(lia)) as [l Hl].
    destruct (lookup_lt_is_Some_2 r cnt ltac:(lia)) as [old Hold].
    set (item := saved_item c id v l).
    assert (Hstep : fstack_saved c s (S k) i cnt r
                    = fstack_saved c s k (i + 1) (S cnt) (<[cnt := item]> r)).
    { simpl. rewrite Hid. simpl. rewrite Hold. simpl.
      rewrite Hl. simpl. rewrite Hv. simpl.
      rewrite arr_set_ok by lia. reflexivity. }
    destruct (IH (i + 1) (S cnt) (<[cnt := item]> r))
      as (r' & Hrun & Hlen & Hout & Hin);
      try lia; try (rewrite length_insert; lia).
    exists r'. rewrite Hstep, Hrun.
    rewrite length_insert in Hlen.
    split; [f_equal; f_equal; lia|].
    split; [exact Hlen|].
    split.
    + intros j Hj. rewrite Hout by lia.
      apply list_lookup_insert_ne. lia.
    + intros [|m] Hm.
      * exists id, v, l.
        rewrite Z.add_0_r, Nat.add_0_r.
        rewrite <- !arr_get_lookup by lia.
        repeat split; auto.
        rewrite Hout by lia. apply list_lookup_insert_eq. lia.
      * destruct (Hin m ltac:(lia)) as (id' & v' & l' & H1 & H2 & H3 & H5).
        exists id', v', l'.
        replace (i + Z.of_nat (S m)) with (i + 1 + Z.of_nat m) by lia.
        replace (cnt + S m)%nat with (S cnt + m)%nat by lia.
        repeat split; auto.
Qed.

End Reconstructor.

Section ReconstructorClaims.
Context `{HDR : retsnoop_h}.

Lemma wrap_u32_id (z : Z) : 0 <= z < 2 ^ 32 -> wrap_u32 z = z.
Proof. intros Hz. unfold wrap_u32. apply Z.mod_small. lia. Qed.

(** The first loop reads the primary segment only. *)
Lemma fstack_primary_ext (c : ctx) (s s' : call_stack) (k : nat) :
  same_primary s s' ->
  forall i cnt r, fstack_primary c s' k i cnt r = fstack_primary c s k i cnt r.
Proof.
  intros (Hids & Hres & Hlat & Hd & _).
  induction k as [|k IH]; intros i cnt r; simpl; [reflexivity|].
  rewrite Hids, Hres, Hlat, Hd.
  destruct (arr_get (func_ids s) i); simpl; [|reflexivity].
  destruct (r !! cnt); simpl; [|reflexivity].
  destruct (if depth s <=? i then _ else _); simpl; [|reflexivity].
  destruct (arr_get (func_res s) i); simpl; [|reflexivity].
  destruct (arr_get (func_lat s) i); simpl; [|reflexivity].
  destruct (arr_set r cnt _); simpl; [|reflexivity].
  apply IH.
Qed.

(** A loop that returns has stayed inside the buffer. *)
Lemma fstack_primary_bound (c : ctx) (s : call_stack) (k : nat) :
  forall i cnt r r' n,
    fstack_primary c s k i cnt r = Some (r', n) ->
    (cnt <= length r -> cnt + k <= length r)%nat
    /\ n = (cnt + k)%nat /\ length r' = length r.
Proof.
  induction k as [|k IH]; intros i cnt r r' n; simpl.
  - intros [= <- <-]. split; [|split]; auto. lia.
  - intros H.
    destruct (arr_get (func_ids s) i); simpl in H; [|discriminate].
    destruct (r !! cnt); simpl in H; [|discriminate].
    destruct (if depth s <=? i then _ else _); simpl in H; [|discriminate].
    destruct (arr_get (func_res s) i); simpl in H; [|discriminate].
    destruct (arr_get (func_lat s) i); simpl in H; [|discriminate].
    destruct (arr_set r cnt _) as [r1|] eqn:Hset; simpl in H; [|discriminate].
    apply arr_set_inv in Hset. destruct Hset as [Hlt ->].
    apply IH in H. rewrite length_insert in H.
    destruct H as (Hb & -> & Hl). split; [|split]; [lia | lia | exact Hl].
Qed.

Lemma fstack_saved_bound (c : ctx) (s : call_stack) (k : nat) :
  forall i cnt r r' n,
    fstack_saved c s k i cnt r = Some (r', n) ->
    n = (cnt + k)%nat /\ length r' = length r.
Proof.
  induction k as [|k IH]; intros i cnt r r' n; simpl.
  - intros [= <- <-]. split; auto.
  - intros H.
    destruct (arr_get (saved_ids s) i); simpl in H; [|discriminate].
    destruct (r !! cnt); simpl in H; [|discriminate].
    destruct (arr_get (saved_lat s) i); simpl in H; [|discriminate].
    destruct (arr_get (saved_res s) i); simpl in H; [|discriminate].
    destruct (arr_set r cnt _) as [r1|] eqn:Hset; simpl in H; [|discriminate].
    apply arr_set_inv in Hset. destruct Hset as [Hlt ->].
    apply IH in H. rewrite length_insert in H.
    destruct H as (-> & Hl). split; [lia | exact Hl].
Qed.

(** [filter_fstack] has no failure return: its count is never negative. *)
Lemma filter_fstack_nonneg (c : ctx) (r r' : list fstack_item)
    (s : call_stack) (cnt : Z) :
  filter_fstack c r s = Some (r', cnt) -> 0 <= cnt /\ length r' = length r.
Proof.
  unfold filter_fstack. intros H.
  destruct (fstack_primary c s _ 0 0 r) as [[r1 n1]|] eqn:H1; simpl in H;
    [|discriminate].
  apply fstack_primary_bound in H1. destruct H1 as (_ & _ & Hl1).
  destruct (negb _).
  - injection H as <- <-. split; [lia | exact Hl1].
  - destruct (fstack_saved c s _ _ n1 r1) as [[r2 n2]|] eqn:H2; simpl in H;
      [|discriminate].
    apply fstack_saved_bound in H2. destruct H2 as (_ & Hl2).
    injection H as <- <-. split; [lia | congruence].
Qed.

(** C1, amended. For a record whose accesses stay inside the arrays:
    without the trigger [max_depth + 1 == saved_depth] the logical stack has
    exactly [max_depth] items, none of them stitched, and it is the same for
    every record with the same primary segment (the saved fields are not
    read); with the trigger it has
    [max_depth + max 0 (saved_max_depth - saved_depth + 1)] items and every
    item from index [max_depth] on is stitched and finished. *)
Theorem filter_fstack_length (c : ctx) (r : list fstack_item) (s : call_stack) :
  fstack_fits r s ->
  exists r' cnt,
    filter_fstack c r s = Some (r', cnt)
    /\ length r' = length r
    /\ (max_depth s + 1 <> saved_depth s ->
        cnt = max_depth s
        /\ (forall j f, r' !! j = Some f -> Z.of_nat j < cnt ->
            stitched f = false)
        /\ (forall s', same_primary s s' ->
            max_depth s' + 1 <> saved_depth s' ->
            filter_fstack c r s' = Some (r', cnt)))
    /\ (max_depth s + 1 = saved_depth s ->
        cnt = max_depth s + Z.max 0 (saved_max_depth s - saved_depth s + 1)
        /\ (forall j f, r' !! j = Some f ->
            max_depth s <= Z.of_nat j < cnt ->
            stitched f = true /\ finished f = true)).
Proof.
  intros (Hmd & Hsmd & Hids & Hres & Hlat & Hr & Hst).
  destruct (fstack_primary_spec c s (Z.to_nat (max_depth s)) 0 0%nat r)
    as (r1 & Hrun & Hlen1 & Hout1 & Hin1); try lia.
  simpl in Hrun.
  assert (Hwrap : wrap_u32 (max_depth s + 1) = max_depth s + 1)
    by (apply wrap_u32_id; lia).
  unfold filter_fstack. rewrite Hrun. simpl. rewrite Hwrap.
  destruct (Z.eqb_spec (max_depth s + 1) (saved_depth s)) as [Heq | Hne]; simpl.
  - (* stitched *)
    assert (Hi0 : cast_int (saved_depth s - 1) = max_depth s).
    { rewrite cast_int_id; lia. }
    rewrite Hi0. rewrite (wrap_u32_id (max_depth s)) by lia.
    assert (Hstit : stitches s = true).
    { unfold stitches. rewrite Hwrap. apply Z.eqb_eq. exact Heq. }
    destruct (Hst Hstit) as (Hsi & Hsr & Hsl & Hsb).
    destruct (Z_le_gt_dec (saved_max_depth s) (max_depth s)) as [Hle | Hgt].
    + replace (Z.to_nat (saved_max_depth s - max_depth s)) with 0%nat by lia.
      simpl. exists r1, (Z.of_nat (Z.to_nat (max_depth s))).
      split; [reflexivity|]. split; [exact Hlen1|]. split; [intros; lia|].
      intros _. split; [lia|]. intros j f _ Hj. lia.
    + destruct (fstack_saved_spec c s
                  (Z.to_nat (saved_max_depth s - max_depth s))
                  (max_depth s) (Z.to_nat (max_depth s)) r1)
        as (r2 & Hrun2 & Hlen2 & Hout2 & Hin2); try lia.
      rewrite Hrun2. simpl.
      exists r2, (Z.of_nat (Z.to_nat (max_depth s)
                            + Z.to_nat (saved_max_depth s - max_depth s))).
      split; [reflexivity|]. split; [congruence|]. split; [intros; lia|].
      intros _. split; [lia|]. intros j f Hf Hj.
      destruct (Hin2 (j - Z.to_nat (max_depth s))%nat ltac:(lia))
        as (id & v & l & _ & _ & _ & Hitem).
      replace (Z.to_nat (max_depth s) + (j - Z.to_nat (max_depth s)))%nat
        with j in Hitem by lia.
      rewrite Hf in Hitem. injection Hitem as ->. split; reflexivity.
  - (* not stitched *)
    exists r1, (Z.of_nat (Z.to_nat (max_depth s))).
    split; [reflexivity|]. split; [exact Hlen1|]. split; [|intros; lia].
    intros _. split; [lia|]. split.
    + intros j f Hf Hj.
      destruct (Hin1 j ltac:(lia)) as (id & v & l & old & _ & _ & _ & _ & Hitem).
      simpl in Hitem. rewrite Hf in Hitem. injection Hitem as ->. reflexivity.
    + intros s' Hsame Hne'.
      pose proof Hsame as (_ & _ & _ & _ & Hmd').
      unfold filter_fstack.
      rewrite (fstack_primary_ext c s s' _ Hsame), Hmd', Hrun. simpl.
      rewrite Hwrap. rewrite <- Hmd'.
      destruct (Z.eqb_spec (max_depth s' + 1) (saved_depth s')); [contradiction|].
      simpl. rewrite Hmd'. reflexivity.
Qed.

End ReconstructorClaims.

Lemma filter_fstack_length_witness :
  let s := sample_record [0; 1; 1; 0] [-22; 0; 0xfffffff4; 0]
             [5000; 7000; 9000; 11000] 0 2 3 4 [] in
  let r := replicate 8 fstack_zero in
  fstack_fits r s
  /\ exists r', @filter_fstack sample_h sample_ctx r s = Some (r', 4)
       /\ length r' = 8%nat.
Proof.
  intros s r.
  assert (Hfit : fstack_fits r s).
  { unfold fstack_fits. simpl. repeat split; try lia. }
  split; [exact Hfit|].
  destruct (@filter_fstack_length sample_h sample_ctx r s Hfit)
    as (r' & cnt & Hrun & Hlen & _ & Hst).
  destruct (Hst eq_refl) as [Hcnt _].
  exists r'. rewrite Hrun, Hcnt. split; [reflexivity | exact Hlen].
Defined.

(** C1 as stated fails: with [max_depth = 2], [saved_depth = 3] and
    [saved_max_depth = 1] the trigger holds, the second loop does not run
    and the stack has 2 items, not [2 + (1 - 3 + 1) = 1]. *)
Lemma filter_fstack_length_counterexample :
  let s := sample_record [0; 1] [-22; 0] [5000; 7000] 0 2 3 1 [] in
  let r := replicate 4 fstack_zero in
  max_depth s + 1 = saved_depth s
  /\ (exists r', @filter_fstack sample_h sample_ctx r s = Some (r', 2))
  /\ 2 <> max_depth s + (saved_max_depth s - saved_depth s + 1).
Proof.
  intros s r. split; [reflexivity|]. split.
  - eexists. reflexivity.
  - vm_compute. discriminate.
Qed.

Lemma arr_get_Some_inv {A : Type} (a : list A) (i : Z) (x : A) :
  arr_get a i = Some x -> 0 <= i < Z.of_nat (length a).
Proof.
  unfold arr_get. destruct (Z.ltb_spec i 0); [discriminate|].
  intros Hl. apply lookup_lt_Some in Hl. lia.
Qed.

Section ReconstructorItems.
Context `{HDR : retsnoop_h}.

(** A first loop that returns has stayed inside the record's arrays. *)
Lemma fstack_primary_inbounds (c : ctx) (s : call_stack) (k : nat) :
  forall i cnt r r' n,
    fstack_primary c s k i cnt r = Some (r', n) ->
    k = 0%nat
    \/ (0 <= i
        /\ i + Z.of_nat k <= Z.of_nat (length (func_ids s))
        /\ i + Z.of_nat k <= Z.of_nat (length (func_res s))
        /\ i + Z.of_nat k <= Z.of_nat (length (func_lat s))
        /\ (cnt + k <= length r)%nat).
Proof.
  induction k as [|k IH]; intros i cnt r r' n; simpl; [left; reflexivity|].
  intros H. right.
  destruct (arr_get (func_ids s) i) eqn:Hid; simpl in H; [|discriminate].
  destruct (r !! cnt); simpl in H; [|discriminate].
  destruct (if depth s <=? i then _ else _); simpl in H; [|discriminate].
  destruct (arr_get (func_res s) i) eqn:Hv; simpl in H; [|discriminate].
  destruct (arr_get (func_lat s) i) eqn:Hl; simpl in H; [|discriminate].
  destruct (arr_set r cnt _) as [r1|] eqn:Hset; simpl in H; [|discriminate].
  apply arr_set_inv in Hset. destruct Hset as [Hlt ->].
  apply arr_get_Some_inv in Hid, Hv, Hl.
  apply IH in H. rewrite length_insert in H.
  destruct H as [-> | H]; lia.
Qed.

(** The second loop leaves the items below its first position alone. *)
Lemma fstack_saved_below (c : ctx) (s : call_stack) (k : nat) :
  forall i cnt r r' n,
    fstack_saved c s k i cnt r = Some (r', n) ->
    forall j, (j < cnt)%nat -> r' !! j = r !! j.
Proof.
  induction k as [|k IH]; intros i cnt r r' n; simpl.
  - intros [= <- <-]. reflexivity.
  - intros H j Hj.
    destruct (arr_get (saved_ids s) i); simpl in H; [|discriminate].
    destruct (r !! cnt); simpl in H; [|discriminate].
    destruct (arr_get (saved_lat s) i); simpl in H; [|discriminate].
    destruct (arr_get (saved_res s) i); simpl in H; [|discriminate].
    destruct (arr_set r cnt _) as [r1|] eqn:Hset; simpl in H; [|discriminate].
    apply arr_set_inv in Hset. destruct Hset as [Hlt ->].
    rewrite (IH _ _ _ _ _ H j) by lia.
    apply list_lookup_insert_ne. lia.
Qed.

(** What [filter_fstack] leaves in the items of the primary segment, in
    particular in [finished]: [true] from position [depth] on, and below
    [depth] whatever the buffer held before the call. *)
Lemma filter_fstack_primary_items (c : ctx) (r r' : list fstack_item)
    (s : call_stack) (cnt : Z) (pos : nat) :
  filter_fstack c r s = Some (r', cnt) ->
  Z.of_nat pos < max_depth s ->
  exists id v l old,
    func_ids s !! pos = Some id /\ func_res s !! pos = Some v
    /\ func_lat s !! pos = Some l /\ r !! pos = Some old
    /\ r' !! pos = Some (primary_item c s (Z.of_nat pos) id v l old).
Proof.
  unfold filter_fstack. intros H Hpos.
  destruct (fstack_primary c s _ 0 0 r) as [[r1 n1]|] eqn:H1; simpl in H;
    [|discriminate].
  pose proof (fstack_primary_inbounds _ _ _ _ _ _ _ _ H1) as [Hk | Hb]; [lia|].
  destruct Hb as (_ & Hids & Hres & Hlat & Hr).
  destruct (fstack_primary_spec c s (Z.to_nat (max_depth s)) 0 0%nat r)
    as (r1' & Hrun & _ & _ & Hin); try lia.
  rewrite H1 in Hrun. injection Hrun as <- ->.
  destruct (Hin pos ltac:(lia)) as (id & v & l & old & Hi & Hv & Hl & Ho & Hitem).
  replace (Z.to_nat (0 + Z.of_nat pos)) with pos in Hi, Hv, Hl by lia.
  replace (0 + Z.of_nat pos) with (Z.of_nat pos) in Hitem by lia.
  change (0 + pos)%nat with pos in Ho, Hitem.
  exists id, v, l, old.
  repeat (split; [assumption|]).
  destruct (negb _).
  - injection H as <- _. exact Hitem.
  - destruct (fstack_saved c s _ _ _ r1) as [[r2 n2]|] eqn:H2; simpl in H;
      [|discriminate].
    injection H as <- _.
    rewrite (fstack_saved_below _ _ _ _ _ _ _ _ H2 pos) by lia.
    exact Hitem.
Qed.

End ReconstructorItems.

(** C2, on the code: [finished] is never cleared. After an event that left
    position 0 finished, a record whose position 0 is below [depth] comes
    out finished and is printed with a latency and a result; from zeroed
    buffers the same record comes out pending. *)
Theorem handle_event_stale_finished :
  let first := sample_record [0] [-22] [5000] 0 1 0 0 [] in
  let second := sample_record [0] [0] [0] 1 1 0 0 [] in
  exists b1 out1 b2 f b2' g,
    @handle_event sample_h sample_ctx quiet (@hbufs_init sample_h) first
    = Some (b1, out1, 0)
    /\ @handle_event sample_h sample_ctx quiet b1 second
       = Some (b2, [PrintItem (Some f) None; Stdout (nl +:+ nl)], 0)
    /\ 0 < depth second
    /\ finished f = true
    /\ print_item_head (Some f) None = Some "!           0us [NULL]       "
    /\ @handle_event sample_h sample_ctx quiet (@hbufs_init sample_h) second
       = Some (b2', [PrintItem (Some g) None; Stdout (nl +:+ nl)], 0)
    /\ finished g = false
    /\ print_item_head (Some g) None = Some "!           ... [...]        ".
Proof.
  intros first second. do 6 eexists.
  split; [vm_compute; reflexivity|].
  split; [vm_compute; reflexivity|].
  split; [vm_compute; reflexivity|].
  split; [reflexivity|].
  split; [reflexivity|].
  split; [vm_compute; reflexivity|].
  split; reflexivity.
Qed.

(** ** The merge *)

Lemma merge_step_item (c : ctx) (fs : list fstack_item)
    (ks : list kstack_item) (kn i j : nat) (ev : out_event) (i' j' : nat) :
  merge_step c fs ks kn i j = Some (ev, i', j') ->
  exists f k, ev = PrintItem f k.
Proof.
  unfold merge_step. intros H.
  destruct (fs !! i) as [f|]; simpl in H; [|discriminate].
  destruct (j <? kn)%nat.
  - destruct (ks !! j) as [k|]; simpl in H; [|discriminate].
    destruct (match ksym_of k with Some _ => _ | None => _ end);
      injection H as <- _ _; eauto.
  - injection H as <- _ _. eauto.
Qed.

Lemma merge_loop_items (c : ctx) (fs : list fstack_item)
    (ks : list kstack_item) (fn kn fuel : nat) :
  forall i j evs jf,
    merge_loop c fs ks fn kn fuel i j = Some (evs, jf) ->
    Forall (fun ev => exists f k, ev = PrintItem f k) evs.
Proof.
  induction fuel as [|fuel IH]; intros i j evs jf; simpl;
    destruct (i <? fn)%nat; try discriminate;
    try (intros [= <- _]; constructor).
  intros H.
  destruct (merge_step c fs ks kn i j) as [[[ev i'] j']|] eqn:Hs;
    simpl in H; [|discriminate].
  destruct (merge_loop c fs ks fn kn fuel i' j') as [[evs' jf']|] eqn:Hl;
    simpl in H; [|discriminate].
  injection H as <- _. constructor.
  - eapply merge_step_item. exact Hs.
  - eapply IH. exact Hl.
Qed.

Lemma merge_flush_items (ks : list kstack_item) (k : nat) :
  forall j evs,
    merge_flush ks k j = Some evs ->
    Forall (fun ev => exists f k, ev = PrintItem f k) evs.
Proof.
  induction k as [|k IH]; intros j evs; simpl.
  - intros [= <-]. constructor.
  - intros H.
    destruct (ks !! j) as [kitem|]; simpl in H; [|discriminate].
    destruct (merge_flush ks k (S j)) as [evs'|] eqn:Hf; simpl in H;
      [|discriminate].
    injection H as <-. constructor; [eauto | eapply IH; exact Hf].
Qed.

(** The loop needs at most one turn for each item of either stack. *)
Lemma merge_loop_total (c : ctx) (fs : list fstack_item)
    (ks : list kstack_item) (fn kn fuel : nat) :
  (fn <= length fs)%nat -> (kn <= length ks)%nat ->
  forall i j,
    (j <= kn)%nat -> ((fn - i) + (kn - j) <= fuel)%nat ->
    exists evs jf,
      merge_loop c fs ks fn kn fuel i j = Some (evs, jf) /\ (j <= jf <= kn)%nat.
Proof.
  intros Hfs Hks.
  induction fuel as [|fuel IH]; intros i j Hj Hfuel; simpl;
    destruct (Nat.ltb_spec i fn) as [Hi | Hi]; try lia;
    try (exists [], j; split; [reflexivity | lia]).
  destruct (lookup_lt_is_Some_2 fs i ltac:(lia)) as [f Hf].
  unfold merge_step. rewrite Hf. simpl.
  destruct (Nat.ltb_spec j kn) as [Hjk | Hjk].
  - destruct (lookup_lt_is_Some_2 ks j ltac:(lia)) as [k Hk].
    rewrite Hk. simpl.
    destruct (match ksym_of k with Some _ => _ | None => _ end); simpl.
    + destruct (IH i (S j)) as (evs & jf & Hrun & Hjf); try lia.
      rewrite Hrun. simpl. eexists _, jf. split; [reflexivity | lia].
    + destruct (IH (S i) (S j)) as (evs & jf & Hrun & Hjf); try lia.
      rewrite Hrun. simpl. eexists _, jf. split; [reflexivity | lia].
  - simpl. destruct (IH (S i) j) as (evs & jf & Hrun & Hjf); try lia.
    rewrite Hrun. simpl. eexists _, jf. split; [reflexivity | lia].
Qed.

(** What one turn of the loop does. *)
Lemma merge_step_cases (c : ctx) (fs : list fstack_item)
    (ks : list kstack_item) (kn i j : nat) (ev : out_event) (i' j' : nat) :
  merge_step c fs ks kn i j = Some (ev, i', j') ->
  (exists f k,
     ev = PrintItem (Some f) (Some k) /\ i' = S i /\ j' = S j
     /\ (j < kn)%nat /\ fs !! i = Some f /\ ks !! j = Some k
     /\ frames_match c f k)
  \/ (exists f k,
        ev = PrintItem None (Some k) /\ i' = i /\ j' = S j
        /\ (j < kn)%nat /\ fs !! i = Some f /\ ks !! j = Some k
        /\ frame_skipped c f k)
  \/ (exists f,
        ev = PrintItem (Some f) None /\ i' = S i /\ j' = j
        /\ (kn <= j)%nat /\ fs !! i = Some f).
Proof.
  unfold merge_step, frames_match, frame_skipped. intros H.
  destruct (fs !! i) as [f|]; simpl in H; [|discriminate].
  destruct (Nat.ltb_spec j kn) as [Hj | Hj].
  - destruct (ks !! j) as [k|]; simpl in H; [|discriminate].
    destruct (ksym_of k) as [p|] eqn:Hp.
    + destruct (filtered k) eqn:Hfl; simpl in H.
      * injection H as <- <- <-. right. left. exists f, k.
        repeat split; auto.
      * destruct (strcmp_eq _ _) eqn:Hcmp; simpl in H.
        -- injection H as <- <- <-. left. exists f, k.
           apply String.eqb_eq in Hcmp. repeat split; eauto.
        -- injection H as <- <- <-. right. left. exists f, k.
           apply String.eqb_neq in Hcmp. repeat split; eauto.
      + injection H as <- <- <-. right. left. exists f, k.
        repeat split; auto.
  - injection H as <- <- <-. right. right. exists f. repeat split; auto.
Qed.

(** The lines of the loop, followed by lines for the rest of the kernel
    stack, are the lines of the merge. *)
Lemma merge_loop_merged (c : ctx) (fs : list fstack_item)
    (ks : list kstack_item) (fn kn fuel : nat) :
  forall i j evs jf tl,
    merge_loop c fs ks fn kn fuel i j = Some (evs, jf) ->
    (forall i', (fn <= i')%nat -> merged c fs ks fn kn i' jf tl) ->
    merged c fs ks fn kn i j (evs ++ tl).
Proof.
  induction fuel as [|fuel IH]; intros i j evs jf tl; cbn [merge_loop];
    destruct (Nat.ltb_spec i fn) as [Hi | Hi]; try discriminate;
    try (intros [= <- <-] Htl; apply Htl; exact Hi).
  intros H Htl.
  destruct (merge_step c fs ks kn i j) as [[[ev i'] j']|] eqn:Hs;
    cbn [mbind option_bind] in H; [|discriminate].
  destruct (merge_loop c fs ks fn kn fuel i' j') as [[evs' jf']|] eqn:Hl;
    cbn [mbind option_bind] in H; [|discriminate].
  injection H as <- <-.
  pose proof (IH _ _ _ _ tl Hl Htl) as Hrest.
  destruct (merge_step_cases _ _ _ _ _ _ _ _ _ Hs)
    as [(f & k & -> & -> & -> & Hj & Hf & Hk & Hm)
       | [(f & k & -> & -> & -> & Hj & Hf & Hk & Hm)
         | (f & -> & -> & -> & Hj & Hf)]]; cbn [app].
  - eapply merged_together; eassumption.
  - eapply merged_skipped; eassumption.
  - eapply merged_logical; eassumption.
Qed.

Lemma merge_flush_merged (c : ctx) (fs : list fstack_item)
    (ks : list kstack_item) (fn kn : nat) :
  forall k j tl i,
    k = (kn - j)%nat -> (fn <= i)%nat ->
    merge_flush ks k j = Some tl ->
    merged c fs ks fn kn i j tl.
Proof.
  induction k as [|k IH]; intros j tl i Hk Hi; cbn [merge_flush].
  - intros [= <-]. apply merged_end; [exact Hi | lia].
  - intros H.
    destruct (ks !! j) as [kitem|] eqn:Hkj; cbn [mbind option_bind] in H;
      [|discriminate].
    destruct (merge_flush ks k (S j)) as [evs|] eqn:Hf;
      cbn [mbind option_bind] in H; [|discriminate].
    injection H as <-.
    apply merged_left; [exact Hi | lia | exact Hkj|].
    apply IH; [lia | exact Hi | exact Hf].
Qed.

Lemma merge_flush_returns (ks : list kstack_item) (k : nat) :
  forall j, (j + k <= length ks)%nat -> is_Some (merge_flush ks k j).
Proof.
  induction k as [|k IH]; intros j Hj; cbn [merge_flush]; [eauto|].
  destruct (lookup_lt_is_Some_2 ks j ltac:(lia)) as [kitem ->].
  cbn [mbind option_bind].
  destruct (IH (S j) ltac:(lia)) as [evs ->]. eauto.
Qed.

Lemma frames_match_not_skipped (c : ctx) (f : fstack_item) (k : kstack_item) :
  frames_match c f k -> frame_skipped c f k -> False.
Proof.
  intros (p & Hp & Hfl & Hnm) [Hn | [Hf | (q & Hq & Hne)]]; try congruence.
Qed.

(** The description leaves no choice: from given cursors there is one
    sequence of lines. *)
Lemma merged_unique (c : ctx) (fs : list fstack_item)
    (ks : list kstack_item) (fn kn i j : nat) (evs evs' : list out_event) :
  merged c fs ks fn kn i j evs -> merged c fs ks fn kn i j evs' -> evs = evs'.
Proof.
  intros H. revert evs'.
  induction H as [i j Hi Hj
                 | i j f k evs Hi Hj Hf Hk Hm H IH
                 | i j f k evs Hi Hj Hf Hk Hm H IH
                 | i j f evs Hi Hj Hf H IH
                 | i j k evs Hi Hj Hk H IH];
    intros evs' H'; inversion H'; subst; try lia; try reflexivity;
    repeat match goal with
           | A : ?l !! ?n = Some ?x, B : ?l !! ?n = Some ?y |- _ =>
               rewrite A in B; injection B as <-
           end;
    try (exfalso; eapply frames_match_not_skipped; eassumption);
    f_equal; apply IH; assumption.
Qed.

(** C5. The lines of the merge of [handle_event], which are those of its
    loop followed by those of the flush after it, are the merge of the two
    stacks: a combined line consumes a logical item and a kernel item that
    is resolved, not filtered, and whose symbol has the logical item's
    name, and advances both cursors; a kernel item that is unresolved,
    filtered or differently named is printed alone and only the kernel
    cursor advances; a logical item is printed alone once the kernel stack
    is used up, and the kernel items left over are printed alone. The loop
    ends within [fn + kn] turns, these are the only lines that fit the
    description, and every combined line pairs equal names. *)
Theorem merge_alignment (c : ctx) (fs : list fstack_item)
    (ks : list kstack_item) (fn kn : nat) :
  (fn <= length fs)%nat -> (kn <= length ks)%nat ->
  exists evs jf tl,
    merge_loop c fs ks fn kn (fn + kn) 0 0 = Some (evs, jf)
    /\ merge_flush ks (kn - jf) jf = Some tl
    /\ merged c fs ks fn kn 0 0 (evs ++ tl)
    /\ (forall evs', merged c fs ks fn kn 0 0 evs' -> evs' = evs ++ tl)
    /\ (forall f k, PrintItem (Some f) (Some k) ∈ evs ++ tl ->
        frames_match c f k)
    /\ (forall i j f k,
          fs !! i = Some f -> (j < kn)%nat -> ks !! j = Some k ->
          frame_skipped c f k ->
          merge_step c fs ks kn i j = Some (PrintItem None (Some k), i, S j))
    /\ (forall i j f k,
          fs !! i = Some f -> (j < kn)%nat -> ks !! j = Some k ->
          frames_match c f k ->
          merge_step c fs ks kn i j
          = Some (PrintItem (Some f) (Some k), S i, S j)).
Proof.
  intros Hfs Hks.
  destruct (merge_loop_total c fs ks fn kn (fn + kn) Hfs Hks 0%nat 0%nat)
    as (evs & jf & Hrun & Hjf); try lia.
  destruct (merge_flush_returns ks (kn - jf) jf ltac:(lia)) as [tl Htl].
  exists evs, jf, tl. split; [exact Hrun|]. split; [exact Htl|].
  assert (Hm : merged c fs ks fn kn 0 0 (evs ++ tl)).
  { eapply merge_loop_merged; [exact Hrun|].
    intros i' Hi'. eapply merge_flush_merged; [reflexivity | exact Hi' | exact Htl]. }
  split; [exact Hm|].
  split; [intros evs' H'; exact (merged_unique _ _ _ _ _ _ _ _ _ H' Hm)|].
  split; [|split].
  - clear - Hm. intros f k Hin.
    induction Hm as [i j Hi Hj
                    | i j f0 k0 evs0 Hi Hj Hf Hk Hma H IH
                    | i j f0 k0 evs0 Hi Hj Hf Hk Hma H IH
                    | i j f0 evs0 Hi Hj Hf H IH
                    | i j k0 evs0 Hi Hj Hk H IH].
    + inversion Hin.
    + apply elem_of_cons in Hin. destruct Hin as [[= -> ->] | Hin]; auto.
    + apply elem_of_cons in Hin. destruct Hin as [Heq | Hin];
        [discriminate | auto].
    + apply elem_of_cons in Hin. destruct Hin as [Heq | Hin];
        [discriminate | auto].
    + apply elem_of_cons in Hin. destruct Hin as [Heq | Hin];
        [discriminate | auto].
  - intros i j f k Hf Hj Hk Hskip. unfold merge_step.
    rewrite Hf. simpl.
    destruct (Nat.ltb_spec j kn); [|lia].
    rewrite Hk. simpl.
    destruct Hskip as [-> | [Hfl | (p & -> & Hne)]]; [reflexivity| |].
    + destruct (ksym_of k); [rewrite Hfl|]; reflexivity.
    + destruct (filtered k); simpl; [reflexivity|].
      destruct (strcmp_eq _ _) eqn:Hcmp; [|reflexivity].
      apply String.eqb_eq in Hcmp. contradiction.
  - intros i j f k Hf Hj Hk (p & Hp & Hfl & Hnm). unfold merge_step.
    rewrite Hf. simpl.
    destruct (Nat.ltb_spec j kn); [|lia].
    rewrite Hk. simpl. rewrite Hp, Hfl. simpl.
    unfold strcmp_eq. rewrite Hnm, String.eqb_refl. reflexivity.
Qed.

Lemma merge_alignment_witness :
  let fa := {| name := "A"; res := -22; lat := 5000;
               finished := true; stitched := false |} in
  let fb := {| name := "B"; res := 0; lat := 7000;
               finished := true; stitched := false |} in
  let ka := kframe sample_ctx 0x81200010 in
  let ku := kframe sample_ctx 0x10 in
  let kb := kframe sample_ctx 0x81300020 in
  let fs := [fa; fb] in
  let ks := [ka; ku; kb] in
  (2 <= length fs)%nat /\ (3 <= length ks)%nat
  /\ merged sample_ctx fs ks 2 3 0 0
       [PrintItem (Some fa) (Some ka); PrintItem None (Some ku);
        PrintItem (Some fb) (Some kb)]
  /\ frames_match sample_ctx fa ka.
Proof.
  intros fa fb ka ku kb fs ks.
  assert (Hfs : (2 <= length fs)%nat) by (simpl; lia).
  assert (Hks : (3 <= length ks)%nat) by (simpl; lia).
  destruct (merge_alignment sample_ctx fs ks 2 3 Hfs Hks)
    as (evs & jf & tl & Hrun & Htl & Hm & _ & Hpair & _).
  split; [exact Hfs|]. split; [exact Hks|].
  assert (Hev : evs ++ tl
                = [PrintItem (Some fa) (Some ka); PrintItem None (Some ku);
                   PrintItem (Some fb) (Some kb)]).
  { vm_compute in Hrun. injection Hrun as <- <-.
    vm_compute in Htl. injection Htl as <-. reflexivity. }
  rewrite Hev in Hm, Hpair.
  split; [exact Hm|]. apply Hpair. left.
Defined.

(** The whole merge on that input: the matched pair, the unresolved kernel
    frame alone, the second pair. *)
Example merge_loop_sample :
  let fa := {| name := "A"; res := -22; lat := 5000;
               finished := true; stitched := false |} in
  let fb := {| name := "B"; res := 0; lat := 7000;
               finished := true; stitched := false |} in
  let ka := kframe sample_ctx 0x81200010 in
  let ku := kframe sample_ctx 0x10 in
  let kb := kframe sample_ctx 0x81300020 in
  merge_loop sample_ctx [fa; fb] [ka; ku; kb] 2 3 (2 + 3) 0 0
  = Some ([PrintItem (Some fa) (Some ka); PrintItem None (Some ku);
           PrintItem (Some fb) (Some kb)], 3%nat).
Proof. reflexivity. Qed.

(** ** The event handler *)

Lemma kstack_reverse_overflow (c : ctx) (s : call_stack) (n : nat)
    (r : list kstack_item) :
  (length r < n)%nat -> kstack_reverse c s n n 0 r = None.
Proof.
  intros Hn. destruct n as [|n]; [lia|]. simpl.
  destruct (kstack s !! 0%nat); simpl; [|reflexivity].
  unfold arr_set.
  destruct (Nat.ltb_spec (n - 0) (length r)); [lia | reflexivity].
Qed.

Section HandlerClaims.
Context `{HDR : retsnoop_h}.

(** C3, amended. [handle_event] checks neither [max_depth] nor [kstack_sz]
    against the capacity of its buffers: whenever it returns, it returns 0
    and has written nothing to [stderr] (the two failure branches are never
    taken, because neither filter returns a negative count), and an error
    record whose [max_depth], or whose [kstack_sz / 8], exceeds the buffer's
    length makes it index past the buffer instead of being dropped. *)
Theorem handle_event_never_drops (c : ctx) (e : env) (b : hbufs)
    (s : call_stack) :
  (forall b' out ret,
     handle_event c e b s = Some (b', out, ret) ->
     ret = 0 /\ forall text, Stderr text ∉ out)
  /\ (is_err s = true ->
      Z.of_nat (length (fstack_buf b)) < max_depth s ->
      handle_event c e b s = None)
  /\ (is_err s = true ->
      Z.of_nat (length (kstack_buf b)) < kstack_cnt s ->
      handle_event c e b s = None).
Proof.
  split; [|split].
  - intros b' out ret. unfold handle_event.
    destruct (is_err s); simpl.
    2:{ intros [= <- <- <-]. split; [reflexivity|]. intros text Hin. inversion Hin. }
    intros H.
    destruct (filter_fstack c (fstack_buf b) s) as [[fs fstack_n]|] eqn:Hf;
      simpl in H; [|discriminate].
    apply filter_fstack_nonneg in Hf. destruct Hf as [Hfn _].
    destruct (Z.ltb_spec fstack_n 0); [lia|].
    destruct (filter_kstack c e (kstack_buf b) s) as [[ks kstack_n]|] eqn:Hk;
      simpl in H; [|discriminate].
    assert (Hkn : 0 <= kstack_n).
    { unfold filter_kstack in Hk.
      destruct (kstack_reverse _ _ _ _ _ _); simpl in Hk; [|discriminate].
      destruct (kstack_repair _ _ _ _ _ _ _) as [[r p]|]; simpl in Hk;
        [|discriminate].
      injection Hk as _ <-. lia. }
    destruct (Z.ltb_spec kstack_n 0); [lia|].
    destruct (merge_loop _ _ _ _ _ _ _ _) as [[evs j]|] eqn:Hm; simpl in H;
      [|discriminate].
    destruct (merge_flush _ _ _) as [tl|] eqn:Ht; simpl in H; [|discriminate].
    injection H as _ <- <-. split; [reflexivity|].
    intros text Hin.
    apply merge_loop_items in Hm. apply merge_flush_items in Ht.
    rewrite Forall_forall in Hm, Ht.
    repeat (apply elem_of_app in Hin; destruct Hin as [Hin | Hin]).
    + destruct (debug e); [|inversion Hin].
      unfold debug_header in Hin.
      repeat (apply elem_of_cons in Hin; destruct Hin as [Hin | Hin];
              [discriminate|]).
      inversion Hin.
    + destruct (debug e); [|inversion Hin].
      unfold debug_counts in Hin.
      repeat (apply elem_of_cons in Hin; destruct Hin as [Hin | Hin];
              [discriminate|]).
      inversion Hin.
    + destruct (Hm _ Hin) as (f & k & Hev). discriminate.
    + destruct (Ht _ Hin) as (f & k & Hev). discriminate.
    + apply elem_of_cons in Hin. destruct Hin as [Hin | Hin]; [discriminate|].
      inversion Hin.
  - intros Herr Hlen. unfold handle_event. rewrite Herr. simpl.
    unfold filter_fstack.
    destruct (fstack_primary c s _ 0 0 (fstack_buf b)) as [[r1 n1]|] eqn:H1;
      [|reflexivity].
    apply fstack_primary_bound in H1. destruct H1 as (Hb & _ & _). lia.
  - intros Herr Hlen. unfold handle_event. rewrite Herr. simpl.
    destruct (filter_fstack c (fstack_buf b) s) as [[fs fstack_n]|] eqn:Hf;
      simpl; [|reflexivity].
    apply filter_fstack_nonneg in Hf. destruct Hf as [Hfn _].
    destruct (Z.ltb_spec fstack_n 0); [lia|].
    unfold filter_kstack.
    rewrite kstack_reverse_overflow by lia. reflexivity.
Qed.

End HandlerClaims.

Lemma handle_event_never_drops_witness :
  let s := sample_record (replicate 64 0) (replicate 64 0) (replicate 64 0)
             0 65 0 0 [] in
  is_err s = true
  /\ Z.of_nat (length (fstack_buf (@hbufs_init sample_h))) < max_depth s
  /\ @handle_event sample_h sample_ctx quiet (@hbufs_init sample_h) s = None.
Proof.
  intros s.
  assert (Herr : is_err s = true) by reflexivity.
  assert (Hlen : Z.of_nat (length (fstack_buf (@hbufs_init sample_h)))
                 < max_depth s) by (vm_compute; reflexivity).
  split; [exact Herr|]. split; [exact Hlen|].
  destruct (@handle_event_never_drops sample_h sample_ctx quiet
              (@hbufs_init sample_h) s) as (_ & Hover & _).
  exact (Hover Herr Hlen).
Defined.

(** C3 as stated fails: a record with [max_depth = 65] meets buffers of 64
    items; nothing compares the two, the first loop of [filter_fstack] runs
    past the arrays, and no diagnostic is written nor is -1 returned. *)
Lemma handle_event_drop_counterexample :
  let s := sample_record (replicate 64 0) (replicate 64 0) (replicate 64 0)
             0 65 0 0 [] in
  Z.of_nat (@MAX_FSTACK_DEPTH sample_h) < max_depth s
  /\ @handle_event sample_h sample_ctx quiet (@hbufs_init sample_h) s = None
  /\ ~ (exists b' out,
          @handle_event sample_h sample_ctx quiet (@hbufs_init sample_h) s
          = Some (b', out, -1)).
Proof.
  intros s.
  assert (Hrun : @handle_event sample_h sample_ctx quiet
                   (@hbufs_init sample_h) s = None) by (vm_compute; reflexivity).
  split; [vm_compute; reflexivity|]. split; [exact Hrun|].
  intros (b' & out & H). rewrite Hrun in H. discriminate.
Qed.

(** A record inside the capacities is processed and 0 is returned. *)
Example handle_event_sample :
  let s := sample_record [0; 1] [0xffffffea; 0] [5000; 7000] 0 2 0 0
             [0x81300020; 0x10; 0x81200010] in
  exists b',
    @handle_event sample_h sample_ctx quiet (@hbufs_init sample_h) s
    = Some (b',
            [PrintItem
               (Some {| name := "A"; res := -22; lat := 5000;
                        finished := true; stitched := false |})
               (Some (kframe sample_ctx 0x81200010));
             PrintItem None (Some (kframe sample_ctx 0x10));
             PrintItem
               (Some {| name := "B"; res := 0; lat := 7000;
                        finished := true; stitched := false |})
               (Some (kframe sample_ctx 0x81300020));
             Stdout (nl +:+ nl)], 0).
Proof. intros s. eexists. vm_compute. reflexivity. Qed.

(** ** The kernel-stack filter *)

Section KernelStackFilter.
Local Open Scope nat_scope.

(** Writes at the write cursor do not disturb what the read cursor has yet
    to see, nor what was written before. *)
Lemma drop_take_insert_below {A : Type} (r : list A) (n i p : nat) (x : A) :
  p <= i -> drop (S i) (take n (<[p := x]> r)) = drop (S i) (take n r).
Proof.
  intros Hp. destruct (decide (p < n)) as [Hlt | Hge].
  - rewrite take_insert_lt by lia. apply drop_insert_lt. lia.
  - rewrite take_insert_ge by lia. reflexivity.
Qed.

Lemma take_insert_same {A : Type} (r : list A) (p : nat) (x : A) :
  take p (<[p := x]> r) = take p r.
Proof. apply take_insert_ge. lia. Qed.

Lemma take_S_insert {A : Type} (r : list A) (p : nat) (x : A) :
  p < length r -> take (S p) (<[p := x]> r) = take p r ++ [x].
Proof.
  intros Hp. rewrite (take_S_r _ _ x).
  - rewrite take_insert_same. reflexivity.
  - apply list_lookup_insert_eq. exact Hp.
Qed.

Lemma drop_take_cons {A : Type} (r : list A) (n i : nat) (a : A) :
  i < n -> r !! i = Some a ->
  drop i (take n r) = a :: drop (S i) (take n r).
Proof.
  intros Hi Ha. apply drop_S. rewrite lookup_take_lt by lia. exact Ha.
Qed.

Lemma kstack_bridge_kfilter (c : ctx) (n i : nat) (r : list kstack_item)
    (a : kstack_item) :
  n <= length r -> r !! i = Some a ->
  kstack_bridge c n i r = kfilter_bridge c a (drop (S i) (take n r)).
Proof.
  intros Hn Ha. unfold kstack_bridge.
  destruct (Nat.ltb_spec (i + 2) n) as [Hlt | Hge].
  - destruct (lookup_lt_is_Some_2 r (i + 1) ltac:(lia)) as [t Ht].
    destruct (lookup_lt_is_Some_2 r (i + 2) ltac:(lia)) as [b Hb].
    rewrite (drop_take_cons r n (S i) t) by (try lia; rewrite <- Ht; f_equal; lia).
    rewrite (drop_take_cons r n (S (S i)) b) by (try lia; rewrite <- Hb; f_equal; lia).
    rewrite Ht, Ha, Hb. reflexivity.
  - assert (Hlen : length (drop (S i) (take n r)) <= 1).
    { rewrite length_drop, length_take. lia. }
    destruct (drop (S i) (take n r)) as [|t [|b rest]]; simpl in Hlen;
      try reflexivity. lia.
Qed.

Lemma kstack_suppress_kfilter (c : ctx) (i : nat) (r : list kstack_item)
    (a : kstack_item) :
  r !! i = Some a -> kstack_suppress c i r = kfilter_suppress c a.
Proof. intros Ha. unfold kstack_suppress. rewrite Ha. reflexivity. Qed.

(** The in-place pass computes [kfilter]: run from read cursor [i] and write
    cursor [p <= i], it appends the filtered rest of the trace to the [p]
    items already written. *)
Lemma kstack_repair_kfilter (c : ctx) (v : bool) (n k : nat) :
  forall (i p : nat) (r : list kstack_item),
    i + k = n -> n <= length r -> p <= i ->
    match kfilter c v (drop i (take n r)) with
    | None => kstack_repair c v n k i p r = None
    | Some out =>
        exists r',
          kstack_repair c v n k i p r = Some (r', p + length out)
          /\ length r' = length r
          /\ take (p + length out) r' = take p r ++ out
    end.
Proof.
  induction k as [|k IH]; intros i p r Hik Hn Hp.
  - rewrite drop_ge by (rewrite length_take; lia). simpl.
    exists r. rewrite Nat.add_0_r, app_nil_r. auto.
  - destruct (lookup_lt_is_Some_2 r i ltac:(lia)) as [a Ha].
    rewrite (drop_take_cons r n i a) by (try lia; exact Ha).
    set (rest := drop (S i) (take n r)).
    (* every recursive call runs on [r] with its cell [p] overwritten *)
    assert (Hrec : forall (y : kstack_item) (p' : nat),
               p' <= S i ->
               match kfilter c v rest with
               | None => kstack_repair c v n k (S i) p' (<[p := y]> r) = None
               | Some out =>
                   exists r',
                     kstack_repair c v n k (S i) p' (<[p := y]> r)
                     = Some (r', p' + length out)
                     /\ length r' = length r
                     /\ take (p' + length out) r'
                        = take p' (<[p := y]> r) ++ out
               end).
    { intros y p' Hp'.
      pose proof (IH (S i) p' (<[p := y]> r) ltac:(lia)
                    ltac:(rewrite length_insert; lia) Hp') as Hih.
      rewrite drop_take_insert_below in Hih by lia. fold rest in Hih.
      destruct (kfilter c v rest); [|exact Hih].
      destruct Hih as (r' & H1 & H2 & H3). exists r'.
      rewrite length_insert in H2. auto. }
    assert (Hia : (<[p := a]> r) !! i = Some a).
    { destruct (decide (p = i)) as [-> | Hne].
      - apply list_lookup_insert_eq. lia.
      - rewrite list_lookup_insert_ne by lia. exact Ha. }
    assert (Hbr : kstack_bridge c n i (<[p := a]> r) = kfilter_bridge c a rest).
    { rewrite (kstack_bridge_kfilter c n i _ a) by
        (try (rewrite length_insert; lia); exact Hia).
      rewrite drop_take_insert_below by lia. reflexivity. }
    assert (Hsu : kstack_suppress c i (<[p := a]> r) = kfilter_suppress c a)
      by (apply kstack_suppress_kfilter; exact Hia).
    (* the unfolded body *)
    cbn [kstack_repair kfilter].
    rewrite Ha. cbn [mbind option_bind].
    rewrite arr_set_ok by lia. cbn [mbind option_bind].
    rewrite list_lookup_insert_eq by lia. cbn [mbind option_bind].
    unfold kfilter_frame.
    destruct (ksym_of a) as [sa|] eqn:Hsa.
    + rewrite Hbr, Hsu. unfold kfilter_hit.
      destruct (kfilter_bridge c a rest) as [[|]|] eqn:Hb; cbn [mbind option_bind].
      * (* the fix-up applies *)
        destruct v; cbn [kfilter_mark].
        -- rewrite arr_set_ok by (rewrite length_insert; lia).
           cbn [mbind option_bind]. rewrite list_insert_insert_eq.
           specialize (Hrec (set_filtered true a) (S p) ltac:(lia)).
           destruct (kfilter c true rest) as [out|]; cbn [mbind option_bind];
             [|exact Hrec].
           destruct Hrec as (r' & H1 & H2 & H3). exists r'.
           rewrite take_S_insert in H3 by lia.
           split; [rewrite H1; f_equal; f_equal; simpl; lia|].
           split; [exact H2|].
           simpl. replace (p + S (length out)) with (S p + length out) by lia.
           rewrite H3, <- app_assoc. reflexivity.
        -- assert (Hi2 : i + 2 < n).
           { unfold kfilter_bridge in Hb.
             assert (Hlen : length rest = n - S i).
             { unfold rest. rewrite length_drop, length_take. lia. }
             destruct rest as [|t [|b rest']]; try discriminate.
             simpl in Hlen. lia. }
           destruct (lookup_lt_is_Some_2 r (i + 2) ltac:(lia)) as [b Hb2].
           rewrite list_lookup_insert_ne by lia. rewrite Hb2.
           cbn [mbind option_bind].
           rewrite arr_set_ok by (rewrite length_insert; lia).
           cbn [mbind option_bind]. rewrite list_insert_insert_eq.
           specialize (Hrec b p ltac:(lia)).
           destruct (kfilter c false rest) as [out|]; cbn [mbind option_bind];
             [|exact Hrec].
           destruct Hrec as (r' & H1 & H2 & H3). exists r'.
           rewrite take_insert_same in H3. auto.
      * (* no fix-up: the suppression rule *)
        destruct (kfilter_suppress c a) as [[|]|] eqn:Hs; cbn [mbind option_bind].
        -- destruct v; cbn [kfilter_mark].
           ++ rewrite arr_set_ok by (rewrite length_insert; lia).
              cbn [mbind option_bind]. rewrite list_insert_insert_eq.
              specialize (Hrec (set_filtered true a) (S p) ltac:(lia)).
              destruct (kfilter c true rest) as [out|]; cbn [mbind option_bind];
                [|exact Hrec].
              destruct Hrec as (r' & H1 & H2 & H3). exists r'.
              rewrite take_S_insert in H3 by lia.
              split; [rewrite H1; f_equal; f_equal; simpl; lia|].
              split; [exact H2|].
              simpl. replace (p + S (length out)) with (S p + length out) by lia.
              rewrite H3, <- app_assoc. reflexivity.
           ++ destruct (Nat.ltb_spec (i + 1) n) as [Hi1 | Hi1].
              ** destruct (lookup_lt_is_Some_2 r (i + 1) ltac:(lia)) as [t Ht].
                 rewrite list_lookup_insert_ne by lia. rewrite Ht.
                 cbn [mbind option_bind].
                 rewrite arr_set_ok by (rewrite length_insert; lia).
                 cbn [mbind option_bind]. rewrite list_insert_insert_eq.
                 specialize (Hrec t p ltac:(lia)).
                 destruct (kfilter c false rest) as [out|]; cbn [mbind option_bind];
                   [|exact Hrec].
                 destruct Hrec as (r' & H1 & H2 & H3). exists r'.
                 rewrite take_insert_same in H3. auto.
              ** specialize (Hrec a p ltac:(lia)).
                 destruct (kfilter c false rest) as [out|]; cbn [mbind option_bind];
                   [|exact Hrec].
                 destruct Hrec as (r' & H1 & H2 & H3). exists r'.
                 rewrite take_insert_same in H3. auto.
        -- specialize (Hrec a (S p) ltac:(lia)).
           destruct (kfilter c v rest) as [out|]; cbn [mbind option_bind];
             [|exact Hrec].
           destruct Hrec as (r' & H1 & H2 & H3). exists r'.
           rewrite take_S_insert in H3 by lia.
           split; [rewrite H1; f_equal; f_equal; simpl; lia|].
           split; [exact H2|].
           simpl. replace (p + S (length out)) with (S p + length out) by lia.
           rewrite H3, <- app_assoc. reflexivity.
        -- reflexivity.
      * reflexivity.
    + (* unresolved frame *)
      cbn [mbind option_bind].
      specialize (Hrec a (S p) ltac:(lia)).
      destruct (kfilter c v rest) as [out|]; cbn [mbind option_bind];
        [|exact Hrec].
      destruct Hrec as (r' & H1 & H2 & H3). exists r'.
      rewrite take_S_insert in H3 by lia.
      split; [rewrite H1; f_equal; f_equal; simpl; lia|].
      split; [exact H2|].
      simpl. replace (p + S (length out)) with (S p + length out) by lia.
      rewrite H3, <- app_assoc. reflexivity.
Qed.

(** A pass that returns has read its [k] frames inside the array. *)
Lemma kstack_repair_inbounds (c : ctx) (v : bool) (n k : nat) :
  forall (i p : nat) (r r' : list kstack_item) (p' : nat),
    kstack_repair c v n k i p r = Some (r', p') -> k = 0 \/ i + k <= length r.
Proof.
  induction k as [|k IH]; intros i p r r' p' H; [left; reflexivity|].
  right. cbn [kstack_repair] in H.
  destruct (r !! i) as [ri|] eqn:Hri; cbn [mbind option_bind] in H;
    [|discriminate].
  apply lookup_lt_Some in Hri.
  destruct (arr_set r p ri) as [r1|] eqn:Hset; cbn [mbind option_bind] in H;
    [|discriminate].
  apply arr_set_inv in Hset. destruct Hset as [_ ->].
  assert (Hgo : forall q r2 y,
             kstack_repair c v n k (S i) q r2 = Some y ->
             length r2 = length r -> i + S k <= length r).
  { intros q r2 [r3 q3] Hrun Hlen. apply IH in Hrun. lia. }
  assert (Hset2 : forall (x : kstack_item) r2,
             arr_set (<[p := ri]> r) p x = Some r2 -> length r2 = length r).
  { intros x r2 Hx. apply arr_set_inv in Hx. destruct Hx as [_ ->].
    rewrite !length_insert. reflexivity. }
  destruct (<[p := ri]> r !! p) as [item|]; cbn [mbind option_bind] in H;
    [|discriminate].
  destruct (ksym_of item).
  2:{ eapply Hgo; [exact H | apply length_insert]. }
  destruct (kstack_bridge c n i _) as [[|]|]; cbn [mbind option_bind] in H;
    [| |discriminate].
  - destruct v.
    + destruct (arr_set _ p _) as [r2|] eqn:Hx; cbn [mbind option_bind] in H;
        [|discriminate].
      eapply Hgo; [exact H | eapply Hset2; exact Hx].
    + destruct (_ !! (i + 2)); cbn [mbind option_bind] in H; [|discriminate].
      destruct (arr_set _ p _) as [r2|] eqn:Hx; cbn [mbind option_bind] in H;
        [|discriminate].
      eapply Hgo; [exact H | eapply Hset2; exact Hx].
  - destruct (kstack_suppress c i _) as [[|]|]; cbn [mbind option_bind] in H;
      [| |discriminate].
    + destruct v.
      * destruct (arr_set _ p _) as [r2|] eqn:Hx; cbn [mbind option_bind] in H;
          [|discriminate].
        eapply Hgo; [exact H | eapply Hset2; exact Hx].
      * destruct (i + 1 <? n).
        -- destruct (_ !! (i + 1)); cbn [mbind option_bind] in H; [|discriminate].
           destruct (arr_set _ p _) as [r2|] eqn:Hx; cbn [mbind option_bind] in H;
             [|discriminate].
           eapply Hgo; [exact H | eapply Hset2; exact Hx].
        -- eapply Hgo; [exact H | apply length_insert].
    + eapply Hgo; [exact H | apply length_insert].
Qed.

Lemma is_bpf_tramp_sim (c : ctx) (a x : kstack_item) :
  ksym_of a = ksym_of x -> is_bpf_tramp c a = is_bpf_tramp c x.
Proof. intros H. unfold is_bpf_tramp. rewrite H. reflexivity. Qed.

Lemma kfilter_suppress_sim (c : ctx) (a x : kstack_item) :
  ksym_of a = ksym_of x -> kfilter_suppress c a = kfilter_suppress c x.
Proof.
  intros H. unfold kfilter_suppress, is_bpf_prog.
  rewrite (is_bpf_tramp_sim c a x H), H. reflexivity.
Qed.

Lemma kfilter_hit_sim (c : ctx) (a x : kstack_item)
    (rest rest' : list kstack_item) :
  frame_sim a x -> Forall2 frame_sim rest rest' ->
  kfilter_hit c a rest = kfilter_hit c x rest'.
Proof.
  intros [Hk Ha] Hrest. unfold kfilter_hit.
  rewrite (kfilter_suppress_sim c a x Hk).
  assert (Hb : kfilter_bridge c a rest = kfilter_bridge c x rest').
  { unfold kfilter_bridge.
    destruct Hrest as [|t t' rest rest' [Ht _] Hrest]; [reflexivity|].
    destruct Hrest as [|b b' rest rest' [Hb _] Hrest]; [reflexivity|].
    rewrite (is_bpf_tramp_sim c t t' Ht), Hk, Hb, Ha. reflexivity. }
  rewrite Hb. reflexivity.
Qed.

Lemma set_filtered_sim (a : kstack_item) : frame_sim a (set_filtered true a).
Proof. split; reflexivity. Qed.

Lemma frame_sim_refl (a : kstack_item) : frame_sim a a.
Proof. split; reflexivity. Qed.

(** In verbose mode the pass keeps every frame and only sets marks. *)
Lemma kfilter_verbose_sim (c : ctx) (l : list kstack_item) :
  forall out, kfilter c true l = Some out -> Forall2 frame_sim l out.
Proof.
  induction l as [|a rest IH]; intros out; cbn [kfilter].
  - intros [= <-]. constructor.
  - intros H.
    destruct (kfilter_frame c true a rest) as [d|] eqn:Hd;
      cbn [mbind option_bind] in H; [|discriminate].
    destruct (kfilter c true rest) as [out'|]; cbn [mbind option_bind] in H;
      [|discriminate].
    injection H as <-. specialize (IH out' eq_refl).
    unfold kfilter_frame in Hd. destruct (ksym_of a).
    + destruct (kfilter_hit c a rest) as [[|]|]; cbn [mbind option_bind] in Hd;
        [| |discriminate]; injection Hd as <-; cbn [kfilter_mark];
        constructor; auto using set_filtered_sim, frame_sim_refl.
    + injection Hd as <-. constructor; auto using frame_sim_refl.
Qed.

Lemma kfilter_verbose_fixed (c : ctx) (l : list kstack_item) :
  forall out, kfilter c true l = Some out -> kfilter c true out = Some out.
Proof.
  induction l as [|a rest IH]; intros out; cbn [kfilter].
  - intros [= <-]. reflexivity.
  - intros H.
    destruct (kfilter_frame c true a rest) as [d|] eqn:Hd;
      cbn [mbind option_bind] in H; [|discriminate].
    destruct (kfilter c true rest) as [out'|] eqn:Hrest;
      cbn [mbind option_bind] in H; [|discriminate].
    injection H as <-.
    pose proof (kfilter_verbose_sim c rest out' Hrest) as Hsim.
    specialize (IH out' eq_refl).
    unfold kfilter_frame in Hd. destruct (ksym_of a) as [sa|] eqn:Hsa.
    + destruct (kfilter_hit c a rest) as [[|]|] eqn:Hhit;
        cbn [mbind option_bind] in Hd; [| |discriminate]; injection Hd as <-;
        cbn [kfilter_mark kfilter]; unfold kfilter_frame.
      * change (ksym_of (set_filtered true a)) with (ksym_of a). rewrite Hsa.
        rewrite <- (kfilter_hit_sim c a (set_filtered true a) rest out'
                      (set_filtered_sim a) Hsim), Hhit.
        cbn [mbind option_bind kfilter_mark]. rewrite IH. reflexivity.
      * rewrite Hsa.
        rewrite <- (kfilter_hit_sim c a a rest out' (frame_sim_refl a) Hsim), Hhit.
        cbn [mbind option_bind]. rewrite IH. reflexivity.
    + injection Hd as <-. cbn [kfilter]. unfold kfilter_frame. rewrite Hsa.
      cbn [mbind option_bind]. rewrite IH. reflexivity.
Qed.

Lemma clean_not_tramp (c : ctx) (x : kstack_item) :
  clean c x -> is_bpf_tramp c x = Some false.
Proof.
  intros [Hn | Hs].
  - unfold is_bpf_tramp. rewrite Hn. reflexivity.
  - unfold kfilter_suppress in Hs.
    destruct (is_bpf_tramp c x) as [[|]|]; cbn [mbind option_bind] in Hs;
      [discriminate | reflexivity | discriminate].
Qed.

(** Without [verbose] the pass leaves clean frames only. *)
Lemma kfilter_quiet_clean (c : ctx) (l : list kstack_item) :
  forall out, kfilter c false l = Some out -> Forall (clean c) out.
Proof.
  induction l as [|a rest IH]; intros out; cbn [kfilter].
  - intros [= <-]. constructor.
  - intros H.
    destruct (kfilter_frame c false a rest) as [d|] eqn:Hd;
      cbn [mbind option_bind] in H; [|discriminate].
    destruct (kfilter c false rest) as [out'|]; cbn [mbind option_bind] in H;
      [|discriminate].
    injection H as <-. specialize (IH out' eq_refl).
    unfold kfilter_frame in Hd. destruct (ksym_of a) eqn:Hsa.
    + unfold kfilter_hit in Hd.
      destruct (kfilter_bridge c a rest) as [[|]|]; cbn [mbind option_bind] in Hd;
        [injection Hd as <-; exact IH | | discriminate].
      destruct (kfilter_suppress c a) as [[|]|] eqn:Hs;
        cbn [mbind option_bind] in Hd; [| |discriminate]; injection Hd as <-.
      * exact IH.
      * constructor; [right; exact Hs | exact IH].
    + injection Hd as <-. constructor; [left; exact Hsa | exact IH].
Qed.

(** And it is the identity on clean frames, in either mode. *)
Lemma kfilter_clean_fixed (c : ctx) (v : bool) (l : list kstack_item) :
  Forall (clean c) l -> kfilter c v l = Some l.
Proof.
  induction 1 as [|a rest Ha Hrest IH]; cbn [kfilter]; [reflexivity|].
  rewrite IH. unfold kfilter_frame.
  destruct (ksym_of a) eqn:Hsa; [|reflexivity].
  destruct Ha as [Hn | Hs]; [congruence|].
  unfold kfilter_hit.
  assert (Hb : kfilter_bridge c a rest = Some false).
  { unfold kfilter_bridge.
    destruct Hrest as [|t rest Ht Hrest]; [reflexivity|].
    destruct Hrest as [|b rest Hb Hrest]; [reflexivity|].
    rewrite (clean_not_tramp c t Ht). reflexivity. }
  rewrite Hb. cbn [mbind option_bind]. rewrite Hs. reflexivity.
Qed.

Lemma kfilter_fixed (c : ctx) (v : bool) (l out : list kstack_item) :
  kfilter c v l = Some out -> kfilter c v out = Some out.
Proof.
  destruct v.
  - apply kfilter_verbose_fixed.
  - intros H. apply kfilter_clean_fixed. eapply kfilter_quiet_clean. exact H.
Qed.

(** C8. The repair pass is idempotent in both modes: run again on the [p]
    frames that a first run has left, it returns the same count [p] and
    leaves the same [p] frames; nothing more is removed or marked. *)
Theorem kstack_repair_idempotent (c : ctx) (v : bool) (n : nat)
    (r r1 : list kstack_item) (p : nat) :
  kstack_repair c v n n 0 0 r = Some (r1, p) ->
  exists r2,
    kstack_repair c v p p 0 0 r1 = Some (r2, p)
    /\ take p r2 = take p r1.
Proof.
  intros Hrun.
  assert (Hn : n <= length r).
  { destruct (kstack_repair_inbounds c v n n 0 0 r r1 p Hrun); lia. }
  pose proof (kstack_repair_kfilter c v n n 0 0 r eq_refl Hn (le_n 0)) as H1.
  rewrite drop_0 in H1.
  destruct (kfilter c v (take n r)) as [out|] eqn:Hout;
    [|rewrite Hrun in H1; discriminate].
  destruct H1 as (r1' & Hrun' & Hlen & Htake).
  rewrite Hrun in Hrun'. injection Hrun' as <- ->.
  simpl in Htake.
  assert (Hp : length out <= length r1).
  { rewrite <- Htake at 1. rewrite length_take. lia. }
  pose proof (kstack_repair_kfilter c v (length out) (length out) 0 0 r1
                eq_refl Hp (le_n 0)) as H2.
  rewrite drop_0, Htake, (kfilter_fixed c v _ out Hout) in H2.
  destruct H2 as (r2 & Hrun2 & _ & Htake2).
  exists r2. split; [exact Hrun2|].
  simpl in Htake2. rewrite Htake2, Htake. reflexivity.
Qed.

Lemma kstack_repair_idempotent_witness :
  let r := [kframe sample_ctx pc_entry; kframe sample_ctx pc_tramp;
            kframe sample_ctx pc_body; kstack_zero] in
  let r1 := [kframe sample_ctx pc_body; kframe sample_ctx pc_tramp;
             kframe sample_ctx pc_body; kstack_zero] in
  kstack_repair sample_ctx false 3 3 0 0 r = Some (r1, 1)
  /\ exists r2,
       kstack_repair sample_ctx false 1 1 0 0 r1 = Some (r2, 1)
       /\ take 1 r2 = take 1 r1.
Proof.
  intros r r1.
  assert (H : kstack_repair sample_ctx false 3 3 0 0 r = Some (r1, 1))
    by (vm_compute; reflexivity).
  split; [exact H | exact (kstack_repair_idempotent sample_ctx false 3 r r1 1 H)].
Defined.

(** The same in verbose mode, where the first run keeps the three frames
    and marks two of them. *)
Example kstack_repair_idempotent_verbose :
  let r := [kframe sample_ctx pc_entry; kframe sample_ctx pc_tramp;
            kframe sample_ctx pc_body; kstack_zero] in
  let r1 := [set_filtered true (kframe sample_ctx pc_entry);
             set_filtered true (kframe sample_ctx pc_tramp);
             kframe sample_ctx pc_body; kstack_zero] in
  kstack_repair sample_ctx true 3 3 0 0 r = Some (r1, 3)
  /\ kstack_repair sample_ctx true 3 3 0 0 r1 = Some (r1, 3).
Proof. split; vm_compute; reflexivity. Qed.

(** Overwriting the cell under a write cursor that trails the read cursor
    changes nothing: the next turn stores into that cell first. *)
Lemma kstack_repair_overwrite (c : ctx) (v : bool) (n k i p : nat)
    (r : list kstack_item) (y : kstack_item) :
  p < i ->
  kstack_repair c v n (S k) i p (<[p := y]> r)
  = kstack_repair c v n (S k) i p r.
Proof.
  intros Hp. cbn [kstack_repair].
  rewrite list_lookup_insert_ne by lia.
  destruct (r !! i) as [ri|]; cbn [mbind option_bind]; [|reflexivity].
  unfold arr_set. rewrite length_insert.
  destruct (p <? length r); [|reflexivity].
  rewrite list_insert_insert_eq. reflexivity.
Qed.

(** The guard of the fix-up holds at a read position where its conditions
    are met, whatever sits under the write cursor behind it. *)
Lemma kstack_bridge_holds (c : ctx) (n i p : nat) (r : list kstack_item)
    (a t b x : kstack_item) :
  p < i \/ (p = i /\ x = a) -> i + 2 < n -> n <= length r ->
  r !! i = Some a -> r !! (i + 1) = Some t -> r !! (i + 2) = Some b ->
  bridge_cond c a t b ->
  kstack_bridge c n i (<[p := x]> r) = Some true.
Proof.
  intros Hp Hi Hn Ha Ht Hb (sa & Hsa & Hsb & Htr & Hoff).
  unfold kstack_bridge.
  destruct (Nat.ltb_spec (i + 2) n); [|lia].
  assert (Hia : (<[p := x]> r) !! i = Some a).
  { destruct Hp as [Hlt | [-> ->]].
    - rewrite list_lookup_insert_ne by lia. exact Ha.
    - apply list_lookup_insert_eq. lia. }
  rewrite (list_lookup_insert_ne r p (i + 1) x) by lia.
  rewrite (list_lookup_insert_ne r p (i + 2) x) by lia.
  rewrite Ht, Hia, Hb. cbn [mbind option_bind].
  rewrite Htr. cbn [mbind option_bind].
  rewrite Hsa, Hsb. rewrite bool_decide_eq_true_2 by reflexivity.
  cbn [mbind option_bind]. rewrite Hoff. reflexivity.
Qed.

(** C4, amended. Where the fix-up conditions hold at read position [i]
    (frames [i] and [i + 2] have the same symbol, frame [i + 1] is a
    trampoline, frame [i] sits [FTRACE_OFFSET] past its symbol): without
    [verbose] the pass drops frames [i] and [i + 1] and goes on at frame
    [i + 2] with the write cursor where it was (given that [is_bpf_tramp]
    can classify the bridged symbol); with [verbose] it keeps frame [i]
    marked filtered and goes on at frame [i + 1]. The fexit trace of the
    code's comment, outermost first [+0x5, trampoline, +0x3f] (the
    specification's list read as captured, innermost first), is left as the
    single frame [+0x3f] without [verbose], and with [verbose] as three
    frames of which the first and the trampoline are marked. *)
Theorem kstack_repair_fexit_bridge :
  (forall (c : ctx) (n k i p : nat) (r : list kstack_item)
          (a t b : kstack_item),
      p <= i -> i + 3 + k = n -> n <= length r ->
      r !! i = Some a -> r !! (i + 1) = Some t -> r !! (i + 2) = Some b ->
      bridge_cond c a t b ->
      (is_Some (is_bpf_tramp c b) ->
       kstack_repair c false n (3 + k) i p r
       = kstack_repair c false n (1 + k) (i + 2) p r)
      /\ kstack_repair c true n (3 + k) i p r
         = kstack_repair c true n (2 + k) (i + 1) (p + 1)
             (<[p := set_filtered true a]> r))
  /\ (let s := sample_record [] [] [] 0 0 0 0 [pc_body; pc_tramp; pc_entry] in
      let buf := replicate 4 kstack_zero in
      (exists r', filter_kstack sample_ctx quiet buf s = Some (r', 1%Z)
                  /\ take 1 r' = [kframe sample_ctx pc_body])
      /\ (exists r', filter_kstack sample_ctx chatty buf s = Some (r', 3%Z)
                     /\ take 3 r'
                        = [set_filtered true (kframe sample_ctx pc_entry);
                           set_filtered true (kframe sample_ctx pc_tramp);
                           kframe sample_ctx pc_body])).
Proof.
  split.
  - intros c n k i p r a t b Hp Hik Hn Ha Ht Hb Hcond.
    pose proof Hcond as (sa & Hsa & Hsb & Htr & Hoff).
    assert (Hst : exists st, ksym_of t = Some st).
    { unfold is_bpf_tramp in Htr. destruct (ksym_of t); [eauto | discriminate]. }
    destruct Hst as [st Hst].
    assert (Hbr : kstack_bridge c n i (<[p := a]> r) = Some true).
    { apply (kstack_bridge_holds c n i p r a t b a); try assumption; try lia.
      destruct (decide (p = i)); [right; auto | left; lia]. }
    split.
    + (* without verbose *)
      intros [tb Htb].
      change (3 + k) with (S (S (S k))). change (1 + k) with (S k).
      remember (kstack_repair c false n (S k) (i + 2) p r) as goes_on eqn:Hgo.
      (* the turn at frame [i] *)
      remember (S (S k)) as k2 eqn:Hk2.
      cbn [kstack_repair]. rewrite Ha. cbn [mbind option_bind].
      rewrite arr_set_ok by lia. cbn [mbind option_bind].
      rewrite (list_lookup_insert_eq r p a) by lia. cbn [mbind option_bind].
      rewrite Hsa, Hbr. cbn [mbind option_bind].
      rewrite (list_lookup_insert_ne r p (i + 2) a) by lia.
      rewrite Hb. cbn [mbind option_bind].
      rewrite arr_set_ok by (rewrite length_insert; lia).
      cbn [mbind option_bind]. rewrite list_insert_insert_eq.
      (* the turn at the trampoline *)
      subst k2. remember (S k) as k1 eqn:Hk1.
      cbn [kstack_repair].
      rewrite (list_lookup_insert_ne r p (S i) b) by lia.
      replace (r !! S i) with (Some t) by (rewrite <- Ht; f_equal; lia).
      cbn [mbind option_bind].
      rewrite arr_set_ok by (rewrite length_insert; lia).
      cbn [mbind option_bind]. rewrite list_insert_insert_eq.
      rewrite (list_lookup_insert_eq r p t) by lia. cbn [mbind option_bind].
      rewrite Hst.
      assert (Hsup : kstack_suppress c (S i) (<[p := t]> r) = Some true).
      { unfold kstack_suppress. rewrite list_lookup_insert_ne by lia.
        replace (S i) with (i + 1) by lia. rewrite Ht. cbn [mbind option_bind].
        rewrite Htr. reflexivity. }
      assert (Hnext : forall y,
                 kstack_repair c false n k1 (S (S i)) p (<[p := y]> r)
                 = goes_on).
      { intros y. replace (S (S i)) with (i + 2) by lia. subst k1 goes_on.
        apply kstack_repair_overwrite. lia. }
      assert (Hb' : (<[p := t]> r) !! (S i + 1) = Some b).
      { rewrite list_lookup_insert_ne by lia.
        replace (S i + 1) with (i + 2) by lia. exact Hb. }
      (* the suppression of the trampoline, to which every path leads *)
      assert (Hdrop :
                (sup ← kstack_suppress c (S i) (<[p := t]> r);
                 if (sup : bool)
                 then if S i + 1 <? n
                      then r3 ← <[p := t]> r !! (S i + 1);
                           r0 ← arr_set (<[p := t]> r) p r3;
                           kstack_repair c false n k1 (S (S i)) p r0
                      else kstack_repair c false n k1 (S (S i)) p
                             (<[p := t]> r)
                 else kstack_repair c false n k1 (S (S i)) (S p)
                        (<[p := t]> r))
                = goes_on).
      { rewrite Hsup. cbn [mbind option_bind].
        destruct (Nat.ltb_spec (S i + 1) n); [|lia].
        rewrite Hb'. cbn [mbind option_bind].
        rewrite arr_set_ok by (rewrite length_insert; lia).
        cbn [mbind option_bind]. rewrite list_insert_insert_eq.
        apply Hnext. }
      destruct (kstack_bridge c n (S i) (<[p := t]> r)) as [[|]|] eqn:Hbr2;
        cbn [mbind option_bind].
      * (* the trampoline starts a fix-up of its own *)
        assert (Hlt : S i + 2 < n).
        { unfold kstack_bridge in Hbr2.
          destruct (Nat.ltb_spec (S i + 2) n); [assumption | discriminate]. }
        destruct (lookup_lt_is_Some_2 r (S i + 2) ltac:(lia)) as [d Hd].
        rewrite (list_lookup_insert_ne r p (S i + 2) t) by lia.
        rewrite Hd. cbn [mbind option_bind].
        rewrite arr_set_ok by (rewrite length_insert; lia).
        cbn [mbind option_bind]. rewrite list_insert_insert_eq.
        apply Hnext.
      * exact Hdrop.
      * (* the guard is always defined here *)
        exfalso. unfold kstack_bridge in Hbr2.
        destruct (Nat.ltb_spec (S i + 2) n) as [Hlt | Hge]; [|discriminate].
        rewrite Hb' in Hbr2. cbn [mbind option_bind] in Hbr2.
        rewrite Htb in Hbr2. cbn [mbind option_bind] in Hbr2.
        destruct tb; [|discriminate].
        destruct (lookup_lt_is_Some_2 r (S i + 2) ltac:(lia)) as [d Hd].
        rewrite (list_lookup_insert_ne r p (S i) t) in Hbr2 by lia.
        replace (r !! S i) with (Some t) in Hbr2
          by (rewrite <- Ht; f_equal; lia).
        rewrite (list_lookup_insert_ne r p (S i + 2) t) in Hbr2 by lia.
        rewrite Hd in Hbr2. cbn [mbind option_bind] in Hbr2.
        destruct (bool_decide (ksym_of t = ksym_of d)); [|discriminate].
        rewrite Hst in Hbr2. discriminate.
    + (* with verbose *)
      change (3 + k) with (S (2 + k)). remember (2 + k) as k2 eqn:Hk2.
      cbn [kstack_repair]. rewrite Ha. cbn [mbind option_bind].
      rewrite arr_set_ok by lia. cbn [mbind option_bind].
      rewrite (list_lookup_insert_eq r p a) by lia. cbn [mbind option_bind].
      rewrite Hsa, Hbr. cbn [mbind option_bind].
      rewrite arr_set_ok by (rewrite length_insert; lia).
      cbn [mbind option_bind]. rewrite list_insert_insert_eq.
      replace (S i) with (i + 1) by lia. replace (S p) with (p + 1) by lia.
      reflexivity.
  - split; eexists; (split; [vm_compute; reflexivity | reflexivity]).
Qed.

Lemma kstack_repair_fexit_bridge_witness :
  let a := kframe sample_ctx pc_entry in
  let t := kframe sample_ctx pc_tramp in
  let b := kframe sample_ctx pc_body in
  let r := [a; t; b; kstack_zero] in
  bridge_cond sample_ctx a t b
  /\ is_Some (is_bpf_tramp sample_ctx b)
  /\ kstack_repair sample_ctx false 3 (3 + 0) 0 0 r
     = kstack_repair sample_ctx false 3 (1 + 0) (0 + 2) 0 r
  /\ kstack_repair sample_ctx true 3 (3 + 0) 0 0 r
     = kstack_repair sample_ctx true 3 (2 + 0) (0 + 1) (0 + 1)
         (<[0 := set_filtered true a]> r).
Proof.
  intros a t b r.
  assert (Hc : bridge_cond sample_ctx a t b).
  { exists 0. split; [reflexivity|]. split; [reflexivity|].
    split; [vm_compute; reflexivity | vm_compute; reflexivity]. }
  assert (Hb : is_Some (is_bpf_tramp sample_ctx b)).
  { exists false. vm_compute. reflexivity. }
  destruct kstack_repair_fexit_bridge as [Hgen _].
  destruct (Hgen sample_ctx 3 0 0 0 r a t b (le_n 0) eq_refl
              ltac:(simpl; lia) eq_refl eq_refl eq_refl Hc) as [Hq Hv].
  split; [exact Hc|]. split; [exact Hb|].
  split; [exact (Hq Hb) | exact Hv].
Defined.

(** C4 as stated fails on its scenario: taken outermost first as listed,
    [+0x3f, trampoline, +0x5] (captured as [+0x5, trampoline, +0x3f]), the
    trace does not meet the fix-up conditions, since its first frame is
    0x3f past the symbol; only the trampoline is suppressed. Two frames are
    left without [verbose], and with [verbose] the first frame is not
    marked. *)
Lemma kstack_fexit_scenario_counterexample :
  let s := sample_record [] [] [] 0 0 0 0 [pc_entry; pc_tramp; pc_body] in
  let buf := replicate 4 kstack_zero in
  (exists r', filter_kstack sample_ctx quiet buf s = Some (r', 2%Z)
              /\ take 2 r' = [kframe sample_ctx pc_body;
                              kframe sample_ctx pc_entry])
  /\ (exists r', filter_kstack sample_ctx chatty buf s = Some (r', 3%Z)
                 /\ take 3 r' = [kframe sample_ctx pc_body;
                                 set_filtered true (kframe sample_ctx pc_tramp);
                                 kframe sample_ctx pc_entry])
  /\ ~ (exists r', filter_kstack sample_ctx quiet buf s = Some (r', 1%Z))
  /\ ~ bridge_cond sample_ctx (kframe sample_ctx pc_body)
         (kframe sample_ctx pc_tramp) (kframe sample_ctx pc_entry).
Proof.
  intros s buf.
  split; [eexists; split; [vm_compute; reflexivity | reflexivity]|].
  split; [eexists; split; [vm_compute; reflexivity | reflexivity]|].
  split.
  - intros [r' H]. vm_compute in H. discriminate.
  - intros (sa & Hsa & _ & _ & Hoff).
    vm_compute in Hsa. injection Hsa as <-. vm_compute in Hoff. discriminate.
Qed.

End KernelStackFilter.

(** ** The whole filter and the whole handler *)

Section WholePipeline.
Local Open Scope nat_scope.

(** The first loop of [filter_kstack] stores the looked-up frames in
    reverse order and touches nothing else. *)
Lemma kstack_reverse_spec (c : ctx) (s : call_stack) (n k : nat) :
  forall (i : nat) (r : list kstack_item),
    i + k = n -> n <= length r -> n <= length (kstack s) ->
    exists r',
      kstack_reverse c s n k i r = Some r'
      /\ length r' = length r
      /\ (forall j, n - i <= j -> r' !! j = r !! j)
      /\ (forall i', i <= i' < n ->
          exists a, kstack s !! i' = Some a
                    /\ r' !! (n - i' - 1) = Some (kframe c a)).
Proof.
  induction k as [|k IH]; intros i r Hik Hn Hks.
  - exists r. simpl. repeat split; auto. intros i' Hi'. lia.
  - destruct (lookup_lt_is_Some_2 (kstack s) i ltac:(lia)) as [a Ha].
    cbn [kstack_reverse]. rewrite Ha. cbn [mbind option_bind].
    rewrite arr_set_ok by lia. cbn [mbind option_bind].
    destruct (IH (S i) (<[n - i - 1 := kframe c a]> r) ltac:(lia)
                ltac:(rewrite length_insert; lia) Hks)
      as (r' & Hrun & Hlen & Hout & Hin).
    exists r'. rewrite length_insert in Hlen.
    split; [exact Hrun|]. split; [exact Hlen|]. split.
    + intros j Hj. rewrite Hout by lia. apply list_lookup_insert_ne. lia.
    + intros i' Hi'. destruct (decide (i' = i)) as [-> | Hne].
      * exists a. split; [exact Ha|].
        rewrite Hout by lia. apply list_lookup_insert_eq. lia.
      * apply Hin. lia.
Qed.

Lemma kstack_reverse_take (c : ctx) (s : call_stack) (n : nat)
    (r r' : list kstack_item) :
  n <= length r -> n <= length (kstack s) ->
  kstack_reverse c s n n 0 r = Some r' ->
  take n r' = reverse (kframe c <$> take n (kstack s)).
Proof.
  intros Hn Hks Hrun.
  destruct (kstack_reverse_spec c s n n 0 r eq_refl Hn Hks)
    as (r'' & Hrun' & Hlen & _ & Hin).
  rewrite Hrun in Hrun'. injection Hrun' as <-.
  apply list_eq. intros j.
  destruct (decide (j < n)) as [Hj | Hj].
  - rewrite lookup_take_lt by lia.
    rewrite reverse_lookup by (rewrite length_fmap, length_take; lia).
    rewrite length_fmap, length_take, list_lookup_fmap.
    replace (n `min` length (kstack s)) with n by lia.
    rewrite lookup_take_lt by lia.
    destruct (Hin (n - S j) ltac:(lia)) as (a & Ha & Hr).
    rewrite Ha. replace (n - (n - S j) - 1) with j in Hr by lia.
    exact Hr.
  - rewrite lookup_take_ge by lia. symmetry. apply lookup_ge_None.
    rewrite length_reverse, length_fmap, length_take. lia.
Qed.

(** [filter_kstack] is [kfilter] on the looked-up trace in call order. *)
Theorem filter_kstack_kfilter (c : ctx) (e : env) (r : list kstack_item)
    (s : call_stack) :
  let n := Z.to_nat (kstack_cnt s) in
  n <= length r -> n <= length (kstack s) ->
  match kfilter c (verbose e) (reverse (kframe c <$> take n (kstack s))) with
  | None => filter_kstack c e r s = None
  | Some out =>
      exists r',
        filter_kstack c e r s = Some (r', Z.of_nat (length out))
        /\ length r' = length r
        /\ take (length out) r' = out
  end.
Proof.
  intros n Hn Hks. unfold filter_kstack. fold n.
  destruct (kstack_reverse_spec c s n n 0 r eq_refl Hn Hks)
    as (r1 & Hrun & Hlen & _ & _).
  rewrite Hrun. cbn [mbind option_bind].
  pose proof (kstack_repair_kfilter c (verbose e) n n 0 0 r1 eq_refl
                ltac:(lia) (le_n 0)) as Hrep.
  rewrite drop_0, (kstack_reverse_take c s n r r1 Hn Hks Hrun) in Hrep.
  destruct (kfilter c (verbose e) _) as [out|].
  - destruct Hrep as (r' & Hrun2 & Hlen2 & Htake).
    rewrite Hrun2. cbn [mbind option_bind]. exists r'.
    split; [reflexivity|]. split; [congruence | exact Htake].
  - rewrite Hrep. reflexivity.
Qed.

Lemma kfilter_defined (c : ctx) (v : bool) (l : list kstack_item) :
  names_readable c -> is_Some (kfilter c v l).
Proof.
  intros Hnames. induction l as [|a rest [out IH]]; cbn [kfilter]; [eauto|].
  rewrite IH.
  assert (Hf : is_Some (kfilter_frame c v a rest)).
  { unfold kfilter_frame. destruct (ksym_of a) as [sa|] eqn:Hsa; [|eauto].
    assert (Hs : is_Some (kfilter_suppress c a)).
    { unfold kfilter_suppress.
      destruct (Hnames a) as [[tr ->] [pr ->]]. cbn [mbind option_bind].
      destruct tr; [eauto|]. destruct pr; [eauto|]. rewrite Hsa. eauto. }
    assert (Hb : is_Some (kfilter_bridge c a rest)).
    { unfold kfilter_bridge. destruct rest as [|t [|b rest']]; eauto.
      destruct (Hnames t) as [[tr ->] _]. cbn [mbind option_bind].
      destruct tr; [|eauto].
      destruct (bool_decide _); [|eauto]. rewrite Hsa. eauto. }
    unfold kfilter_hit. destruct Hb as [bb ->]. cbn [mbind option_bind].
    destruct bb; [eauto|]. destruct Hs as [sb ->]. eauto. }
  destruct Hf as [d ->]. cbn [mbind option_bind]. eauto.
Qed.

Lemma merge_flush_total (ks : list kstack_item) (k : nat) :
  forall j, j + k <= length ks -> is_Some (merge_flush ks k j).
Proof.
  induction k as [|k IH]; intros j Hj; cbn [merge_flush]; [eauto|].
  destruct (lookup_lt_is_Some_2 ks j ltac:(lia)) as [kitem ->].
  cbn [mbind option_bind].
  destruct (IH (S j) ltac:(lia)) as [evs ->]. eauto.
Qed.

End WholePipeline.

Section HandlerReturns.
Context `{HDR : retsnoop_h}.

(** On a record that fits, [filter_fstack] returns, and its count lies
    within the buffer. *)
Lemma filter_fstack_defined (c : ctx) (r : list fstack_item)
    (s : call_stack) :
  fstack_fits r s ->
  exists r' cnt,
    filter_fstack c r s = Some (r', cnt)
    /\ 0 <= cnt <= Z.of_nat (length r').
Proof.
  intros (Hmd & Hsmd & Hids & Hres & Hlat & Hr & Hst).
  destruct (fstack_primary_spec c s (Z.to_nat (max_depth s)) 0 0%nat r)
    as (r1 & Hrun & Hlen1 & _ & _); try lia.
  unfold filter_fstack. rewrite Hrun. cbn [mbind option_bind].
  destruct (negb (wrap_u32 (max_depth s + 1) =? saved_depth s)) eqn:Htrig.
  - exists r1, (Z.of_nat (0 + Z.to_nat (max_depth s))). split; [reflexivity|].
    lia.
  - assert (Hstit : stitches s = true).
    { unfold stitches. destruct (_ =? _); [reflexivity | discriminate]. }
    destruct (Hst Hstit) as (Hsi & Hsr & Hsl & Hsb).
    unfold stitches in Hstit. rewrite wrap_u32_id in Hstit by lia.
    apply Z.eqb_eq in Hstit.
    rewrite cast_int_id by lia.
    replace (saved_depth s - 1) with (max_depth s) by lia.
    rewrite (wrap_u32_id (max_depth s)) by lia.
    destruct (Z_le_gt_dec (saved_max_depth s) (max_depth s)) as [Hle | Hgt].
    + replace (Z.to_nat (saved_max_depth s - max_depth s)) with 0%nat by lia.
      cbn [fstack_saved mbind option_bind].
      exists r1, (Z.of_nat (0 + Z.to_nat (max_depth s))). split; [reflexivity|].
      lia.
    + destruct (fstack_saved_spec c s
                  (Z.to_nat (saved_max_depth s - max_depth s))
                  (max_depth s) (0 + Z.to_nat (max_depth s)) r1)
        as (r2 & Hrun2 & Hlen2 & _ & _); try lia.
      rewrite Hrun2. cbn [mbind option_bind].
      eexists r2, _. split; [reflexivity|]. lia.
Qed.

(** An error record that fits the buffers, over a symbol table with
    readable names, is processed to the end: [handle_event] returns 0. *)
Theorem handle_event_returns (c : ctx) (e : env) (b : hbufs)
    (s : call_stack) :
  fstack_fits (fstack_buf b) s ->
  (Z.to_nat (kstack_cnt s) <= length (kstack_buf b))%nat ->
  (Z.to_nat (kstack_cnt s) <= length (kstack s))%nat ->
  names_readable c ->
  exists b' out, handle_event c e b s = Some (b', out, 0).
Proof.
  intros Hfit Hkb Hks Hnames. unfold handle_event.
  destruct (is_err s); cbn [negb]; [|eauto].
  destruct (filter_fstack_defined c (fstack_buf b) s Hfit)
    as (fs & fstack_n & Hf & Hfn).
  rewrite Hf. cbn [mbind option_bind].
  destruct (Z.ltb_spec fstack_n 0); [lia|].
  pose proof (filter_kstack_kfilter c e (kstack_buf b) s Hkb Hks) as Hk.
  destruct (kfilter_defined c (verbose e)
              (reverse (kframe c <$> take (Z.to_nat (kstack_cnt s)) (kstack s)))
              Hnames) as [kout Hkout].
  rewrite Hkout in Hk. destruct Hk as (ks & Hk & Hklen & Htake).
  rewrite Hk. cbn [mbind option_bind].
  destruct (Z.ltb_spec (Z.of_nat (length kout)) 0); [lia|].
  assert (Hkle : (length kout <= length ks)%nat).
  { rewrite <- Htake at 1. rewrite length_take. lia. }
  destruct (merge_loop_total c fs ks (Z.to_nat fstack_n)
              (Z.to_nat (Z.of_nat (length kout)))
              (Z.to_nat fstack_n + Z.to_nat (Z.of_nat (length kout)))
              ltac:(lia) ltac:(lia) 0%nat 0%nat ltac:(lia) ltac:(lia))
    as (evs & jf & Hm & Hjf).
  rewrite Hm. cbn [mbind option_bind].
  destruct (merge_flush_total ks (Z.to_nat (Z.of_nat (length kout)) - jf) jf
              ltac:(lia)) as [tl ->].
  cbn [mbind option_bind]. eauto.
Qed.

End HandlerReturns.

(** ** The merge prints every frame once *)

Section MergeComplete.
Local Open Scope nat_scope.

Lemma merge_loop_projections (c : ctx) (fs : list fstack_item)
    (ks : list kstack_item) (fn kn fuel : nat) :
  fn <= length fs -> kn <= length ks ->
  forall i j evs jf,
    i <= fn -> j <= kn ->
    merge_loop c fs ks fn kn fuel i j = Some (evs, jf) ->
    j <= jf <= kn
    /\ omap event_fitem evs = drop i (take fn fs)
    /\ omap event_kitem evs = drop j (take jf ks)
    /\ length evs + length (filter (fun ev => event_pair ev = true) evs)
       = (fn - i) + (jf - j).
Proof.
  intros Hfs Hks.
  induction fuel as [|fuel IH]; intros i j evs jf Hi Hj; cbn [merge_loop];
    destruct (Nat.ltb_spec i fn) as [Hlt | Hge]; try discriminate.
  1,3: intros [= <- <-]; split; [lia|];
       rewrite (drop_ge (take fn fs)) by (rewrite length_take; lia);
       rewrite (drop_ge (take j ks)) by (rewrite length_take; lia);
       split; [reflexivity|]; split; [reflexivity|]; simpl; lia.
  intros H.
  destruct (merge_step c fs ks kn i j) as [[[ev i'] j']|] eqn:Hs;
    cbn [mbind option_bind] in H; [|discriminate].
  destruct (merge_loop c fs ks fn kn fuel i' j') as [[evs' jf']|] eqn:Hl;
    cbn [mbind option_bind] in H; [|discriminate].
  injection H as <- <-.
  unfold merge_step in Hs.
  destruct (fs !! i) as [f|] eqn:Hf; cbn [mbind option_bind] in Hs;
    [|discriminate].
  assert (Hdf : drop i (take fn fs) = f :: drop (S i) (take fn fs)).
  { apply drop_S. rewrite lookup_take_lt by lia. exact Hf. }
  destruct (Nat.ltb_spec j kn) as [Hjk | Hjk].
  - destruct (ks !! j) as [k|] eqn:Hk; cbn [mbind option_bind] in Hs;
      [|discriminate].
    destruct (match ksym_of k with Some _ => _ | None => _ end);
      injection Hs as <- <- <-;
      (apply IH in Hl; [|lia|lia]); destruct Hl as (Hjf & Hl1 & Hl2 & Hcnt);
      (assert (Hdk : drop j (take jf' ks) = k :: drop (S j) (take jf' ks))
        by (apply drop_S; rewrite lookup_take_lt by lia; exact Hk));
      (split; [lia|]); cbn [omap list_omap event_fitem event_kitem].
    + rewrite Hl1, Hl2, Hdk. split; [reflexivity|]. split; [reflexivity|].
      rewrite filter_cons_False by (cbn; discriminate).
      cbn [length]. lia.
    + rewrite Hl1, Hl2, Hdk, Hdf. split; [reflexivity|]. split; [reflexivity|].
      rewrite filter_cons_True by reflexivity.
      cbn [length]. lia.
  - injection Hs as <- <- <-.
    apply IH in Hl; [|lia|lia]. destruct Hl as (Hjf & Hl1 & Hl2 & Hcnt).
    split; [lia|]. cbn [omap list_omap event_fitem event_kitem].
    rewrite Hl1, Hl2, Hdf. split; [reflexivity|]. split; [reflexivity|].
    rewrite filter_cons_False by (cbn; discriminate).
    cbn [length]. lia.
Qed.

Lemma merge_flush_projections (ks : list kstack_item) (k : nat) :
  forall j evs,
    merge_flush ks k j = Some evs ->
    omap event_fitem evs = []
    /\ omap event_kitem evs = drop j (take (j + k) ks)
    /\ length evs = k
    /\ filter (fun ev => event_pair ev = true) evs = [].
Proof.
  induction k as [|k IH]; intros j evs; cbn [merge_flush].
  - intros [= <-]. rewrite Nat.add_0_r.
    rewrite drop_ge by (rewrite length_take; lia). auto.
  - intros H.
    destruct (ks !! j) as [kitem|] eqn:Hk; cbn [mbind option_bind] in H;
      [|discriminate].
    destruct (merge_flush ks k (S j)) as [evs'|] eqn:Hf;
      cbn [mbind option_bind] in H; [|discriminate].
    injection H as <-. destruct (IH _ _ Hf) as (H1 & H2 & H3 & H4).
    cbn [omap list_omap event_fitem event_kitem length].
    rewrite H1, H2, H3.
    rewrite filter_cons_False by (cbn; discriminate). rewrite H4.
    replace (S j + k) with (j + S k) by lia.
    rewrite (drop_S (take (j + S k) ks) kitem j)
      by (rewrite lookup_take_lt by lia; exact Hk).
    auto.
Qed.

(** X1. The merge of [handle_event] prints every logical item and every
    kernel item exactly once and in order: read off the [print_item] calls
    of the loop and of the flush after it, the logical items are the
    [fn] items of the logical stack and the kernel items the [kn] items of
    the kernel stack; and the number of calls is [fn + kn] less the number
    of combined lines. *)
Theorem merge_prints_each_frame_once (c : ctx) (fs : list fstack_item)
    (ks : list kstack_item) (fn kn : nat) :
  fn <= length fs -> kn <= length ks ->
  exists evs jf tl,
    merge_loop c fs ks fn kn (fn + kn) 0 0 = Some (evs, jf)
    /\ merge_flush ks (kn - jf) jf = Some tl
    /\ omap event_fitem (evs ++ tl) = take fn fs
    /\ omap event_kitem (evs ++ tl) = take kn ks
    /\ length (evs ++ tl)
       + length (filter (fun ev => event_pair ev = true) (evs ++ tl))
       = fn + kn.
Proof.
  intros Hfs Hks.
  destruct (merge_loop_total c fs ks fn kn (fn + kn) Hfs Hks 0 0)
    as (evs & jf & Hrun & Hjf); try lia.
  destruct (merge_loop_projections c fs ks fn kn (fn + kn) Hfs Hks
              0 0 evs jf ltac:(lia) ltac:(lia) Hrun)
    as (_ & Hl & Hk & Hcnt).
  destruct (merge_flush_total ks (kn - jf) jf ltac:(lia)) as [tl Htl].
  destruct (merge_flush_projections ks (kn - jf) jf tl Htl)
    as (Hl' & Hk' & Hlen' & Hp').
  exists evs, jf, tl. split; [exact Hrun|]. split; [exact Htl|].
  rewrite !omap_app, Hl, Hl', Hk, Hk', !drop_0, app_nil_r.
  split; [reflexivity|]. split.
  - replace (jf + (kn - jf)) with kn by lia.
    rewrite <- (take_drop jf (take kn ks)) at 2.
    rewrite take_take. replace (jf `min` kn) with jf by lia. reflexivity.
  - rewrite filter_app, Hp', app_nil_r, length_app, Hlen'. lia.
Qed.

Lemma merge_prints_each_frame_once_witness :
  let fa := {| name := "A"; res := -22; lat := 5000;
               finished := true; stitched := false |} in
  let fb := {| name := "B"; res := 0; lat := 7000;
               finished := true; stitched := false |} in
  let fs := [fa; fb] in
  let ks := [kframe sample_ctx 0x81200010; kframe sample_ctx 0x10;
             kframe sample_ctx 0x81300020] in
  2 <= length fs /\ 3 <= length ks
  /\ exists evs jf tl,
       merge_loop sample_ctx fs ks 2 3 (2 + 3) 0 0 = Some (evs, jf)
       /\ merge_flush ks (3 - jf) jf = Some tl
       /\ omap event_fitem (evs ++ tl) = take 2 fs
       /\ omap event_kitem (evs ++ tl) = take 3 ks
       /\ length (evs ++ tl)
          + length (filter (fun ev => event_pair ev = true) (evs ++ tl))
          = 2 + 3.
Proof.
  intros fa fb fs ks.
  assert (Hfs : 2 <= length fs) by (simpl; lia).
  assert (Hks : 3 <= length ks) by (simpl; lia).
  split; [exact Hfs|]. split; [exact Hks|].
  exact (merge_prints_each_frame_once sample_ctx fs ks 2 3 Hfs Hks).
Defined.

End MergeComplete.

(** ** What the kernel-stack filter keeps, marks and removes *)

Section KernelStackOutput.
Local Open Scope nat_scope.

(** A first loop that returns has stayed inside the trace and the
    buffer. *)
Lemma kstack_reverse_inbounds (c : ctx) (s : call_stack) (n k : nat) :
  forall (i : nat) (r r' : list kstack_item),
    i + k = n ->
    kstack_reverse c s n k i r = Some r' ->
    k = 0 \/ (n - i <= length r /\ n <= length (kstack s)).
Proof.
  induction k as [|k IH]; intros i r r' Hik H; [left; reflexivity|].
  right. cbn [kstack_reverse] in H.
  destruct (kstack s !! i) as [a|] eqn:Ha; cbn [mbind option_bind] in H;
    [|discriminate].
  apply lookup_lt_Some in Ha.
  destruct (arr_set r (n - i - 1) (kframe c a)) as [r1|] eqn:Hset;
    cbn [mbind option_bind] in H; [|discriminate].
  apply arr_set_inv in Hset. destruct Hset as [Hlt ->].
  apply IH in H; [|lia]. rewrite length_insert in H.
  destruct H as [-> | [H1 H2]]; lia.
Qed.

(** The result of [filter_kstack], read at the list level. *)
Lemma filter_kstack_output (c : ctx) (e : env) (r r' : list kstack_item)
    (s : call_stack) (p : Z) :
  filter_kstack c e r s = Some (r', p) ->
  exists out,
    kfilter c (verbose e) (kstack_frames c s) = Some out
    /\ p = Z.of_nat (length out)
    /\ take (length out) r' = out
    /\ length r' = length r.
Proof.
  intros H.
  assert (Hb : Z.to_nat (kstack_cnt s) <= length r
               /\ Z.to_nat (kstack_cnt s) <= length (kstack s)).
  { unfold filter_kstack in H.
    destruct (kstack_reverse c s _ _ 0 r) as [r1|] eqn:Hrev;
      cbn [mbind option_bind] in H; [|discriminate].
    apply kstack_reverse_inbounds in Hrev; [|reflexivity]. lia. }
  destruct Hb as [Hr Hks].
  pose proof (filter_kstack_kfilter c e r s Hr Hks) as Hk.
  fold (kstack_frames c s) in Hk.
  destruct (kfilter c (verbose e) (kstack_frames c s)) as [out|];
    [|rewrite Hk in H; discriminate].
  destruct Hk as (r'' & Hrun & Hlen & Htake).
  rewrite Hrun in H. injection H as <- <-.
  exists out. auto.
Qed.


Lemma kstack_frames_unfiltered (c : ctx) (s : call_stack) :
  Forall (fun x => filtered x = false) (kstack_frames c s).
Proof.
  unfold kstack_frames. apply Forall_reverse, Forall_fmap, Forall_forall.
  intros a _. reflexivity.
Qed.


(** Without [verbose] each frame is kept as it is or dropped. *)
Lemma kfilter_quiet_sublist (c : ctx) (l : list kstack_item) :
  forall out, kfilter c false l = Some out -> out `sublist_of` l.
Proof.
  induction l as [|a rest IH]; intros out; cbn [kfilter].
  - intros [= <-]. constructor.
  - intros H.
    destruct (kfilter_frame c false a rest) as [d|] eqn:Hd;
      cbn [mbind option_bind] in H; [|discriminate].
    destruct (kfilter c false rest) as [out'|]; cbn [mbind option_bind] in H;
      [|discriminate].
    injection H as <-. specialize (IH out' eq_refl).
    unfold kfilter_frame in Hd. destruct (ksym_of a).
    + destruct (kfilter_hit c a rest) as [[|]|]; cbn [mbind option_bind] in Hd;
        [| |discriminate]; injection Hd as <-; cbn [kfilter_mark].
      * apply sublist_cons. exact IH.
      * apply sublist_skip. exact IH.
    + injection Hd as <-. apply sublist_skip. exact IH.
Qed.

Lemma kfilter_unresolved (c : ctx) (v : bool) (l : list kstack_item) :
  forall out,
    kfilter c v l = Some out -> filter unresolved out = filter unresolved l.
Proof.
  induction l as [|a rest IH]; intros out; cbn [kfilter].
  - intros [= <-]. reflexivity.
  - intros H.
    destruct (kfilter_frame c v a rest) as [d|] eqn:Hd;
      cbn [mbind option_bind] in H; [|discriminate].
    destruct (kfilter c v rest) as [out'|]; cbn [mbind option_bind] in H;
      [|discriminate].
    injection H as <-. specialize (IH out' eq_refl).
    unfold kfilter_frame in Hd. destruct (ksym_of a) as [sym|] eqn:Hsym.
    + assert (Hres : ~ unresolved a) by (unfold unresolved; congruence).
      rewrite (filter_cons_False _ a rest Hres).
      destruct (kfilter_hit c a rest) as [[|]|]; cbn [mbind option_bind] in Hd;
        [| |discriminate]; injection Hd as <-.
      * destruct v; cbn [kfilter_mark]; [|exact IH].
        rewrite filter_cons_False; [exact IH|].
        unfold unresolved. cbn. congruence.
      * rewrite filter_cons_False by exact Hres. exact IH.
    + injection Hd as <-.
      rewrite !filter_cons_True by exact Hsym. f_equal. exact IH.
Qed.


(** X3. Without [verbose], the frames that [filter_kstack] returns are a
    sublist of the looked-up, reversed trace: frames are dropped but never
    changed, reordered or invented; none of them is marked [filtered], and
    the count does not exceed the count of the trace. *)
Theorem filter_kstack_quiet_sublist (c : ctx) (e : env)
    (r r' : list kstack_item) (s : call_stack) (p : Z) :
  verbose e = false ->
  filter_kstack c e r s = Some (r', p) ->
  take (Z.to_nat p) r' `sublist_of` kstack_frames c s
  /\ Forall (fun x => filtered x = false) (take (Z.to_nat p) r')
  /\ (0 <= p <= Z.of_nat (length (kstack_frames c s)))%Z.
Proof.
  intros Hv H.
  destruct (filter_kstack_output c e r r' s p H) as (out & Hk & -> & Htake & _).
  rewrite Hv in Hk. apply kfilter_quiet_sublist in Hk.
  rewrite Nat2Z.id, Htake. split; [exact Hk|]. split.
  - pose proof (kstack_frames_unfiltered c s) as Hall.
    rewrite Forall_forall in Hall. apply Forall_forall. intros x Hx.
    apply Hall. eapply elem_of_sublist; [exact Hx | exact Hk].
  - apply sublist_length in Hk. lia.
Qed.

(** X4. Without [verbose], no frame that [filter_kstack] returns belongs
    to the instrumentation: a returned frame that has a symbol is not a
    trampoline, not a BPF program, and not [bpf_get_stack_raw_tp]. *)
Theorem filter_kstack_quiet_clean (c : ctx) (e : env)
    (r r' : list kstack_item) (s : call_stack) (p : Z) :
  verbose e = false ->
  filter_kstack c e r s = Some (r', p) ->
  forall j x sym,
    (Z.of_nat j < p)%Z -> r' !! j = Some x -> ksym_of x = Some sym ->
    is_bpf_tramp c x = Some false
    /\ is_bpf_prog c x = Some false
    /\ ks_name (ksym_at c sym) <> "bpf_get_stack_raw_tp"%string.
Proof.
  intros Hv H j x sym Hj Hx Hsym.
  destruct (filter_kstack_output c e r r' s p H) as (out & Hk & -> & Htake & _).
  rewrite Hv in Hk. apply kfilter_quiet_clean in Hk.
  assert (Hin : x ∈ out).
  { rewrite <- Htake. apply elem_of_take. exists j. split; [exact Hx | lia]. }
  rewrite Forall_forall in Hk. destruct (Hk x Hin) as [Hn | Hs]; [congruence|].
  unfold kfilter_suppress in Hs.
  destruct (is_bpf_tramp c x) as [[|]|]; cbn [mbind option_bind] in Hs;
    try discriminate.
  destruct (is_bpf_prog c x) as [[|]|]; cbn [mbind option_bind] in Hs;
    try discriminate.
  rewrite Hsym in Hs. cbn [mbind option_bind] in Hs.
  split; [reflexivity|]. split; [reflexivity|].
  intros Heq. rewrite Heq in Hs. discriminate.
Qed.

(** X5. In either mode [filter_kstack] keeps every unresolved frame: the
    frames without a symbol in its result are those of the reversed trace,
    in the same order and unchanged. *)
Theorem filter_kstack_keeps_unresolved (c : ctx) (e : env)
    (r r' : list kstack_item) (s : call_stack) (p : Z) :
  filter_kstack c e r s = Some (r', p) ->
  filter unresolved (take (Z.to_nat p) r')
  = filter unresolved (kstack_frames c s).
Proof.
  intros H.
  destruct (filter_kstack_output c e r r' s p H) as (out & Hk & -> & Htake & _).
  rewrite Nat2Z.id, Htake. eapply kfilter_unresolved. exact Hk.
Qed.


Lemma filter_kstack_quiet_sublist_witness :
  verbose quiet = false
  /\ filter_kstack sample_ctx quiet sample_kbuf sample_trace
     = Some (sample_quiet_out, 2%Z)
  /\ take (Z.to_nat 2) sample_quiet_out
     `sublist_of` kstack_frames sample_ctx sample_trace
  /\ Forall (fun x => filtered x = false) (take (Z.to_nat 2) sample_quiet_out)
  /\ (0 <= 2 <= Z.of_nat (length (kstack_frames sample_ctx sample_trace)))%Z.
Proof.
  assert (H : filter_kstack sample_ctx quiet sample_kbuf sample_trace
              = Some (sample_quiet_out, 2%Z)) by (vm_compute; reflexivity).
  split; [reflexivity|]. split; [exact H|].
  exact (filter_kstack_quiet_sublist sample_ctx quiet sample_kbuf
           sample_quiet_out sample_trace 2%Z eq_refl H).
Defined.

Lemma filter_kstack_quiet_clean_witness :
  verbose quiet = false
  /\ filter_kstack sample_ctx quiet sample_kbuf sample_trace
     = Some (sample_quiet_out, 2%Z)
  /\ (1 < 2)%Z
  /\ sample_quiet_out !! 1 = Some (kframe sample_ctx pc_body)
  /\ ksym_of (kframe sample_ctx pc_body) = Some 0
  /\ is_bpf_tramp sample_ctx (kframe sample_ctx pc_body) = Some false
  /\ is_bpf_prog sample_ctx (kframe sample_ctx pc_body) = Some false
  /\ ks_name (ksym_at sample_ctx 0) <> "bpf_get_stack_raw_tp"%string.
Proof.
  assert (H : filter_kstack sample_ctx quiet sample_kbuf sample_trace
              = Some (sample_quiet_out, 2%Z)) by (vm_compute; reflexivity).
  split; [reflexivity|]. split; [exact H|]. split; [lia|].
  split; [reflexivity|]. split; [reflexivity|].
  exact (filter_kstack_quiet_clean sample_ctx quiet sample_kbuf
           sample_quiet_out sample_trace 2%Z eq_refl H 1
           (kframe sample_ctx pc_body) 0 ltac:(lia) eq_refl eq_refl).
Defined.

Lemma filter_kstack_keeps_unresolved_witness :
  filter_kstack sample_ctx quiet sample_kbuf sample_trace
  = Some (sample_quiet_out, 2%Z)
  /\ filter unresolved (take (Z.to_nat 2) sample_quiet_out)
     = filter unresolved (kstack_frames sample_ctx sample_trace).
Proof.
  assert (H : filter_kstack sample_ctx quiet sample_kbuf sample_trace
              = Some (sample_quiet_out, 2%Z)) by (vm_compute; reflexivity).
  split; [exact H|].
  exact (filter_kstack_keeps_unresolved sample_ctx quiet sample_kbuf
           sample_quiet_out sample_trace 2%Z H).
Defined.

End KernelStackOutput.

(** ** The name tests look one character too far *)

(** X6. [is_bpf_tramp] and [is_bpf_prog] compare the prefix and then test
    the character at index [sizeof(pfx)], which is the second character
    after the prefix, not the first: the first character after the prefix
    is never looked at, a name with a single character after the prefix is
    not recognised, and for a name that is the bare prefix the test reads
    past the terminating NUL. *)
Theorem name_tests_skip_a_character (c : ctx) (item : kstack_item)
    (p : ksym_ptr) :
  ksym_of item = Some p ->
  (forall c1 c2 rest,
     ks_name (ksym_at c p) = bpf_tramp_pfx +:+ String c1 (String c2 rest) ->
     is_bpf_tramp c item = Some (isdigit c2))
  /\ (forall c1,
        ks_name (ksym_at c p) = bpf_tramp_pfx +:+ String c1 EmptyString ->
        is_bpf_tramp c item = Some false)
  /\ (ks_name (ksym_at c p) = bpf_tramp_pfx -> is_bpf_tramp c item = None)
  /\ (forall c1 c2 rest,
        ks_name (ksym_at c p) = bpf_prog_pfx +:+ String c1 (String c2 rest) ->
        is_bpf_prog c item = Some (isxdigit c2))
  /\ (forall c1,
        ks_name (ksym_at c p) = bpf_prog_pfx +:+ String c1 EmptyString ->
        is_bpf_prog c item = Some false)
  /\ (ks_name (ksym_at c p) = bpf_prog_pfx -> is_bpf_prog c item = None).
Proof.
  intros Hp. unfold is_bpf_tramp, is_bpf_prog. rewrite Hp.
  repeat split.
  - intros c1 c2 rest ->. reflexivity.
  - intros c1 ->. reflexivity.
  - intros ->. reflexivity.
  - intros c1 c2 rest ->. reflexivity.
  - intros c1 ->. reflexivity.
  - intros ->. reflexivity.
Qed.

Lemma name_tests_skip_a_character_witness :
  let item := {| ksym_of := Some O; addr := 0; filtered := false |} in
  ksym_of item = Some O
  /\ is_bpf_tramp (named_ctx "bpf_trampoline_x1") item = Some true
  /\ is_bpf_tramp (named_ctx "bpf_trampoline_7") item = Some false
  /\ is_bpf_tramp (named_ctx "bpf_trampoline_") item = None
  /\ is_bpf_prog (named_ctx "bpf_prog_zf") item = Some true.
Proof.
  intros item.
  assert (Hp : ksym_of item = Some O) by reflexivity.
  split; [exact Hp|].
  split.
  { destruct (name_tests_skip_a_character (named_ctx "bpf_trampoline_x1")
                item O Hp) as (H & _).
    exact (H "x"%char "1"%char EmptyString eq_refl). }
  split.
  { destruct (name_tests_skip_a_character (named_ctx "bpf_trampoline_7")
                item O Hp) as (_ & H & _).
    exact (H "7"%char eq_refl). }
  split.
  { destruct (name_tests_skip_a_character (named_ctx "bpf_trampoline_")
                item O Hp) as (_ & _ & H & _).
    exact (H eq_refl). }
  destruct (name_tests_skip_a_character (named_ctx "bpf_prog_zf")
              item O Hp) as (_ & _ & _ & H & _).
  exact (H "z"%char "f"%char EmptyString eq_refl).
Defined.

(** ** The handler over a run of events *)

Section HandlerRun.
Context `{HDR : retsnoop_h}.

Lemma handle_event_capacity (c : ctx) (e : env) (b b' : hbufs)
    (s : call_stack) (out : list out_event) (ret : Z) :
  handle_event c e b s = Some (b', out, ret) ->
  length (fstack_buf b') = length (fstack_buf b)
  /\ length (kstack_buf b') = length (kstack_buf b).
Proof.
  unfold handle_event. destruct (is_err s); cbn [negb].
  2:{ intros [= <- _ _]. auto. }
  intros H.
  destruct (filter_fstack c (fstack_buf b) s) as [[fs fstack_n]|] eqn:Hf;
    cbn [mbind option_bind] in H; [|discriminate].
  apply filter_fstack_nonneg in Hf. destruct Hf as [Hfn Hfl].
  destruct (Z.ltb_spec fstack_n 0); [lia|].
  destruct (filter_kstack c e (kstack_buf b) s) as [[ks kstack_n]|] eqn:Hk;
    cbn [mbind option_bind] in H; [|discriminate].
  destruct (filter_kstack_output c e _ _ s _ Hk) as (ko & _ & -> & _ & Hkl).
  destruct (Z.ltb_spec (Z.of_nat (length ko)) 0); [lia|].
  destruct (merge_loop _ _ _ _ _ _ _ _) as [[evs j]|]; cbn [mbind option_bind] in H;
    [|discriminate].
  destruct (merge_flush _ _ _) as [tl|]; cbn [mbind option_bind] in H;
    [|discriminate].
  injection H as <- _ _. cbn. auto.
Qed.

Lemma record_fits_capacity (b b' : hbufs) (s : call_stack) :
  length (fstack_buf b') = length (fstack_buf b) ->
  length (kstack_buf b') = length (kstack_buf b) ->
  record_fits b s -> record_fits b' s.
Proof.
  unfold record_fits, fstack_fits. intros -> ->. tauto.
Qed.

(** X7. The handler keeps going: over a symbol table with readable names,
    a run of records that each fit the initial buffers is handled to the
    end; every call returns 0, and the buffers keep their lengths, so that
    the next record finds the capacity the first one found. *)
Theorem handle_events_all_return (c : ctx) (e : env) (ss : list call_stack) :
  names_readable c ->
  forall b,
    Forall (record_fits b) ss ->
    exists b' results,
      handle_events c e b ss = Some (b', results)
      /\ length results = length ss
      /\ Forall (fun r => snd r = 0) results
      /\ length (fstack_buf b') = length (fstack_buf b)
      /\ length (kstack_buf b') = length (kstack_buf b).
Proof.
  intros Hnames. induction ss as [|s ss IH]; intros b Hfits.
  - exists b, []. cbn. auto.
  - apply Forall_cons in Hfits. destruct Hfits as [(Hf & Hkb & Hks) Hrest].
    destruct (handle_event_returns c e b s Hf Hkb Hks Hnames)
      as (b1 & out & Hrun).
    destruct (handle_event_capacity c e b b1 s out 0 Hrun) as [Hc1 Hc2].
    destruct (IH b1) as (b2 & results & Hruns & Hlen & Hzero & Hc3 & Hc4).
    { eapply Forall_impl; [exact Hrest|].
      intros s'. apply record_fits_capacity; assumption. }
    exists b2, ((out, 0) :: results).
    cbn [handle_events]. rewrite Hrun. cbn [mbind option_bind].
    rewrite Hruns. cbn [mbind option_bind].
    split; [reflexivity|]. split; [cbn; lia|].
    split; [constructor; [reflexivity | exact Hzero]|].
    split; congruence.
Qed.

End HandlerRun.

Lemma sample_names_readable : names_readable sample_ctx.
Proof.
  intros x. unfold is_bpf_tramp, is_bpf_prog.
  destruct (ksym_of x) as [[|[|[|[|p]]]]|]; split; eexists; reflexivity.
Qed.

Lemma handle_events_all_return_witness :
  let ss := [sample_stitched; sample_fexit; sample_stitched] in
  names_readable sample_ctx
  /\ Forall (record_fits (@hbufs_init sample_h)) ss
  /\ exists b' results,
       @handle_events sample_h sample_ctx quiet (@hbufs_init sample_h) ss
       = Some (b', results)
       /\ length results = length ss
       /\ Forall (fun r => snd r = 0) results
       /\ length (fstack_buf b') = length (fstack_buf (@hbufs_init sample_h))
       /\ length (kstack_buf b') = length (kstack_buf (@hbufs_init sample_h)).
Proof.
  intros ss.
  assert (Hfit : forall s, s = sample_stitched \/ s = sample_fexit ->
                 record_fits (@hbufs_init sample_h) s).
  { assert (Hle : forall n m : nat, (n <=? m)%nat = true -> (n <= m)%nat)
      by (intros n m; apply Nat.leb_le).
    intros s [-> | ->]; (split; [|split; apply Hle; vm_compute; reflexivity]);
      vm_compute; repeat split; intros; try discriminate; reflexivity. }
  assert (Hall : Forall (record_fits (@hbufs_init sample_h)) ss).
  { repeat constructor; apply Hfit; auto. }
  split; [exact sample_names_readable|]. split; [exact Hall|].
  exact (@handle_events_all_return sample_h sample_ctx quiet ss
           sample_names_readable (@hbufs_init sample_h) Hall).
Defined.

(** ** What the reconstructed stack holds *)

Section ReconstructorContents.
Context `{HDR : retsnoop_h}.

(** X8. On a record that fits, [filter_fstack] returns, and in the buffer
    it leaves: every position below [max_depth] holds the item of the
    primary segment at that position (the function's name, its result,
    sign-extended if flagged, its latency, not stitched); when the trigger
    holds, every position from [max_depth] up to [saved_max_depth] holds
    the item of the saved arrays at that same index, stitched and finished;
    and every item at or beyond the returned count is untouched. *)
Theorem filter_fstack_contents (c : ctx) (r : list fstack_item)
    (s : call_stack) :
  fstack_fits r s ->
  exists r' cnt,
    filter_fstack c r s = Some (r', cnt)
    /\ (forall pos, Z.of_nat pos < max_depth s ->
        exists id v l old,
          func_ids s !! pos = Some id /\ func_res s !! pos = Some v
          /\ func_lat s !! pos = Some l /\ r !! pos = Some old
          /\ r' !! pos = Some (primary_item c s (Z.of_nat pos) id v l old))
    /\ (max_depth s + 1 = saved_depth s ->
        forall pos, max_depth s <= Z.of_nat pos < saved_max_depth s ->
        exists id v l,
          saved_ids s !! pos = Some id /\ saved_res s !! pos = Some v
          /\ saved_lat s !! pos = Some l
          /\ r' !! pos = Some (saved_item c id v l))
    /\ (forall pos, cnt <= Z.of_nat pos -> r' !! pos = r !! pos).
Proof.
  intros Hfit.
  pose proof Hfit as (Hmd & Hsmd & Hids & Hres & Hlat & Hr & Hst).
  destruct (fstack_primary_spec c s (Z.to_nat (max_depth s)) 0 0%nat r)
    as (r1 & Hrun & Hlen1 & Hout1 & Hin1); try lia.
  assert (Hprim : forall r' cnt, filter_fstack c r s = Some (r', cnt) ->
            forall pos, Z.of_nat pos < max_depth s ->
            exists id v l old,
              func_ids s !! pos = Some id /\ func_res s !! pos = Some v
              /\ func_lat s !! pos = Some l /\ r !! pos = Some old
              /\ r' !! pos = Some (primary_item c s (Z.of_nat pos) id v l old)).
  { intros r' cnt Hf pos Hpos.
    exact (filter_fstack_primary_items c r r' s cnt pos Hf Hpos). }
  assert (Hwrap : wrap_u32 (max_depth s + 1) = max_depth s + 1)
    by (apply wrap_u32_id; lia).
  assert (Hf : exists r' cnt, filter_fstack c r s = Some (r', cnt)
            /\ (max_depth s + 1 = saved_depth s ->
                forall pos, max_depth s <= Z.of_nat pos < saved_max_depth s ->
                exists id v l,
                  saved_ids s !! pos = Some id /\ saved_res s !! pos = Some v
                  /\ saved_lat s !! pos = Some l
                  /\ r' !! pos = Some (saved_item c id v l))
            /\ (forall pos, cnt <= Z.of_nat pos -> r' !! pos = r !! pos)).
  { unfold filter_fstack. rewrite Hrun. cbn [mbind option_bind]. rewrite Hwrap.
    destruct (Z.eqb_spec (max_depth s + 1) (saved_depth s)) as [Heq | Hne];
      cbn [negb].
    - assert (Hstit : stitches s = true).
      { unfold stitches. rewrite Hwrap. apply Z.eqb_eq. exact Heq. }
      destruct (Hst Hstit) as (Hsi & Hsr & Hsl & Hsb).
      rewrite cast_int_id by lia.
      replace (saved_depth s - 1) with (max_depth s) by lia.
      rewrite (wrap_u32_id (max_depth s)) by lia.
      destruct (Z_le_gt_dec (saved_max_depth s) (max_depth s)) as [Hle | Hgt].
      + replace (Z.to_nat (saved_max_depth s - max_depth s)) with 0%nat by lia.
        cbn [fstack_saved mbind option_bind].
        exists r1, (Z.of_nat (0 + Z.to_nat (max_depth s))).
        split; [reflexivity|]. split; [intros _ pos Hpos; lia|].
        intros pos Hpos. apply Hout1. lia.
      + destruct (fstack_saved_spec c s
                    (Z.to_nat (saved_max_depth s - max_depth s))
                    (max_depth s) (0 + Z.to_nat (max_depth s)) r1)
          as (r2 & Hrun2 & Hlen2 & Hout2 & Hin2); try lia.
        rewrite Hrun2. cbn [mbind option_bind].
        eexists r2, _. split; [reflexivity|]. split.
        * intros _ pos Hpos.
          destruct (Hin2 (pos - Z.to_nat (max_depth s))%nat ltac:(lia))
            as (id & v & l & H1 & H2 & H3 & H4).
          replace (Z.to_nat (max_depth s
                     + Z.of_nat (pos - Z.to_nat (max_depth s))))
            with pos in H1, H2, H3 by lia.
          replace (0 + Z.to_nat (max_depth s)
                   + (pos - Z.to_nat (max_depth s)))%nat with pos in H4 by lia.
          exists id, v, l. auto.
        * intros pos Hpos. rewrite Hout2 by lia. apply Hout1. lia.
    - exists r1, (Z.of_nat (0 + Z.to_nat (max_depth s))).
      split; [reflexivity|]. split; [intros; lia|].
      intros pos Hpos. apply Hout1. lia. }
  destruct Hf as (r' & cnt & Hf & Hsaved & Hrest).
  exists r', cnt. split; [exact Hf|]. split; [exact (Hprim r' cnt Hf)|].
  split; assumption.
Qed.

End ReconstructorContents.

Lemma filter_fstack_contents_witness :
  let r := replicate 8 fstack_zero in
  fstack_fits r sample_stitched
  /\ exists r',
       @filter_fstack sample_h sample_ctx r sample_stitched = Some (r', 4)
       /\ r' !! 0%nat
          = Some {| name := "A"; res := -22; lat := 5000;
                    finished := true; stitched := false |}
       /\ r' !! 2%nat
          = Some {| name := "B"; res := 0xfffffff4; lat := 9000;
                    finished := true; stitched := true |}
       /\ r' !! 3%nat
          = Some {| name := "A"; res := 0; lat := 11000;
                    finished := true; stitched := true |}
       /\ r' !! 4%nat = Some fstack_zero.
Proof.
  intros r.
  assert (Hfit : fstack_fits r sample_stitched).
  { vm_compute; repeat split; intros; try discriminate; reflexivity. }
  split; [exact Hfit|].
  destruct (@filter_fstack_contents sample_h sample_ctx r sample_stitched Hfit)
    as (r' & cnt & Hrun & Hprim & Hsaved & Hrest).
  assert (Hex : exists r0, @filter_fstack sample_h sample_ctx r sample_stitched
                           = Some (r0, 4)) by (eexists; vm_compute; reflexivity).
  destruct Hex as [r0 Hex]. pose proof Hrun as Hrun'.
  rewrite Hex in Hrun'. injection Hrun' as _ Hcnt.
  subst cnt. clear Hex r0. exists r'. split; [exact Hrun|].
  destruct (Hprim 0%nat ltac:(cbn; lia)) as (id & v & l & old & H1 & H2 & H3 & H4 & H5).
  injection H1 as <-. injection H2 as <-. injection H3 as <-. injection H4 as <-.
  destruct (Hsaved eq_refl 2%nat ltac:(cbn; lia)) as (id2 & v2 & l2 & A1 & A2 & A3 & A4).
  injection A1 as <-. injection A2 as <-. injection A3 as <-.
  destruct (Hsaved eq_refl 3%nat ltac:(cbn; lia)) as (id3 & v3 & l3 & B1 & B2 & B3 & B4).
  injection B1 as <-. injection B2 as <-. injection B3 as <-.
  split; [exact H5|]. split; [exact A4|]. split; [exact B4|].
  rewrite (Hrest 4%nat ltac:(lia)). reflexivity.
Defined.

(** ** Decoding and printing results *)

Lemma in_long_opp (z : Z) : in_long z -> z <> LONG_MIN -> in_long (- z).
Proof. unfold in_long, LONG_MIN. lia. Qed.

Lemma err_to_str_opp (err : Z) :
  in_long err -> err <> LONG_MIN -> err_to_str (- err) = err_to_str err.
Proof.
  intros Hr Hmin.
  destruct (Z_lt_le_dec (Z.abs err) err_names_size) as [Hlt | Hge].
  - rewrite !err_to_str_small by (rewrite ?Z.abs_opp; exact Hlt).
    rewrite Z.abs_opp. reflexivity.
  - rewrite !err_to_str_large;
      auto using in_long_opp; rewrite ?Z.abs_opp; exact Hge.
Qed.

Lemma err_to_str_named (err : Z) (nm : string) :
  in_long err -> err_to_str err = Some (Some nm) ->
  Z.abs err < err_names_size
  /\ err_names !! Z.to_nat (Z.abs err) = Some (Some nm)
  /\ err <> 0.
Proof.
  intros Hr H.
  destruct (Z_lt_le_dec (Z.abs err) err_names_size) as [Hlt | Hge].
  - rewrite err_to_str_small in H by exact Hlt.
    split; [exact Hlt|]. split; [exact H|].
    intros ->. discriminate H.
  - rewrite err_to_str_large in H by assumption. discriminate.
Qed.

(** X9. The decoder and the printed result ignore the sign: a result and
    its negation decode alike, so a positive result [k] that has a table
    entry is printed as [[-NAME]], exactly like [-k]. *)
Theorem print_item_result_loses_sign (r : Z) (nm : string) :
  in_long r -> r <> LONG_MIN ->
  err_to_str r = Some (Some nm) ->
  err_to_str (- r) = Some (Some nm)
  /\ print_item_result r
     = Some (("[-" +:+ nm +:+ "]")
             +:+ fmt_s (12 - Z.of_nat (String.length ("[-" +:+ nm +:+ "]"))) ""
             +:+ " ")
  /\ print_item_result (- r) = print_item_result r.
Proof.
  intros Hr Hmin Hnm.
  destruct (err_to_str_named r nm Hr Hnm) as (_ & _ & Hnz).
  pose proof (err_to_str_opp r Hr Hmin) as Hopp.
  split; [congruence|].
  unfold print_item_result.
  destruct (Z.eqb_spec r 0); [contradiction|].
  destruct (Z.eqb_spec (- r) 0); [lia|].
  rewrite Hopp, Hnm. split; reflexivity.
Qed.

Lemma print_item_result_loses_sign_witness :
  in_long 22 /\ 22 <> LONG_MIN /\ err_to_str 22 = Some (Some "EINVAL")
  /\ err_to_str (- 22) = Some (Some "EINVAL")
  /\ print_item_result 22 = Some "[-EINVAL]    "
  /\ print_item_result (- 22) = print_item_result 22.
Proof.
  assert (H1 : in_long 22) by (unfold in_long; lia).
  assert (H2 : 22 <> LONG_MIN) by (unfold LONG_MIN; lia).
  assert (H3 : err_to_str 22 = Some (Some "EINVAL")) by reflexivity.
  split; [exact H1|]. split; [exact H2|]. split; [exact H3|].
  destruct (print_item_result_loses_sign 22 "EINVAL" H1 H2 H3) as (A & B & C).
  split; [exact A|]. split; [rewrite B; reflexivity | exact C].
Defined.

Lemma err_name_list_nodup : NoDup err_name_list.
Proof. apply (bool_decide_unpack _). vm_compute. reflexivity. Qed.

Lemma omap_lookup_unique {A : Type} (l : list (option A)) :
  NoDup (omap id l) ->
  forall i j x,
    l !! i = Some (Some x) -> l !! j = Some (Some x) -> i = j.
Proof.
  induction l as [|o l IH]; intros Hnd i j x Hi Hj; [discriminate Hi|].
  assert (Hin : forall k, l !! k = Some (Some x) -> x ∈ omap id l).
  { intros k Hk. apply list_elem_of_omap. exists (Some x).
    split; [|reflexivity]. apply list_elem_of_lookup. eauto. }
  destruct o as [y|]; cbn [omap list_omap id] in Hnd.
  - change (omap id (Some y :: l)) with (y :: omap id l) in Hnd.
    apply NoDup_cons in Hnd. destruct Hnd as [Hy Hnd].
    destruct i as [|i], j as [|j]; cbn in Hi, Hj.
    + reflexivity.
    + injection Hi as ->. exfalso. apply Hy. eapply Hin. exact Hj.
    + injection Hj as ->. exfalso. apply Hy. eapply Hin. exact Hi.
    + f_equal. eapply IH; eassumption.
  - change (omap id (None :: l)) with (omap id l) in Hnd.
    destruct i as [|i], j as [|j]; cbn in Hi, Hj; try discriminate.
    f_equal. eapply IH; eassumption.
Qed.

(** X10. No two codes share a name: two results that [err_to_str] decodes
    to the same name have the same magnitude, so a printed name identifies
    the error number. *)
Theorem err_to_str_injective (a b : Z) (nm : string) :
  in_long a -> in_long b ->
  err_to_str a = Some (Some nm) -> err_to_str b = Some (Some nm) ->
  Z.abs a = Z.abs b.
Proof.
  intros Ha Hb Hna Hnb.
  destruct (err_to_str_named a nm Ha Hna) as (_ & Hia & _).
  destruct (err_to_str_named b nm Hb Hnb) as (_ & Hib & _).
  pose proof (omap_lookup_unique err_names err_name_list_nodup _ _ _ Hia Hib).
  lia.
Qed.

Lemma err_to_str_injective_witness :
  in_long (-12) /\ in_long 12
  /\ err_to_str (-12) = Some (Some "ENOMEM")
  /\ err_to_str 12 = Some (Some "ENOMEM")
  /\ Z.abs (-12) = Z.abs 12.
Proof.
  assert (H1 : in_long (-12)) by (unfold in_long; lia).
  assert (H2 : in_long 12) by (unfold in_long; lia).
  split; [exact H1|]. split; [exact H2|].
  split; [reflexivity|]. split; [reflexivity|].
  exact (err_to_str_injective (-12) 12 "ENOMEM" H1 H2 eq_refl eq_refl).
Defined.

(** *** Column widths *)

Lemma str_length_app (a b : string) :
  String.length (a +:+ b) = (String.length a + String.length b)%nat.
Proof.
  induction a as [|ch a IH]; [reflexivity|].
  change (S (String.length (a +:+ b)) = S (String.length a + String.length b)).
  rewrite IH. reflexivity.
Qed.

Lemma spaces_length (n : nat) : String.length (spaces n) = n.
Proof. induction n as [|n IH]; cbn; [reflexivity | rewrite IH; reflexivity]. Qed.

Lemma fmt_s_length (w : Z) (s : string) :
  Z.of_nat (String.length (fmt_s w s))
  = Z.max (Z.abs w) (Z.of_nat (String.length s)).
Proof.
  unfold fmt_s. destruct (Z.ltb_spec w 0);
    rewrite str_length_app, spaces_length; lia.
Qed.

Lemma fmt_s_left_length (w : Z) (s : string) :
  Z.of_nat (String.length (fmt_s_left w s))
  = Z.max (Z.abs w) (Z.of_nat (String.length s)).
Proof. unfold fmt_s_left. rewrite str_length_app, spaces_length. lia. Qed.

(** X11. The columns that [print_item] puts before the function name are
    29 wide for a line without a logical item and for a pending item; for
    a finished item they are 29 wide when the latency has at most 10
    characters and the result is 0 or its bracketed text has at most 12;
    a longer bracketed text of [L] characters makes them [29 + 2 (L - 12)]
    wide, because the negative padding width is taken as a left-justified
    width. *)
Theorem print_item_head_width (fitem : option fstack_item)
    (kitem : option kstack_item) (h : string) :
  print_item_head fitem kitem = Some h ->
  (fitem = None -> String.length h = 29%nat)
  /\ (forall f, fitem = Some f -> finished f = false ->
      String.length h = 29%nat)
  /\ (forall f, fitem = Some f -> finished f = true ->
      (String.length (fmt_ld (lat f ÷ 1000)) <= 10)%nat ->
      (res f = 0 -> String.length h = 29%nat)
      /\ (forall errstr, res f <> 0 -> err_to_str (res f) = Some errstr ->
          let L := Z.of_nat (String.length (result_text errstr (res f))) in
          Z.of_nat (String.length h) = 29 + 2 * Z.max 0 (L - 12))).
Proof.
  unfold print_item_head. intros H.
  assert (Hmark : forall k : option kstack_item,
            String.length (match k with None => "!" | Some _ => " " end) = 1%nat)
    by (intros [k|]; reflexivity).
  split; [|split].
  - intros ->. cbn [mbind option_bind] in H. injection H as <-.
    rewrite !str_length_app, Hmark.
    pose proof (fmt_s_length (12 + 1 + 12) ""). cbn in *. lia.
  - intros f -> Hfin. rewrite Hfin in H. cbn [negb mbind option_bind] in H.
    injection H as <-. rewrite !str_length_app, Hmark.
    pose proof (fmt_s_length 12 "..."). pose proof (fmt_s_left_length 12 "[...]").
    destruct (stitched f); cbn in *; lia.
  - intros f -> Hfin Hlat. rewrite Hfin in H. cbn [negb] in H.
    destruct (print_item_result (res f)) as [col|] eqn:Hcol;
      cbn [mbind option_bind] in H; [|discriminate].
    injection H as <-. rewrite !str_length_app, Hmark.
    assert (Hstar : String.length (if stitched f then "* " else "  ") = 2%nat)
      by (destruct (stitched f); reflexivity).
    rewrite Hstar.
    pose proof (fmt_s_length (12 - 2) (fmt_ld (lat f ÷ 1000))) as Hl.
    unfold fmt_ld_w.
    assert (Hus : String.length "us " = 3%nat) by reflexivity.
    rewrite Hus. unfold print_item_result in Hcol. split.
    + intros Hz. rewrite Hz in Hcol. cbn in Hcol. injection Hcol as <-.
      assert (Hn : String.length (fmt_s_left 12 "[NULL]" +:+ " ") = 13%nat)
        by reflexivity.
      rewrite Hn. lia.
    + intros errstr Hnz Herr.
      destruct (Z.eqb_spec (res f) 0); [contradiction|].
      rewrite Herr in Hcol. cbn [mbind option_bind] in Hcol.
      fold (result_text errstr (res f)) in Hcol. injection Hcol as <-.
      rewrite !str_length_app.
      pose proof (fmt_s_length
                    (12 - Z.of_nat (String.length (result_text errstr (res f))))
                    "") as Hp.
      remember (String.length (result_text errstr (res f))) as len eqn:Hn.
      clear Hn. cbn [String.length] in *. lia.
Qed.

Lemma print_item_head_width_witness :
  let f := {| name := "A"; res := -516; lat := 5000;
              finished := true; stitched := false |} in
  print_item_head (Some f) None
  = Some "!           5us [-ERESTART_RESTARTBLOCK]             "
  /\ finished f = true
  /\ (String.length (fmt_ld (lat f ÷ 1000)) <= 10)%nat
  /\ res f <> 0
  /\ err_to_str (res f) = Some (Some "ERESTART_RESTARTBLOCK")
  /\ Z.of_nat (String.length
                 "!           5us [-ERESTART_RESTARTBLOCK]             ")
     = 29 + 2 * Z.max 0 (24 - 12).
Proof.
  intros f.
  assert (H : print_item_head (Some f) None
              = Some "!           5us [-ERESTART_RESTARTBLOCK]             ")
    by reflexivity.
  assert (Hlat : (String.length (fmt_ld (lat f ÷ 1000)) <= 10)%nat)
    by (vm_compute; lia).
  assert (Hnz : res f <> 0) by (cbn; lia).
  split; [exact H|]. split; [reflexivity|]. split; [exact Hlat|].
  split; [exact Hnz|]. split; [reflexivity|].
  destruct (print_item_head_width (Some f) None _ H) as (_ & _ & Hfin).
  destruct (Hfin f eq_refl eq_refl Hlat) as [_ Hw].
  exact (Hw (Some "ERESTART_RESTARTBLOCK"%string) Hnz eq_refl).
Defined.

(** ** Normalising twice *)

Lemma str_drop_length (n : nat) (s : string) :
  String.length (str_drop n s) = (String.length s - n)%nat.
Proof.
  revert s. induction n as [|n IH]; intros [|ch s]; cbn; auto.
Qed.

Lemma str_drop_drop (n m : nat) (s : string) :
  str_drop m (str_drop n s) = str_drop (n + m) s.
Proof.
  revert s. induction n as [|n IH]; intros s; [rewrite str_drop_0; reflexivity|].
  destruct s as [|ch s]; cbn [str_drop Nat.add].
  - destruct m; reflexivity.
  - apply IH.
Qed.

(** An occurrence in a suffix is an occurrence in the path. *)
Lemma occurs_at_suffix (d path : string) (off o : nat) :
  (off <= String.length path)%nat ->
  occurs_at d (str_drop off path) o -> occurs_at d path (off + o).
Proof.
  unfold occurs_at. rewrite str_drop_length, str_drop_drop.
  intros Hoff [Hle Hp]. split; [lia | exact Hp].
Qed.

Lemma strstr_None_occurs (needle hay : string) :
  (forall o, ~ occurs_at needle hay o) -> strstr hay needle = None.
Proof.
  intros Hno. pose proof (strstr_spec needle hay) as Hs.
  destruct (strstr hay needle) as [off|]; [|reflexivity].
  destruct Hs as [Hocc _]. exfalso. exact (Hno off Hocc).
Qed.

Lemma strstr_at_0 (needle hay : string) :
  String.prefix needle hay = true -> strstr hay needle = Some 0%nat.
Proof. intros Hp. destruct hay; cbn [strstr]; rewrite Hp; reflexivity. Qed.

(** The loop over the table stops at the first name that occurs. *)
Lemma detect_loop_cases (path : string) (dirs : list string) :
  (Forall (fun d => strstr path d = None) dirs /\ detect_loop path dirs = 0)
  \/ (exists pre d post off,
        dirs = pre ++ d :: post
        /\ Forall (fun d' => strstr path d' = None) pre
        /\ strstr path d = Some off
        /\ detect_loop path dirs = cast_int (Z.of_nat off)).
Proof.
  induction dirs as [|d dirs IH]; cbn [detect_loop].
  - left. split; [constructor | reflexivity].
  - destruct (strstr path d) as [off|] eqn:Hd.
    + right. exists [], d, dirs, off. repeat split; auto.
    + destruct IH as [[Hall Hz] | (pre & d' & post & off & -> & Hpre & Hd' & Hr)].
      * left. split; [constructor; assumption | exact Hz].
      * right. exists (d :: pre), d', post, off.
        split; [reflexivity|]. split; [constructor; assumption|]. auto.
Qed.

Lemma detect_loop_skip (path : string) (pre rest : list string) :
  Forall (fun d => strstr path d = None) pre ->
  detect_loop path (pre ++ rest) = detect_loop path rest.
Proof.
  induction 1 as [|d pre Hd Hpre IH]; cbn [app detect_loop]; [reflexivity|].
  rewrite Hd. exact IH.
Qed.

(** X12. The offset that [detect_linux_src_loc] returns lies within the
    path, and normalising is idempotent: on the suffix that [print_item]
    prints, the normaliser returns 0. *)
Theorem detect_linux_src_loc_idempotent (path : string) :
  Z.of_nat (String.length path) < 2 ^ 31 ->
  0 <= detect_linux_src_loc path <= Z.of_nat (String.length path)
  /\ detect_linux_src_loc
       (str_drop (Z.to_nat (detect_linux_src_loc path)) path) = 0.
Proof.
  intros Hlen. unfold detect_linux_src_loc.
  destruct (detect_loop_cases path linux_dirs)
    as [[Hall Hz] | (pre & d & post & off & Hdirs & Hpre & Hd & Hr)].
  - rewrite Hz. split; [lia|]. cbn [Z.to_nat]. rewrite str_drop_0. exact Hz.
  - pose proof (strstr_spec d path) as Hs. rewrite Hd in Hs.
    destruct Hs as [[Hle Hp] _].
    rewrite cast_int_id in Hr by lia. rewrite Hr, Nat2Z.id.
    split; [lia|]. rewrite Hdirs.
    rewrite detect_loop_skip.
    + cbn [detect_loop]. rewrite (strstr_at_0 d _ Hp). reflexivity.
    + rewrite Forall_forall in Hpre. apply Forall_forall. intros d' Hin.
      apply strstr_None_occurs. intros o Ho.
      apply occurs_at_suffix in Ho; [|exact Hle].
      pose proof (strstr_spec d' path) as Hs'. rewrite (Hpre d' Hin) in Hs'.
      exact (Hs' _ Ho).
Qed.

Lemma detect_linux_src_loc_idempotent_witness :
  let path := "/linux/drivers/net/e.c" in
  Z.of_nat (String.length path) < 2 ^ 31
  /\ 0 <= detect_linux_src_loc path <= Z.of_nat (String.length path)
  /\ detect_linux_src_loc
       (str_drop (Z.to_nat (detect_linux_src_loc path)) path) = 0.
Proof.
  intros path.
  assert (H : Z.of_nat (String.length path) < 2 ^ 31)
    by (vm_compute; reflexivity).
  split; [exact H | exact (detect_linux_src_loc_idempotent path H)].
Defined.

(** ** Reinterpreting twice *)

Section ResultIdempotent.
Context `{HDR : retsnoop_h}.

(** X13. The result stored in an item is a [long]; storing is idempotent
    (a stored result stored again, as for a stitched segment that is
    captured twice, is unchanged), and a captured value that fits an
    [int] is stored as it is whatever the function's flags. *)
Theorem fstack_res_idempotent (flags v : Z) :
  in_long v ->
  in_long (fstack_res flags v)
  /\ fstack_res flags (fstack_res flags v) = fstack_res flags v
  /\ (- 2 ^ 31 <= v < 2 ^ 31 -> fstack_res flags v = v).
Proof.
  intros Hv. unfold fstack_res.
  pose proof (cast_int_range v) as Hr.
  destruct (Z.land flags FUNC_NEEDS_SIGN_EXT =? 0).
  - auto.
  - split; [unfold in_long; lia|]. split.
    + apply cast_int_id. exact Hr.
    + apply cast_int_id.
Qed.

End ResultIdempotent.

Lemma fstack_res_idempotent_witness :
  in_long 0xffffffea
  /\ in_long (@fstack_res sample_h 0x4 0xffffffea)
  /\ @fstack_res sample_h 0x4 (@fstack_res sample_h 0x4 0xffffffea)
     = @fstack_res sample_h 0x4 0xffffffea
  /\ (- 2 ^ 31 <= 0xffffffea < 2 ^ 31 ->
      @fstack_res sample_h 0x4 0xffffffea = 0xffffffea).
Proof.
  assert (H : in_long 0xffffffea) by (unfold in_long; lia).
  split; [exact H | exact (@fstack_res_idempotent sample_h 0x4 0xffffffea H)].
Defined.

(** ** The option parser *)

Lemma env_grows_refl (e : cmd_env) : env_grows e e.
Proof. unfold env_grows. repeat split; auto. Qed.

Lemma env_grows_trans (a b c : cmd_env) :
  env_grows a b -> env_grows b c -> env_grows a c.
Proof.
  unfold env_grows.
  intros (A1 & A2 & A3 & A4 & A5 & A6) (B1 & B2 & B3 & B4 & B5 & B6).
  repeat split; auto; etrans; eassumption.
Qed.

Lemma globs_grow_refl (st : parse_state) : globs_grow st st.
Proof. intros a Ha. split; [exact Ha | reflexivity]. Qed.

Lemma globs_grow_trans (a b c : parse_state) :
  globs_grow a b -> globs_grow b c -> globs_grow a c.
Proof.
  intros Hab Hbc x Hx. destruct (Hbc x Hx) as [Hb Hp].
  destruct (Hab x Hb) as [Ha Hp']. split; [exact Ha | etrans; eassumption].
Qed.

(** The levels and the presets are not touched by storing a glob or by
    marking an array. *)
Lemma push_to_env (a : glob_array) (s : string) (e : cmd_env) :
  env_flags (push_to a s e) = env_flags e
  /\ debug_extra (push_to a s e) = debug_extra e
  /\ symb_lines (push_to a s e) = symb_lines e
  /\ symb_inlines (push_to a s e) = symb_inlines e
  /\ env_presets (push_to a s e) = env_presets e
  /\ (forall b, globs_of b (push_to a s e)
                = globs_of b e ++ (if decide (b = a) then [s] else [])).
Proof.
  destruct a; cbn; repeat split; auto;
    intros b; destruct b; cbn;
    repeat match goal with
           | |- context [decide ?P] => destruct (decide P); try congruence
           end;
    rewrite ?app_nil_r; reflexivity.
Qed.

Lemma freed_of_with_env (a : glob_array) (e : cmd_env) (st : parse_state) :
  freed_of a (with_env e st) = freed_of a st.
Proof. destruct a; reflexivity. Qed.

Lemma mark_freed_spec (a b : glob_array) (st : parse_state) :
  st_env (mark_freed a st) = st_env st
  /\ freed_of b (mark_freed a st)
     = (if decide (b = a) then true else freed_of b st).
Proof.
  destruct a, b; cbn; split; try reflexivity;
    repeat match goal with
           | |- context [decide ?P] => destruct (decide P); try congruence
           end.
Qed.

Lemma freed_of_leak (a : glob_array) (st : parse_state) :
  freed_of a (leak st) = freed_of a st.
Proof. destruct a; reflexivity. Qed.

(** What a failed [strdup] leaves. *)
Lemma strdup_failed_spec (m : allocs) (a : glob_array) (st : parse_state) :
  st_env (strdup_failed m a st) = st_env st
  /\ (forall b, freed_of b (strdup_failed m a st)
                = (if decide (b = a)
                   then freed_of a st
                        || (realloc_moves m
                            && has_block (globs_of a (st_env st)))
                   else freed_of b st))
  /\ leaked (strdup_failed m a st)
     = (leaked st
        + (if has_block (globs_of a (st_env st)) && negb (realloc_moves m)
           then 0 else 1))%nat.
Proof.
  unfold strdup_failed.
  destruct (has_block (globs_of a (st_env st))); cbn [andb];
    [destruct (realloc_moves m); cbn [negb]|].
  - pose proof (mark_freed_spec a a st) as [He _].
    split; [exact He|]. split.
    + intros b. rewrite freed_of_leak.
      rewrite (proj2 (mark_freed_spec a b st)).
      destruct (decide (b = a)); [rewrite orb_true_r|]; reflexivity.
    + destruct a; cbn; lia.
  - split; [reflexivity|]. split; [|lia].
    intros b. destruct (decide (b = a)) as [-> |];
      [rewrite orb_false_r|]; reflexivity.
  - split; [reflexivity|]. split; [|cbn; lia].
    intros b. rewrite freed_of_leak.
    destruct (decide (b = a)) as [-> |];
      [rewrite andb_false_r, orb_false_r|]; reflexivity.
Qed.

Lemma push_glob_cases (m : allocs) (arg : option string) (a : glob_array)
    (st st' : parse_state) (out : list out_event) (r : parse_end) :
  push_glob m arg a st = Some (st', out, r) ->
  freed_of a st = false /\ out = []
  /\ ((realloc_ok m = false /\ st' = st /\ r = Returns (- ENOMEM))
      \/ (realloc_ok m = true /\ strdup_ok m = false
          /\ st' = strdup_failed m a st
          /\ r = Returns (- ENOMEM))
      \/ (exists s, arg = Some s
          /\ st' = with_env (push_to a s (st_env st)) st /\ r = Returns 0
          /\ realloc_ok m = true /\ strdup_ok m = true)).
Proof.
  unfold push_glob. destruct (freed_of a st); [discriminate|].
  intros H. split; [reflexivity|]. revert H.
  destruct (realloc_ok m); cbn [negb].
  - destruct arg as [s|]; cbn [mbind option_bind]; [|discriminate].
    destruct (strdup_ok m); cbn [negb]; intros [= <- <- <-].
    + split; [reflexivity|]. right. right. exists s. auto.
    + split; [reflexivity|]. right. left. auto.
  - intros [= <- <- <-]. split; [reflexivity|]. left. auto.
Qed.

(** What a call for an array of globs leaves. *)
Lemma push_glob_step (m : allocs) (arg : option string) (a : glob_array)
    (st st' : parse_state) (out : list out_event) (r : parse_end) :
  push_glob m arg a st = Some (st', out, r) ->
  env_grows (st_env st) (st_env st') /\ globs_grow st st'
  /\ (levels_nested (st_env st) -> levels_nested (st_env st')).
Proof.
  intros H. apply push_glob_cases in H.
  destruct H as (Hfr & _ & [(_ & -> & _) | [(_ & _ & -> & _) | (s & _ & -> & _)]]).
  - split; [apply env_grows_refl|]. split; [apply globs_grow_refl | auto].
  - destruct (strdup_failed_spec m a st) as (He & Hf & _). rewrite He.
    split; [apply env_grows_refl|]. split; [|auto].
    intros b Hb. rewrite Hf in Hb. rewrite He.
    destruct (decide (b = a)) as [-> | Hne].
    + apply orb_false_iff in Hb. destruct Hb as [Hb _].
      split; [exact Hb | reflexivity].
    + split; [exact Hb | reflexivity].
  - destruct (push_to_env a s (st_env st)) as (E1 & E2 & E3 & E4 & E5 & E6).
    cbn [with_env st_env].
    split; [|split].
    + unfold env_grows. rewrite E1, E2, E3, E4, E5. repeat split; auto.
    + intros b Hb. rewrite freed_of_with_env in Hb. split; [exact Hb|].
      cbn [with_env st_env]. rewrite E6. apply prefix_app_r. reflexivity.
    + unfold levels_nested. rewrite E1, E2, E3, E4. auto.
Qed.

Lemma with_env_step (e : cmd_env) (st : parse_state) :
  (forall b, globs_of b e = globs_of b (st_env st)) ->
  globs_grow st (with_env e st).
Proof.
  intros Hg b Hb. rewrite freed_of_with_env in Hb.
  split; [exact Hb|]. cbn [with_env st_env]. rewrite Hg. reflexivity.
Qed.

(** One call keeps what is there and keeps the levels nested. *)
Lemma parse_arg_step (m : allocs) (k : Z) (arg : option string)
    (st st' : parse_state) (out : list out_event) (r : parse_end) :
  parse_arg m k arg st = Some (st', out, r) ->
  env_grows (st_env st) (st_env st') /\ globs_grow st st'
  /\ (levels_nested (st_env st) -> levels_nested (st_env st')).
Proof.
  unfold parse_arg.
  destruct (k =? key "v").
  { destruct arg as [a|];
      [destruct (strcmp_eq a "v"); [|destruct (strcmp_eq a "vv")]|];
      intros [= <- <- <-];
      (split; [|split; [apply with_env_step; intros []; reflexivity|]]);
      unfold env_grows, levels_nested; cbn;
      try (intros (N1 & N2 & N3)); repeat split; auto. }
  destruct (k =? key "p").
  { destruct arg as [a|]; cbn [mbind option_bind]; [|discriminate].
    destruct (find_preset a presets) as [p|].
    - destruct (realloc_ok m); cbn [negb]; intros [= <- <- <-].
      + split; [|split; [apply with_env_step; intros []; reflexivity | auto]].
        unfold env_grows; cbn.
        repeat split; auto. apply prefix_app_r. reflexivity.
      + split; [apply env_grows_refl|]. split; [apply globs_grow_refl | auto].
    - intros [= <- <- <-].
      split; [apply env_grows_refl|]. split; [apply globs_grow_refl | auto]. }
  destruct (k =? key "a"); [apply push_glob_step|].
  destruct (k =? key "d"); [apply push_glob_step|].
  destruct (k =? key "e"); [apply push_glob_step|].
  destruct (k =? key "s").
  { destruct arg as [a|]; [destruct (strcmp_eq a "s")|];
      intros [= <- <- <-];
      (split; [|split; [apply with_env_step; intros []; reflexivity|]]);
      unfold env_grows, levels_nested; cbn;
      try (intros (N1 & N2 & N3)); repeat split; auto. }
  destruct (k =? key "k").
  { intros [= <- <- <-].
    split; [|split; [apply with_env_step; intros []; reflexivity|]];
      unfold env_grows, levels_nested; cbn; [repeat split; auto | auto]. }
  destruct (k =? ARGP_KEY_ARG); intros [= <- <- <-];
    (split; [apply env_grows_refl|]; split; [apply globs_grow_refl | auto]).
Qed.

(** X14. Whatever the options and however the calls end, the parser never
    switches a level off and never drops a preset, and the levels stay
    nested: extra debugging implies debugging, debugging implies
    verbose, inline symbolization implies line symbolization. An array
    of globs either has only grown at its end, or [env] is left with a
    pointer to a block that [realloc] freed; such an array is never
    intact again. *)
Theorem parse_calls_levels_nested (cs : list parse_call)
    (st st' : parse_state) :
  levels_nested (st_env st) ->
  parse_calls cs st = Some st' ->
  levels_nested (st_env st') /\ env_grows (st_env st) (st_env st')
  /\ globs_grow st st'.
Proof.
  revert st. induction cs as [|c cs IH]; intros st Hn; cbn [parse_calls].
  - intros [= <-]. split; [exact Hn|].
    split; [apply env_grows_refl | apply globs_grow_refl].
  - destruct (parse_arg (pc_allocs c) (pc_key c) (pc_arg c) st)
      as [[[st1 out] r]|] eqn:Hp; cbn [mbind option_bind]; [|discriminate].
    destruct (parse_arg_step _ _ _ _ _ _ _ Hp) as (Hg & Hgl & Hn1).
    destruct r as [err|].
    + intros Hrest. destruct (IH st1 (Hn1 Hn) Hrest) as (Hn' & Hg' & Hgl').
      split; [exact Hn'|].
      split; [exact (env_grows_trans _ _ _ Hg Hg')
             | exact (globs_grow_trans _ _ _ Hgl Hgl')].
    + intros [= <-]. split; [exact (Hn1 Hn)|]. split; [exact Hg | exact Hgl].
Qed.

Lemma parse_calls_levels_nested_witness :
  exists st', levels_nested (st_env state_init)
  /\ parse_calls sample_calls state_init = Some st'
  /\ levels_nested (st_env st') /\ env_grows (st_env state_init) (st_env st')
  /\ globs_grow state_init st'.
Proof.
  assert (Hn : levels_nested (st_env state_init))
    by (unfold levels_nested; cbn; repeat split; intros; discriminate).
  destruct (parse_calls sample_calls state_init) as [st'|] eqn:Hp;
    [|vm_compute in Hp; discriminate].
  exists st'. split; [exact Hn|]. split; [reflexivity|].
  exact (parse_calls_levels_nested sample_calls state_init st' Hn Hp).
Defined.




(** [parse_arg] on the option of an array is [push_glob]. *)
Lemma parse_arg_array (m : allocs) (a : glob_array) (arg : option string)
    (st : parse_state) :
  parse_arg m (array_key a) arg st = push_glob m arg a st.
Proof. destruct a; reflexivity. Qed.






(** X16. The errors of one parser call. A call returns 0, or [-EINVAL]
    for a level of [-v] or [-s] that it does not know (and then the
    first level is switched on all the same), or [-ENOMEM] for a failed
    allocation, or [ARGP_ERR_UNKNOWN] for a key that is no option. On
    [-ENOMEM] the contents of [env] are as they were, and after a failed
    [realloc] so is everything else. After a failed [strdup] the block
    that [realloc] returned is lost unless the array was extended in
    place, and when [realloc] moved an array that held globs, [env] keeps
    the pointer that [realloc] freed: a further call for that array is
    undefined. A preset name that is not in the table is no error: the
    call complains on [stderr] and returns 0 with [env] as it was. *)
Theorem parse_arg_errors (m : allocs) (k : Z) (arg : option string)
    (st st' : parse_state) (out : list out_event) (r : Z) :
  parse_arg m k arg st = Some (st', out, Returns r) ->
  (r = 0
   \/ (r = - EINVAL /\ out <> []
       /\ ((k = key "v" /\ st' = with_env (set_verbose (st_env st)) st)
           \/ (k = key "s" /\ st' = with_env (set_symb_lines (st_env st)) st)))
   \/ (r = - ENOMEM /\ out = [] /\ st_env st' = st_env st
       /\ ((realloc_ok m = false /\ st' = st)
           \/ (exists a, k = array_key a
               /\ realloc_ok m = true /\ strdup_ok m = false
               /\ freed_of a st = false
               /\ freed_of a st'
                  = realloc_moves m && has_block (globs_of a (st_env st))
               /\ (forall b, b <> a -> freed_of b st' = freed_of b st)
               /\ leaked st'
                  = (leaked st
                     + (if has_block (globs_of a (st_env st))
                           && negb (realloc_moves m)
                        then 0 else 1))%nat)))
   \/ (r = ARGP_ERR_UNKNOWN /\ st' = st /\ out = []
       /\ ~ In k (ARGP_KEY_ARG :: (key <$> ["v"; "p"; "a"; "d"; "e"; "s"; "k"]%char))))
  /\ (forall a, freed_of a st' = true ->
      forall m' arg', parse_arg m' (array_key a) arg' st' = None)
  /\ (k = key "p" -> forall a, arg = Some a ->
      find_preset a presets = None ->
      r = 0 /\ st' = st
      /\ out = [Stderr ("Unknown preset '" +:+ a +:+ "' specified." +:+ nl)]).
Proof.
  intros H.
  assert (Hfreed : forall a, freed_of a st' = true ->
            forall m' arg', parse_arg m' (array_key a) arg' st' = None).
  { intros a Ha m' arg'. rewrite parse_arg_array. unfold push_glob.
    rewrite Ha. reflexivity. }
  assert (Hmem : forall a, k = array_key a ->
            push_glob m arg a st = Some (st', out, Returns r) ->
            r = 0
            \/ (r = - ENOMEM /\ out = [] /\ st_env st' = st_env st
                /\ ((realloc_ok m = false /\ st' = st)
                    \/ (exists a, k = array_key a
                        /\ realloc_ok m = true /\ strdup_ok m = false
                        /\ freed_of a st = false
                        /\ freed_of a st'
                           = realloc_moves m
                             && has_block (globs_of a (st_env st))
                        /\ (forall b, b <> a -> freed_of b st' = freed_of b st)
                        /\ leaked st'
                           = (leaked st
                              + (if has_block (globs_of a (st_env st))
                                    && negb (realloc_moves m)
                                 then 0 else 1))%nat)))).
  { intros a Hk Hp. apply push_glob_cases in Hp.
    destruct Hp as (Hfr & -> & [(Hr & -> & [= <-])
                               | [(Hr & Hs & -> & [= <-]) | (s & _ & _ & [= <-] & _)]]).
    - right. repeat split; auto.
    - destruct (strdup_failed_spec m a st) as (He & Hf & Hl).
      right. split; [reflexivity|]. split; [reflexivity|].
      split; [exact He|]. right. exists a.
      split; [exact Hk|]. split; [exact Hr|]. split; [exact Hs|].
      split; [exact Hfr|]. split; [|split; [|exact Hl]].
      + rewrite Hf. destruct (decide (a = a)); [|congruence].
        rewrite Hfr. reflexivity.
      + intros b Hb. rewrite Hf. destruct (decide (b = a)); [contradiction|].
        reflexivity.
    - left. reflexivity. }
  split; [|split; [exact Hfreed|]]; revert H; unfold parse_arg.
  - destruct (k =? key "v") eqn:Kv.
    { apply Z.eqb_eq in Kv. subst k. intros H.
      destruct arg as [a|];
        [destruct (strcmp_eq a "v"); [|destruct (strcmp_eq a "vv")]|];
        injection H as <- <- <-; auto.
      right. left. split; [reflexivity|]. split; [discriminate|]. auto. }
    destruct (k =? key "p") eqn:Kp.
    { apply Z.eqb_eq in Kp. subst k.
      destruct arg as [a|]; cbn [mbind option_bind]; [|discriminate].
      destruct (find_preset a presets) as [p|] eqn:Hf.
      - destruct (realloc_ok m) eqn:Hr; cbn [negb]; intros [= <- <- <-]; auto.
        right. right. left. repeat split; auto.
      - intros [= <- <- <-]. auto. }
    destruct (k =? key "a") eqn:Ka.
    { apply Z.eqb_eq in Ka. intros H.
      destruct (Hmem AllowGlobs Ka H) as [-> | Hm]; auto. }
    destruct (k =? key "d") eqn:Kd.
    { apply Z.eqb_eq in Kd. intros H.
      destruct (Hmem DenyGlobs Kd H) as [-> | Hm]; auto. }
    destruct (k =? key "e") eqn:Ke.
    { apply Z.eqb_eq in Ke. intros H.
      destruct (Hmem EntryGlobs Ke H) as [-> | Hm]; auto. }
    destruct (k =? key "s") eqn:Ks.
    { apply Z.eqb_eq in Ks. subst k. intros H.
      destruct arg as [a|]; [destruct (strcmp_eq a "s")|];
        injection H as <- <- <-; auto.
      right. left. split; [reflexivity|]. split; [discriminate|]. auto. }
    destruct (k =? key "k") eqn:Kk; [intros [= <- <- <-]; auto|].
    destruct (k =? ARGP_KEY_ARG) eqn:K0; [discriminate|].
    intros [= <- <- <-].
    right. right. right. repeat split; auto.
    apply Z.eqb_neq in Kv, Kp, Ka, Kd, Ke, Ks, Kk, K0.
    cbn [fmap list_fmap In]. intuition congruence.
  - intros H ->. revert H.
    replace (key "p" =? key "v") with false by reflexivity.
    rewrite Z.eqb_refl.
    intros H a ->. cbn [mbind option_bind] in H. intros Hn.
    rewrite Hn in H. injection H as <- <- <-. auto.
Qed.

Lemma parse_arg_errors_witness :
  let st' := leak (mark_freed EntryGlobs sample_state) in
  parse_arg moved_no_copy (key "e") (Some "lost"%string) sample_state
    = Some (st', [], Returns (- ENOMEM))
  /\ st_env st' = st_env sample_state
  /\ entry_freed st' = true
  /\ parse_arg all_ok (key "e") (Some "next"%string) st' = None.
Proof.
  intros st'.
  assert (H : parse_arg moved_no_copy (key "e") (Some "lost"%string)
                sample_state = Some (st', [], Returns (- ENOMEM)))
    by reflexivity.
  split; [exact H|]. split; [reflexivity|]. split; [reflexivity|].
  destruct (parse_arg_errors moved_no_copy (key "e") (Some "lost"%string)
              sample_state st' [] (- ENOMEM) H) as (_ & Hfreed & _).
  exact (Hfreed EntryGlobs eq_refl all_ok (Some "next"%string)).
Defined.

(** ** Registering the globs *)

Section MainSetup.
Context `{HDR : retsnoop_h}.
Variable FUNC_IS_ENTRY : Z.
Variable glob_matches : string -> string -> bool.
Variable att_glob : list att_call -> att_call -> Z.

Lemma glob_loop_plan (mk : string -> att_call) (globs : list string)
    (made : list att_call) :
  glob_loop att_glob mk globs made = run_plan att_glob (mk <$> globs) made.
Proof.
  revert made. induction globs as [|g globs IH]; intros made;
    cbn [glob_loop run_plan fmap list_fmap]; [reflexivity|].
  destruct (att_glob made (mk g) =? 0); [apply IH | reflexivity].
Qed.

Lemma run_plan_app (a b made : list att_call) :
  run_plan att_glob (a ++ b) made
  = and_then (run_plan att_glob a made) (run_plan att_glob b).
Proof.
  revert made. induction a as [|c a IH]; intros made; cbn [app run_plan].
  - reflexivity.
  - destruct (att_glob made c =? 0) eqn:Hc; [apply IH|].
    unfold and_then. cbn [snd]. rewrite Hc. reflexivity.
Qed.

Lemma and_then_ext (r : list att_call * Z)
    (k k' : list att_call -> list att_call * Z) :
  (forall made, k made = k' made) -> and_then r k = and_then r k'.
Proof. intros H. unfold and_then. destruct (r.2 =? 0); auto. Qed.

Lemma preset_loop_plan (ps : list preset) (made : list att_call) :
  preset_loop att_glob ps made
  = run_plan att_glob (concat (preset_plan <$> ps)) made.
Proof.
  revert made. induction ps as [|p ps IH]; intros made;
    cbn [preset_loop fmap list_fmap concat]; [reflexivity|].
  unfold preset_plan. rewrite <- !app_assoc.
  rewrite run_plan_app, <- glob_loop_plan.
  apply and_then_ext. intros m1. rewrite run_plan_app, <- glob_loop_plan.
  apply and_then_ext. intros m2. rewrite run_plan_app, <- glob_loop_plan.
  apply and_then_ext. intros m3. apply IH.
Qed.

Lemma register_globs_plan (e : cmd_env) :
  register_globs att_glob e = run_plan att_glob (glob_plan e) [].
Proof.
  unfold register_globs, glob_plan.
  rewrite run_plan_app, <- preset_loop_plan.
  apply and_then_ext. intros m1. rewrite run_plan_app, <- glob_loop_plan.
  apply and_then_ext. intros m2. rewrite run_plan_app, <- glob_loop_plan.
  apply and_then_ext. intros m3. rewrite <- glob_loop_plan. reflexivity.
Qed.

Lemma run_plan_spec (todo made calls : list att_call) (err : Z) :
  run_plan att_glob todo made = (calls, err) ->
  exists did rest,
    todo = did ++ rest /\ calls = made ++ did
    /\ (forall pre c post, did = pre ++ c :: post -> post <> [] \/ err = 0 ->
        att_glob (made ++ pre) c = 0)
    /\ (err = 0 -> rest = [])
    /\ (err <> 0 -> exists pre c,
          did = pre ++ [c] /\ att_glob (made ++ pre) c = err).
Proof.
  revert made. induction todo as [|c todo IH]; intros made; cbn [run_plan].
  - intros [= <- <-]. exists [], [].
    split; [reflexivity|]. split; [rewrite app_nil_r; reflexivity|].
    split; [|split].
    + intros pre c post H. destruct pre; discriminate.
    + reflexivity.
    + intros H. contradiction.
  - destruct (att_glob made c =? 0) eqn:Hc.
    + intros H. apply Z.eqb_eq in Hc.
      destruct (IH _ H) as (did & rest & -> & -> & Hmid & Hok & Hbad).
      exists (c :: did), rest. split; [reflexivity|].
      split; [rewrite <- app_assoc; reflexivity|].
      split; [|split].
      * intros pre c' post Hd Hp. destruct pre as [|x pre].
        -- injection Hd as <- _. rewrite app_nil_r. exact Hc.
        -- injection Hd as <- Hd'.
           specialize (Hmid pre c' post Hd' Hp).
           rewrite <- app_assoc in Hmid. exact Hmid.
      * exact Hok.
      * intros He. destruct (Hbad He) as (pre & c' & -> & Hl).
        exists (c :: pre), c'. split; [reflexivity|].
        rewrite <- app_assoc in Hl. exact Hl.
    + intros [= <- <-]. apply Z.eqb_neq in Hc.
      exists [c], todo. split; [reflexivity|]. split; [reflexivity|].
      split; [|split].
      * intros pre c' post Hd [Hp | He]; [|contradiction].
        destruct pre as [|x pre].
        -- injection Hd as _ <-. contradiction.
        -- injection Hd as _ Hd'. destruct pre; discriminate.
      * intros He. contradiction.
      * intros _. exists [], c. rewrite app_nil_r. auto.
Qed.

(** X17. [main] registers the globs in one fixed order and stops at the
    first call that the attacher refuses: for each selected preset, in
    the order of the command line, its entry globs and its allow globs
    as allow globs and then its deny globs, and after all presets the
    user's entry, allow and deny globs. The calls made are a prefix of
    that plan, the whole plan when [err] is 0, and otherwise they end
    with the call that returned [err]; every call before it returned 0. Every glob that can mark an entry
    point is in the plan as an allow glob. *)
Theorem register_globs_order (e : cmd_env) (calls : list att_call) (err : Z) :
  register_globs att_glob e = (calls, err) ->
  calls `prefix_of` glob_plan e
  /\ (err = 0 -> calls = glob_plan e)
  /\ (err <> 0 -> exists pre c, calls = pre ++ [c] /\ att_glob pre c = err)
  /\ (forall pre c post, calls = pre ++ c :: post -> post <> [] \/ err = 0 ->
      att_glob pre c = 0)
  /\ (forall g, In g (all_entry_globs e) -> In (AllowGlob g) (glob_plan e)).
Proof.
  rewrite register_globs_plan. intros H.
  destruct (run_plan_spec _ _ _ _ H)
    as (did & rest & Hplan & -> & Hmid & Hok & Hbad).
  cbn [app] in *. split; [exists rest; exact Hplan|].
  split; [intros He; rewrite (Hok He), app_nil_r in Hplan; auto|].
  split; [exact Hbad|]. split; [exact Hmid|].
  intros g Hin. unfold all_entry_globs in Hin. unfold glob_plan.
  apply in_app_or in Hin. destruct Hin as [Hu | Hp].
  - apply in_or_app. right. apply in_or_app. left.
    apply in_map. exact Hu.
  - apply in_or_app. left.
    apply in_concat in Hp. destruct Hp as (l & Hl & Hg).
    apply in_map_iff in Hl. destruct Hl as (p & <- & Hp).
    apply in_concat. exists (preset_plan p).
    split; [apply in_map; exact Hp|].
    unfold preset_plan. apply in_or_app. left. apply in_map. exact Hg.
Qed.

(** ** Marking the entry points *)

Lemma entry_loop_spec (e : cmd_env) (name : string) (flags : Z)
    (globs : list string) :
  entry_loop FUNC_IS_ENTRY glob_matches e name flags globs
  = if existsb (fun glob => glob_matches glob name) globs
    then Some (Z.lor flags (wrap_u32 FUNC_IS_ENTRY),
               if verbose (env_flags e) then [entry_msg name] else [])
    else None.
Proof.
  induction globs as [|g globs IH]; cbn [entry_loop existsb]; [reflexivity|].
  destruct (glob_matches g name); cbn [negb orb]; [reflexivity | exact IH].
Qed.

Lemma entry_presets_spec (e : cmd_env) (name : string) (flags : Z)
    (ps : list preset) :
  entry_presets FUNC_IS_ENTRY glob_matches e name flags ps
  = if existsb (fun glob => glob_matches glob name)
         (concat (p_entry_globs <$> ps))
    then Some (Z.lor flags (wrap_u32 FUNC_IS_ENTRY),
               if verbose (env_flags e) then [entry_msg name] else [])
    else None.
Proof.
  induction ps as [|p ps IH];
    cbn [entry_presets fmap list_fmap concat existsb]; [reflexivity|].
  rewrite entry_loop_spec, existsb_app.
  destruct (existsb _ (p_entry_globs p)); cbn [orb]; [reflexivity | exact IH].
Qed.

(** X18. The flags that [main] stores for a function are the
    classification of [func_flags], with [FUNC_IS_ENTRY] set exactly when
    one of the user's entry globs or an entry glob of a selected preset
    matches its name. With [-v] an entry point is announced once, however
    many globs match it, and nothing else is printed. When
    [FUNC_IS_ENTRY] and [FUNC_NEEDS_SIGN_EXT] share no bit, marking does
    not change how [filter_fstack] reads the function's results. *)
Theorem main_func_flags_entry (fuel : nat) (b : btf) (e : cmd_env)
    (name : string) (btf_id flags : Z) (out : list out_event) :
  main_func_flags FUNC_IS_ENTRY glob_matches fuel b e name btf_id
    = Some (flags, out) ->
  exists t f,
    b btf_id = Some t /\ func_flags fuel b t = Some f
    /\ flags = (if is_entry glob_matches e name
                then Z.lor (wrap_u32 f) (wrap_u32 FUNC_IS_ENTRY)
                else wrap_u32 f)
    /\ out = (if is_entry glob_matches e name && verbose (env_flags e)
              then [entry_msg name] else [])
    /\ (0 <= f < 2 ^ 32 ->
        Z.land (wrap_u32 FUNC_IS_ENTRY) FUNC_NEEDS_SIGN_EXT = 0 ->
        forall v, fstack_res flags v = fstack_res f v).
Proof.
  unfold main_func_flags, is_entry, all_entry_globs.
  destruct (b btf_id) as [t|] eqn:Ht; cbn [mbind option_bind]; [|discriminate].
  destruct (func_flags fuel b t) as [f|] eqn:Hf; cbn [mbind option_bind];
    [|discriminate].
  rewrite entry_loop_spec, entry_presets_spec, existsb_app.
  intros H. exists t, f. split; [reflexivity|]. split; [exact Hf|].
  clear Hf.
  assert (Hres : forall marked : bool,
    flags = (if marked then Z.lor (wrap_u32 f) (wrap_u32 FUNC_IS_ENTRY)
             else wrap_u32 f) ->
    0 <= f < 2 ^ 32 ->
    Z.land (wrap_u32 FUNC_IS_ENTRY) FUNC_NEEDS_SIGN_EXT = 0 ->
    forall v, fstack_res flags v = fstack_res f v).
  { intros marked -> Hf Hbits v. unfold fstack_res.
    rewrite (wrap_u32_id f Hf).
    destruct marked; [|reflexivity].
    rewrite Z.land_lor_distr_l, Hbits, Z.lor_0_r. reflexivity. }
  destruct (existsb _ (entry_globs e)); cbn [orb andb].
  - injection H as <- <-. split; [reflexivity|]. split; [|exact (Hres true eq_refl)].
    destruct (verbose (env_flags e)); reflexivity.
  - destruct (existsb _ (concat _)); cbn [andb]; injection H as <- <-.
    + split; [reflexivity|]. split; [|exact (Hres true eq_refl)].
      destruct (verbose (env_flags e)); reflexivity.
    + split; [reflexivity|]. split; [reflexivity|exact (Hres false eq_refl)].
Qed.

End MainSetup.

Lemma register_globs_order_witness :
  exists calls err,
    register_globs sample_att_glob sample_cmd_env = (calls, err)
    /\ calls `prefix_of` glob_plan sample_cmd_env
    /\ (err = 0 -> calls = glob_plan sample_cmd_env)
    /\ (err <> 0 -> exists pre c,
          calls = pre ++ [c] /\ sample_att_glob pre c = err)
    /\ (forall pre c post, calls = pre ++ c :: post -> post <> [] \/ err = 0 ->
        sample_att_glob pre c = 0)
    /\ (forall g, In g (all_entry_globs sample_cmd_env) ->
        In (AllowGlob g) (glob_plan sample_cmd_env)).
Proof.
  destruct (register_globs sample_att_glob sample_cmd_env) as [calls err] eqn:H.
  exists calls, err. split; [reflexivity|].
  exact (register_globs_order sample_att_glob sample_cmd_env calls err H).
Defined.

Lemma main_func_flags_entry_witness :
  exists flags out t f,
    @main_func_flags sample_h 1 sample_glob_matches 2 sample_btf
      sample_cmd_env "__x64_sys_bpf" 1 = Some (flags, out)
    /\ sample_btf 1 = Some t /\ @func_flags sample_h 2 sample_btf t = Some f
    /\ flags = (if is_entry sample_glob_matches sample_cmd_env "__x64_sys_bpf"
                then Z.lor (wrap_u32 f) (wrap_u32 1) else wrap_u32 f)
    /\ out = (if is_entry sample_glob_matches sample_cmd_env "__x64_sys_bpf"
                 && verbose (env_flags sample_cmd_env)
              then [entry_msg "__x64_sys_bpf"] else [])
    /\ (0 <= f < 2 ^ 32 ->
        Z.land (wrap_u32 1) (@FUNC_NEEDS_SIGN_EXT sample_h) = 0 ->
        forall v, @fstack_res sample_h flags v = @fstack_res sample_h f v).
Proof.
  destruct (@main_func_flags sample_h 1 sample_glob_matches 2 sample_btf
              sample_cmd_env "__x64_sys_bpf" 1) as [[flags out]|] eqn:H;
    [|vm_compute in H; discriminate].
  exists flags, out.
  destruct (@main_func_flags_entry sample_h 1 sample_glob_matches 2 sample_btf
              sample_cmd_env "__x64_sys_bpf" 1 flags out H) as (t & f & Hr).
  exists t, f. split; [reflexivity | exact Hr].
Defined.

(** ** Locating the kernel image *)

Lemma str_take_all (n : nat) (s : string) :
  (String.length s <= n)%nat -> str_take n s = s.
Proof.
  revert n. induction s as [|ch s IH]; intros n Hn.
  - destruct n; reflexivity.
  - destruct n as [|n]; [cbn in Hn; lia|].
    cbn [str_take]. rewrite IH; [reflexivity | cbn in Hn; lia].
Qed.

Lemma snprintf_fits (buf_len : nat) (old text : string) :
  (String.length text < buf_len)%nat ->
  (String.length text < PATH_MAX)%nat ->
  snprintf buf_len PATH_MAX old text = Some text.
Proof.
  intros Hb Hp. unfold snprintf.
  rewrite (str_take_all (PATH_MAX - 1) text) by lia.
  destruct (PATH_MAX =? 0)%nat eqn:H0;
    [apply Nat.eqb_eq in H0; lia|].
  destruct (String.length text + 1 <=? buf_len)%nat eqn:Hl; [reflexivity|].
  apply Nat.leb_gt in Hl. lia.
Qed.

Lemma snprintf_overruns (buf_len : nat) (old text : string) :
  (buf_len <= String.length text)%nat ->
  (String.length text < PATH_MAX)%nat ->
  snprintf buf_len PATH_MAX old text = None.
Proof.
  intros Hb Hp. unfold snprintf.
  rewrite (str_take_all (PATH_MAX - 1) text) by lia.
  destruct (PATH_MAX =? 0)%nat eqn:H0;
    [apply Nat.eqb_eq in H0; lia|].
  destruct (String.length text + 1 <=? buf_len)%nat eqn:Hl; [|reflexivity].
  apply Nat.leb_le in Hl. lia.
Qed.

(** No candidate is longer than twice the release and 35 characters. *)
Lemma candidates_length (release : string) :
  Forall (fun p => (String.length p <= 2 * String.length release + 35)%nat)
    (candidates release).
Proof.
  unfold candidates, locations. cbn [fmap list_fmap fmt_1s].
  repeat constructor;
    cbn [String.length]; rewrite ?str_length_app; cbn [String.length];
    rewrite ?str_length_app; cbn [String.length]; lia.
Qed.

Lemma last_cons_default {A : Type} (x d : A) (l : list A) :
  List.last (x :: l) d = List.last l x.
Proof.
  revert x d. induction l as [|y l IH]; intros x d; [reflexivity|].
  change (List.last (y :: l) d = List.last (y :: l) x).
  rewrite (IH y d), (IH y x). reflexivity.
Qed.

Lemma find_vmlinux_loop_spec (e : env) (max_len : nat) (release : string)
    (access_ok : string -> bool) (locs : list string) (path0 : string) :
  Forall (fun loc => (String.length (fmt_1s loc release) < max_len)%nat
                     /\ (String.length (fmt_1s loc release) < PATH_MAX)%nat)
    locs ->
  let ps := (fun loc => fmt_1s loc release) <$> locs in
  find_vmlinux_loop e max_len release access_ok locs path0
  = Some (match List.find access_ok ps with
          | Some p => p
          | None => List.last ps path0
          end,
          (if debug e then missing_line <$> unreadable_prefix access_ok ps
           else [])
          ++ match List.find access_ok ps with
             | Some p => if verbose e then [using_line p] else []
             | None => [failed_line]
             end,
          match List.find access_ok ps with
          | Some _ => 0
          | None => - ESRCH
          end).
Proof.
  intros Hfit. revert path0.
  induction Hfit as [|loc locs [Hb Hp] Hfit IH]; intros path0.
  - cbn [find_vmlinux_loop fmap list_fmap List.find unreadable_prefix List.last].
    destruct (debug e); reflexivity.
  - cbn [find_vmlinux_loop fmap list_fmap List.find unreadable_prefix].
    rewrite (snprintf_fits _ path0 _ Hb Hp). cbn [mbind option_bind].
    destruct (access_ok (fmt_1s loc release)) eqn:Ha; cbn [negb].
    + destruct (debug e); reflexivity.
    + rewrite IH. cbn [mbind option_bind]. rewrite last_cons_default.
      destruct (List.find access_ok _); destruct (debug e); reflexivity.
Qed.

(** X19. With a release name of at most 64 characters, as [uname] gives
    it, and the 1024-byte buffer of [main] (any buffer of 164 bytes or
    more), [find_vmlinux] returns: it leaves in [path] the first
    candidate of its table, in table order, that is readable and returns
    0, or returns [-ESRCH] with the last candidate in [path] when none
    is. With [-vv] it prints one line for each candidate tried before,
    with [-v] the one it uses, and the failure goes to [stderr]. *)
Theorem find_vmlinux_first_readable (e : env) (max_len : nat)
    (release : string) (access_ok : string -> bool) (path0 : string) :
  (String.length release <= 64)%nat ->
  (164 <= max_len)%nat ->
  let ps := candidates release in
  find_vmlinux e max_len release access_ok path0
  = Some (match List.find access_ok ps with
          | Some p => p
          | None => "/usr/lib/debug/lib/modules/" +:+ release +:+ "/vmlinux"
          end,
          (if debug e then missing_line <$> unreadable_prefix access_ok ps
           else [])
          ++ match List.find access_ok ps with
             | Some p => if verbose e then [using_line p] else []
             | None => [failed_line]
             end,
          match List.find access_ok ps with
          | Some _ => 0
          | None => - ESRCH
          end).
Proof.
  intros Hr Hm ps. unfold find_vmlinux.
  rewrite find_vmlinux_loop_spec.
  - fold (candidates release). fold ps.
    destruct (List.find access_ok ps); reflexivity.
  - pose proof (candidates_length release) as Hlen.
    unfold candidates in Hlen. rewrite Forall_fmap in Hlen.
    eapply Forall_impl; [exact Hlen|]. cbn. intros loc Hl.
    unfold PATH_MAX. lia.
Qed.

Lemma find_vmlinux_first_readable_witness :
  let release := "5.10.0"%string in
  (String.length release <= 64)%nat /\ (164 <= 1024)%nat
  /\ find_vmlinux chatty 1024 release sample_access_ok ""
     = Some ("/usr/lib/debug/boot/vmlinux-5.10.0"%string,
             [using_line "/usr/lib/debug/boot/vmlinux-5.10.0"], 0).
Proof.
  intros release.
  assert (Hr : (String.length release <= 64)%nat) by (vm_compute; lia).
  assert (Hm : (164 <= 1024)%nat) by lia.
  split; [exact Hr|]. split; [exact Hm|].
  rewrite (find_vmlinux_first_readable chatty 1024 release sample_access_ok
             "" Hr Hm).
  reflexivity.
Defined.

Lemma find_vmlinux_loop_overrun (e : env) (max_len : nat) (release : string)
    (access_ok : string -> bool) (loc : string) (locs : list string)
    (path0 : string) :
  snprintf max_len PATH_MAX path0 (fmt_1s loc release) = None ->
  find_vmlinux_loop e max_len release access_ok (loc :: locs) path0 = None.
Proof. intros H. cbn [find_vmlinux_loop]. rewrite H. reflexivity. Qed.

(** X20. [find_vmlinux] does not use [max_len]: it formats with the
    bound [PATH_MAX]. When the first candidate, [/boot/vmlinux-] and the
    release, does not fit with its terminator in the [max_len] bytes of
    the buffer, the call writes past the buffer. *)
Theorem find_vmlinux_ignores_max_len (e : env) (max_len : nat)
    (release : string) (access_ok : string -> bool) (path0 : string) :
  (max_len < String.length release + 15)%nat ->
  (String.length release + 15 <= PATH_MAX)%nat ->
  find_vmlinux e max_len release access_ok path0 = None.
Proof.
  intros Hm Hp. unfold find_vmlinux, locations.
  apply find_vmlinux_loop_overrun. apply snprintf_overruns;
    cbn [fmt_1s String.length]; rewrite str_length_app;
    cbn [String.length]; lia.
Qed.

Lemma find_vmlinux_ignores_max_len_witness :
  (16 < String.length "5.10.0" + 15)%nat
  /\ (String.length "5.10.0" + 15 <= PATH_MAX)%nat
  /\ find_vmlinux chatty 16 "5.10.0" sample_access_ok "" = None.
Proof.
  assert (Hm : (16 < String.length "5.10.0" + 15)%nat) by (cbn; lia).
  assert (Hp : (String.length "5.10.0" + 15 <= PATH_MAX)%nat)
    by (unfold PATH_MAX; cbn; lia).
  split; [exact Hm|]. split; [exact Hp|].
  exact (find_vmlinux_ignores_max_len chatty 16 "5.10.0" sample_access_ok
           "" Hm Hp).
Defined.
